(** * Misaka edge server: routing, middleware chain, static files, proxy

    A shallow embedding of the request-routing core of the Misaka
    server: the chain composer ([modules/util/util.ts]), the Mizuki
    router with its site router, path router and configuration binder
    ([modules/router/router.ts]), the reverse proxy, the static file
    sender and the upgradable response, with the properties of the
    specification stated and settled against the code; and, beyond the
    specification, the loop that installs the routes of a site, the
    static module, the request statistics and the small helpers, with
    the properties the code itself shows.

    Conventions.  JavaScript strings are [string]; numbers that the code
    only uses as integers are [Z]; a thrown value is [Js.Thrown]; an
    [async] function that changes its context is a state-passing
    function with an [Outcome]; a middleware is a small program
    ([Koa.Mw]) whose only way to the rest of the stack is its
    continuation.  What the platform provides (Node's [url], [fs] and
    [path], Koa's router, the [resolve-path] package) enters as a
    parameter of the definitions that call it, or, where a result
    depends on its behaviour, as a definition that states the behaviour
    it is given. *)

From Stdlib Require Import ZArith String Ascii List Bool Lia Sorted.
From stdpp Require Import base tactics option list strings gmap pretty sorting.

Local Open Scope string_scope.
Local Open Scope list_scope.

(** ** JavaScript values and string primitives *)

Module Js.

(** An [Error] object with the optional properties the code reads
    ([Util.UnsafeError]). *)
Record Error := mkError {
  name : string;
  message : string;
  status : option Z;
  code : option string
}.

(** Anything can be thrown; [Util.isError] tells the two apart. *)
Inductive Thrown :=
| ErrorObj (e : Error)
| NonError (v : string).

Definition isError (t : Thrown) : bool :=
  match t with ErrorObj _ => true | NonError _ => false end.

Definition newError (msg : string) : Thrown :=
  ErrorObj (mkError "Error" msg None None).

Definition newTypeError (msg : string) : Thrown :=
  ErrorObj (mkError "TypeError" msg None None).

Definition newRangeError (msg : string) : Thrown :=
  ErrorObj (mkError "RangeError" msg None (Some "ERR_OUT_OF_RANGE")).

(** [createError(status, msg)] and [ctx.throw(status, msg)]. *)
Definition httpError (st : Z) (msg : string) : Thrown :=
  ErrorObj (mkError "HttpError" msg (Some st) None).

(** [createError(status, err)]: the given error, with its status set. *)
Definition withStatus (st : Z) (e : Error) : Error :=
  mkError (name e) (message e) (Some st) (code e).

Definition statusOf (t : Thrown) : option Z :=
  match t with ErrorObj e => status e | NonError _ => None end.

(** [s.startsWith(p)] *)
Definition startsWith (p s : string) : bool := String.prefix p s.

(** [s.substring(n)] *)
Fixpoint substring_from (n : nat) (s : string) : string :=
  match n, s with
  | O, _ => s
  | S n', String _ s' => substring_from n' s'
  | S _, EmptyString => EmptyString
  end.

(** [s.includes(sub)] *)
Fixpoint includes (sub s : string) : bool :=
  String.prefix sub s ||
  match s with
  | EmptyString => false
  | String _ s' => includes sub s'
  end.

(** The last character, [s[s.length - 1]]. *)
Fixpoint last_char (s : string) : option ascii :=
  match s with
  | EmptyString => None
  | String a EmptyString => Some a
  | String _ s' => last_char s'
  end.

(** [s.split(c)] for a one-character separator: never empty. *)
Fixpoint split (c : ascii) (s : string) : list string :=
  match s with
  | EmptyString => [EmptyString]
  | String a s' =>
      let r := split c s' in
      if Ascii.eqb a c then EmptyString :: r
      else match r with
           | h :: t => String a h :: t
           | [] => [String a EmptyString]
           end
  end.

(** The first occurrence of [src] in [s]: the text before it and the
    text after it. *)
Fixpoint find_first (src s : string) : option (string * string) :=
  if String.prefix src s then
    Some (EmptyString, substring_from (String.length src) s)
  else
    match s with
    | EmptyString => None
    | String a s' =>
        match find_first src s' with
        | Some (b, r) => Some (String a b, r)
        | None => None
        end
    end.

(** [GetSubstitution] for a string pattern, which has no capture
    groups: in the replacement text [$$] is a dollar, [$&] the matched
    text, [$`] the text before the match and [$'] the text after it;
    every other character, a dollar followed by a digit included,
    stands for itself. *)
Fixpoint getSubstitution (matched before after tmpl : string) : string :=
  match tmpl with
  | EmptyString => EmptyString
  | String a t =>
      if Ascii.eqb a "$" then
        match t with
        | String b t' =>
            if Ascii.eqb b "$" then
              String "$" (getSubstitution matched before after t')
            else if Ascii.eqb b "&" then
              matched +:+ getSubstitution matched before after t'
            else if Ascii.eqb b "`" then
              before +:+ getSubstitution matched before after t'
            else if Ascii.eqb b "'" then
              after +:+ getSubstitution matched before after t'
            else String a (getSubstitution matched before after t)
        | EmptyString => String a EmptyString
        end
      else String a (getSubstitution matched before after t)
  end.

(** [s.replace(src, dest)] with a string pattern: the first
    occurrence only. *)
Definition replace (src dest s : string) : string :=
  match find_first src s with
  | Some (b, r) => b +:+ getSubstitution src b r dest +:+ r
  | None => s
  end.

(** [list.join(sep)] *)
Fixpoint join (sep : string) (l : list string) : string :=
  match l with
  | [] => EmptyString
  | [x] => x
  | x :: t => x +:+ sep +:+ join sep t
  end.

(** [parseInt] of a string of decimal digits. The code only uses the
    result where it is at most [2^53 - 1], or only to find it larger
    than that, so the rounding of large numbers plays no part. *)
Fixpoint parseDigits (acc : Z) (s : string) : Z :=
  match s with
  | EmptyString => acc
  | String a s' =>
      parseDigits (10 * acc + (Z.of_nat (nat_of_ascii a) - 48))%Z s'
  end.

Definition parseInt (s : string) : Z := parseDigits 0 s.

(** *** Regular expressions

    The regular expressions of the code are written in this fragment:
    characters, greedy and lazy stars of a character class, capturing
    groups (not nested, so numbered in the order they close), sequence
    and the end anchor. Matching is by backtracking, as in JavaScript;
    a leading start anchor is the [anchored] flag of [exec]. *)
Inductive Re :=
| ReChar (c : ascii)
| ReStar (greedy : bool) (cls : ascii -> bool)
| ReGroup (r : Re)
| ReSeq (r1 r2 : Re)
| ReEnd.

(** The classes [\d], [\w] and [.] (anything but a line terminator). *)
Definition is_digit (a : ascii) : bool :=
  let n := nat_of_ascii a in ((48 <=? n) && (n <=? 57))%nat.

Definition is_word (a : ascii) : bool :=
  let n := nat_of_ascii a in
  (((48 <=? n) && (n <=? 57)) || ((65 <=? n) && (n <=? 90))
   || ((97 <=? n) && (n <=? 122)) || (n =? 95))%nat.

Definition is_dot (a : ascii) : bool :=
  let n := nat_of_ascii a in negb ((n =? 10) || (n =? 13))%nat.

Definition Captures := list string.

Fixpoint star_greedy (cls : ascii -> bool) (s : string)
    (k : string -> option Captures) : option Captures :=
  match s with
  | String a s' =>
      if cls a then
        match star_greedy cls s' k with
        | Some r => Some r
        | None => k s
        end
      else k s
  | EmptyString => k s
  end.

Fixpoint star_lazy (cls : ascii -> bool) (s : string)
    (k : string -> option Captures) : option Captures :=
  match k s with
  | Some r => Some r
  | None =>
      match s with
      | String a s' => if cls a then star_lazy cls s' k else None
      | EmptyString => None
      end
  end.

(** The text consumed between two positions of the same input. *)
Definition consumed (from to : string) : string :=
  String.substring 0 (String.length from - String.length to) from.

Fixpoint match_re (r : Re) (s : string) (caps : Captures)
    (k : string -> Captures -> option Captures) : option Captures :=
  match r with
  | ReChar c =>
      match s with
      | String a s' => if Ascii.eqb a c then k s' caps else None
      | EmptyString => None
      end
  | ReStar true cls => star_greedy cls s (fun s' => k s' caps)
  | ReStar false cls => star_lazy cls s (fun s' => k s' caps)
  | ReGroup r1 =>
      match_re r1 s caps (fun s' caps' => k s' (caps' ++ [consumed s s']))
  | ReSeq r1 r2 =>
      match_re r1 s caps (fun s' caps' => match_re r2 s' caps' k)
  | ReEnd => match s with EmptyString => k s caps | _ => None end
  end.

Definition match_here (r : Re) (s : string) : option Captures :=
  match_re r s [] (fun _ caps => Some caps).

(** [re.exec(s)]: the captures of the leftmost match; with [anchored]
    only a match at the start counts. *)
Fixpoint exec_from (r : Re) (s : string) : option Captures :=
  match match_here r s with
  | Some caps => Some caps
  | None =>
      match s with
      | String _ s' => exec_from r s'
      | EmptyString => None
      end
  end.

Definition exec (anchored : bool) (r : Re) (s : string) : option Captures :=
  if anchored then match_here r s else exec_from r s.

(** The pieces of a pattern in a row; the empty row matches the empty
    text. *)
Fixpoint seq (l : list Re) : Re :=
  match l with
  | [] => ReStar true (fun _ => false)
  | [r] => r
  | r :: t => ReSeq r (seq t)
  end.

End Js.


(** ** Regular expressions that are only tested

    The patterns the code only calls [test] on, with alternation,
    repetition and the two anchors. A match is searched for from every
    start position, leftmost first; [test] answers whether there is
    one. *)

Module Rx.

Inductive t :=
| Chr (cls : ascii -> bool)
| Eps
| Cat (a b : t)
| Alt (a b : t)
| Star (a : t)
| Bol
| Eol.

(** [matches r bol s k]: [r] matches a prefix of [s] and [k] accepts
    the rest; [bol] says that [s] starts at the start of the input. A
    repetition goes on only as long as a round consumes something. *)
Fixpoint matches (r : t) (bol : bool) (s : string) (k : bool -> string -> bool) : bool :=
  match r with
  | Chr cls =>
      match s with
      | String a s' => cls a && k false s'
      | EmptyString => false
      end
  | Eps => k bol s
  | Cat a b => matches a bol s (fun bol' s' => matches b bol' s' k)
  | Alt a b => matches a bol s k || matches b bol s k
  | Star a =>
      (fix star (n : nat) (bol : bool) (s : string) : bool :=
         match n with
         | O => k bol s
         | S n' =>
             matches a bol s
               (fun bol' s' => (String.length s' <? String.length s)%nat && star n' bol' s')
             || k bol s
         end) (String.length s) bol s
  | Bol => bol && k bol s
  | Eol => match s with EmptyString => k bol s | String _ _ => false end
  end.

Fixpoint test_from (r : t) (bol : bool) (s : string) : bool :=
  matches r bol s (fun _ _ => true)
  || match s with
     | String _ s' => test_from r false s'
     | EmptyString => false
     end.

(** [r.test(s)] *)
Definition test (r : t) (s : string) : bool := test_from r true s.

(** The class [[lo-hi]] *)
Definition range (lo hi : ascii) (a : ascii) : bool :=
  ((nat_of_ascii lo <=? nat_of_ascii a) && (nat_of_ascii a <=? nat_of_ascii hi))%nat.

Definition lit (c : ascii) : t := Chr (Ascii.eqb c).

Fixpoint cat (l : list t) : t :=
  match l with
  | [] => Eps
  | [r] => r
  | r :: rest => Cat r (cat rest)
  end.

Fixpoint alt (r : t) (l : list t) : t :=
  match l with
  | [] => r
  | r' :: rest => Alt r (alt r' rest)
  end.

End Rx.

(** ** Node's [path] module, POSIX flavour *)

Module Path.

Definition sep : ascii := "/"%char.

(** [normalizeString]: empty and [.] segments are dropped and [..]
    cancels the segment before it; where there is none, [..] is kept
    only with [allowAboveRoot]. The stack is kept reversed. *)
Fixpoint normalizeSegments (allowAboveRoot : bool) (stack segs : list string)
  : list string :=
  match segs with
  | [] => rev stack
  | seg :: rest =>
      if String.eqb seg "" || String.eqb seg "." then
        normalizeSegments allowAboveRoot stack rest
      else if String.eqb seg ".." then
        match stack with
        | top :: below =>
            if String.eqb top ".." then
              normalizeSegments allowAboveRoot
                (if allowAboveRoot then ".." :: stack else stack) rest
            else normalizeSegments allowAboveRoot below rest
        | [] =>
            normalizeSegments allowAboveRoot
              (if allowAboveRoot then [".."] else []) rest
        end
      else normalizeSegments allowAboveRoot (seg :: stack) rest
  end.

(** [path.normalize(p)] *)
Definition normalize (p : string) : string :=
  if String.eqb p "" then "."
  else
    let isAbsolute := Js.startsWith "/" p in
    let trailingSeparator :=
      match Js.last_char p with Some c => Ascii.eqb c sep | None => false end in
    let body :=
      Js.join "/" (normalizeSegments (negb isAbsolute) [] (Js.split sep p)) in
    if String.eqb body "" then
      if isAbsolute then "/" else if trailingSeparator then "./" else "."
    else
      let body := if trailingSeparator then body +:+ "/" else body in
      if isAbsolute then "/" +:+ body else body.

(** [path.join(a, b)]: the arguments that are not empty joined by a
    slash, and normalised. *)
Definition join (a b : string) : string :=
  if String.eqb a "" then
    if String.eqb b "" then "." else normalize b
  else
    if String.eqb b "" then normalize a
    else normalize (a +:+ "/" +:+ b).

End Path.

(** ** The [resolve-path] package

    What [send] resolves the request path with, as the package has it:
    a path with a NUL character or an absolute path is refused with a
    400, a path that climbs above where it starts is refused with a
    403, and the other paths are joined to the resolved root and
    normalised. *)

Module ResolvePath.

Definition slash (c : ascii) : bool := Ascii.eqb c "/" || Ascii.eqb c "\".

Definition letter (c : ascii) : bool := Rx.range "a" "z" c || Rx.range "A" "Z" c.

(** [UP_PATH_REGEXP]: two dots between the start or a separator and a
    separator or the end. *)
Definition up_path_re : Rx.t :=
  Rx.cat [Rx.Alt Rx.Bol (Rx.Chr slash); Rx.lit "."; Rx.lit ".";
          Rx.Alt (Rx.Chr slash) Rx.Eol].

(** [pathIsAbsolute.posix] and [pathIsAbsolute.win32]: a separator at
    the start, or after a drive letter and a colon. *)
Definition isAbsolute (path : string) : bool :=
  match path with
  | String a rest =>
      slash a
      || (letter a
          && match rest with
             | String ":" (String b _) => slash b
             | _ => false
             end)
  | "" => false
  end.

Section Resolve.

(** [path.resolve] of one path. *)
Variable resolve : string -> string.

(** [resolvePath(rootPath, relativePath)] *)
Definition resolvePath (rootPath relativePath : string) : Js.Thrown + string :=
  if existsb (Ascii.eqb "000") (list_ascii_of_string relativePath) then
    inl (Js.httpError 400 "Malicious Path")
  else if isAbsolute relativePath then inl (Js.httpError 400 "Malicious Path")
  else if Rx.test up_path_re (Path.normalize ("./" +:+ relativePath)) then
    inl (Js.httpError 403 "Forbidden")
  else inr (Path.normalize (Path.join (resolve rootPath) relativePath)).

End Resolve.

End ResolvePath.

(** ** The Koa context and middleware programs *)

Module Koa.

(** A compiled regular expression: only [test] is ever used on it.
    [exec_from i s] is what the matcher of the expression finds in [s]
    when it is started at the index [i]: nothing, or the index at which
    the match ends. [lastIndex] is the property of the object. *)
Record RegExp := mkRegExp {
  source : string;
  flags : string;
  exec_from : nat -> string -> option nat;
  lastIndex : nat
}.

Definition set_lastIndex (i : nat) (r : RegExp) : RegExp :=
  mkRegExp (source r) (flags r) (exec_from r) i.

(** With the [g] or the [y] flag an expression keeps, in [lastIndex],
    where its next match starts. *)
Definition stateful (r : RegExp) : bool :=
  Js.includes "g" (flags r) || Js.includes "y" (flags r).

(** [r.test(s)]: the answer, and the expression as the call leaves it.
    With [g] or [y] the matcher starts at [lastIndex], which moves to
    the end of the match, or back to 0 when there is none or when
    [lastIndex] is beyond the text; without them it starts at 0 and
    [lastIndex] is not touched. *)
Definition test (r : RegExp) (s : string) : bool * RegExp :=
  if stateful r then
    if (String.length s <? lastIndex r)%nat then (false, set_lastIndex 0 r)
    else
      match exec_from r (lastIndex r) s with
      | Some e => (true, set_lastIndex e r)
      | None => (false, set_lastIndex 0 r)
      end
  else
    (match exec_from r 0 s with Some _ => true | None => false end, r).

(** [type SiteLike = string | string[] | RegExp] *)
Inductive SiteLike :=
| SiteString (s : string)
| SiteArray (l : list string)
| SiteRegExp (r : RegExp).

(** A WHATWG [URL], already parsed. The port is the empty string when
    it is the default of the scheme; [host] is the authority: the host
    name, and the port when there is one. *)
Record URL := mkURL {
  protocol : string;
  hostname : string;
  port : string;
  pathname : string;
  search : string
}.

Definition host (u : URL) : string :=
  if String.eqb (port u) "" then hostname u else hostname u +:+ ":" +:+ port u.

Definition href (u : URL) : string :=
  protocol u +:+ "//" +:+ host u +:+ pathname u +:+ search u.

(** A response body: absent, text, bytes, or a stream reading a file,
    whole or between two offsets. *)
Inductive Body :=
| BodyNone
| BodyText (s : string)
| BodyBuffer (b : string)
| BodyFile (file : string) (range : option (Z * Z)).

(** [ctx.loggers]: the colouring functions of the server. *)
Record Loggers := mkLoggers {
  info : string -> string;
  succ : string -> string;
  warn : string -> string;
  crit : string -> string
}.

(** What a request brings and no handler of the core changes;
    [upgradable] says that [ctx.upgrade] is a function. *)
Record Request := mkRequest {
  method : string;
  req_hostname : string;
  req_href : URL;
  headers : gmap string string;
  acceptsEncodings : list string -> option string;
  upgradable : bool;
  loggers : Loggers
}.

(** The context: the request, and what the handlers assign. [log] is
    the logging function or [false]; [ws] is the WebSocket flag. The
    assignments to [ctx.status] and [ctx.body] are taken as plain
    assignments: what Koa's setters add to them is left out (the
    status 200 of a body assigned when no status was, the length and
    type headers of a body, the length header taken off when a body
    replaces another, the body dropped by the statuses 204, 205 and
    304). The response headers are kept under the names the code
    writes, where the response itself finds a header whatever the case
    of its name. A property that depends on one of these says so in
    its hypotheses. *)
Record Ctx := mkCtx {
  req : Request;
  path : string;
  status : Z;
  body : Body;
  resHeaders : gmap string string;
  log : bool;
  logs : list (string * string);
  handler : option string;
  site : option SiteLike;
  error : option Js.Thrown;
  bytes : Z;
  ws : bool
}.

Definition set_path (v : string) (c : Ctx) : Ctx :=
  mkCtx (req c) v (status c) (body c) (resHeaders c) (log c) (logs c)
        (handler c) (site c) (error c) (bytes c) (ws c).

Definition set_status (v : Z) (c : Ctx) : Ctx :=
  mkCtx (req c) (path c) v (body c) (resHeaders c) (log c) (logs c)
        (handler c) (site c) (error c) (bytes c) (ws c).

Definition set_body (v : Body) (c : Ctx) : Ctx :=
  mkCtx (req c) (path c) (status c) v (resHeaders c) (log c) (logs c)
        (handler c) (site c) (error c) (bytes c) (ws c).

Definition set_resHeaders (v : gmap string string) (c : Ctx) : Ctx :=
  mkCtx (req c) (path c) (status c) (body c) v (log c) (logs c)
        (handler c) (site c) (error c) (bytes c) (ws c).

Definition set_log (v : bool) (c : Ctx) : Ctx :=
  mkCtx (req c) (path c) (status c) (body c) (resHeaders c) v (logs c)
        (handler c) (site c) (error c) (bytes c) (ws c).

Definition set_logs (v : list (string * string)) (c : Ctx) : Ctx :=
  mkCtx (req c) (path c) (status c) (body c) (resHeaders c) (log c) v
        (handler c) (site c) (error c) (bytes c) (ws c).

Definition set_handler (v : string) (c : Ctx) : Ctx :=
  mkCtx (req c) (path c) (status c) (body c) (resHeaders c) (log c) (logs c)
        (Some v) (site c) (error c) (bytes c) (ws c).

Definition set_site (v : SiteLike) (c : Ctx) : Ctx :=
  mkCtx (req c) (path c) (status c) (body c) (resHeaders c) (log c) (logs c)
        (handler c) (Some v) (error c) (bytes c) (ws c).

Definition set_error (v : Js.Thrown) (c : Ctx) : Ctx :=
  mkCtx (req c) (path c) (status c) (body c) (resHeaders c) (log c) (logs c)
        (handler c) (site c) (Some v) (bytes c) (ws c).

Definition set_bytes (v : Z) (c : Ctx) : Ctx :=
  mkCtx (req c) (path c) (status c) (body c) (resHeaders c) (log c) (logs c)
        (handler c) (site c) (error c) v (ws c).

Definition set_ws (v : bool) (c : Ctx) : Ctx :=
  mkCtx (req c) (path c) (status c) (body c) (resHeaders c) (log c) (logs c)
        (handler c) (site c) (error c) (bytes c) v.

(** [ctx.set(name, value)] and [ctx.res.removeHeader(name)]; the names
    are written as the code writes them. *)
Definition set (k v : string) (c : Ctx) : Ctx :=
  set_resHeaders (<[k := v]> (resHeaders c)) c.

Definition removeHeader (k : string) (c : Ctx) : Ctx :=
  set_resHeaders (delete k (resHeaders c)) c.

(** [ctx.response.get(name)], the empty string when unset *)
Definition get (k : string) (c : Ctx) : string :=
  default "" (resHeaders c !! k).

(** [ctx.log(name, ...messages)]: one more entry in [ctx.logs]. The
    callers test [ctx.log] first. *)
Definition do_log (name msg : string) (c : Ctx) : Ctx :=
  set_logs (logs c ++ [(name, msg)]) c.

(** How a call ends. *)
Inductive Outcome :=
| Returned
| Threw (t : Js.Thrown).

Section Middleware.
Context {C : Type}.

(** A middleware body: it returns, throws, changes the context, reads
    it, or awaits its continuation [next()] and goes on with what that
    call did (so a [try]/[catch] around [next()] is a continuation
    that looks at the outcome). The variables of the code around it,
    the composer's [index] among them, are out of its reach. *)
Inductive Mw : Type :=
| Ret
| Throw (t : Js.Thrown)
| Act (f : C -> C) (k : Mw)
| Read (k : C -> Mw)
| Next (k : Outcome -> Mw).

(** [await next()] outside any [try]: an exception propagates. *)
Definition AwaitNext (k : Mw) : Mw :=
  Next (fun o => match o with Returned => k | Threw t => Throw t end).

(** The state a middleware runs in is the context together with
    whatever the code around it keeps ([X]); a continuation is a call
    on that state. *)
Definition Cont (X : Type) : Type := X * C -> Outcome * (X * C).

Fixpoint run {X : Type} (p : Mw) (next : Cont X) (s : X * C)
  : Outcome * (X * C) :=
  match p with
  | Ret => (Returned, s)
  | Throw t => (Threw t, s)
  | Act f k => run k next (s.1, f s.2)
  | Read k => run (k s.2) next s
  | Next k => let '(o, s') := next s in run (k o) next s'
  end.

End Middleware.

Arguments Mw : clear implicits.
Arguments Cont : clear implicits.

End Koa.

(** ** [Util]: small helpers and the chain composer *)

Module Util.
Import Koa.

(** [Util.strArray] *)
Definition strArray (str : string) : SiteLike :=
  if Js.includes "," str then SiteArray (Js.split "," str)
  else SiteString str.

(** [Util.filter]: the entries whose key passes the predicate (the
    object itself is never [undefined] here). *)
Definition filter {T : Type} (obj : gmap string T) (predicate : string -> bool)
  : gmap string T :=
  base.filter (fun kv => predicate kv.1 = true) obj.

(** [Util.filterReverse] *)
Definition filterReverse {T : Type} (obj : gmap string T) (predicate : string -> bool)
  : gmap string T :=
  filter obj (fun x => negb (predicate x)).

(** The pattern of [Util.isIP]: between the anchors, three times a
    number and a dot, and a number; a number is one of [[0-9]],
    [[1-9][0-9]], [1[0-9]{2}], [2[0-4][0-9]] and [25[0-5]]. *)
Definition octet : Rx.t :=
  let d := Rx.Chr (Rx.range "0" "9") in
  Rx.alt d
    [Rx.cat [Rx.Chr (Rx.range "1" "9"); d];
     Rx.cat [Rx.lit "1"; d; d];
     Rx.cat [Rx.lit "2"; Rx.Chr (Rx.range "0" "4"); d];
     Rx.cat [Rx.lit "2"; Rx.lit "5"; Rx.Chr (Rx.range "0" "5")]].

Definition isIP_re : Rx.t :=
  let part := Rx.Cat octet (Rx.lit ".") in
  Rx.cat [Rx.Bol; part; part; part; octet; Rx.Eol].

(** [Util.isIP] *)
Definition isIP (str : string) : bool := Rx.test isIP_re str.

Section Compose.
Context {C X : Type}.

(** The variables of one call of the composed middleware: [index] is
    the closure variable of the source; [entered] (the frames whose
    middleware was invoked, latest first) and [outer_calls] (how often
    the outer [next] was invoked) are kept beside it to state what the
    call did. *)
Record Frame := mkFrame {
  index : Z;
  entered : list Z;
  outer_calls : nat
}.

Definition multiple_calls : Js.Thrown :=
  Js.newError "next() called multiple times".

(** The outer [next] cannot see the frame. *)
Definition lift_outer (outer : Cont C X) : Cont C (Frame * X) :=
  fun s =>
    let '(o, (x, c)) := outer (s.1.2, s.2) in
    (o, ((mkFrame (index s.1.1) (entered s.1.1) (S (outer_calls s.1.1)), x), c)).

(** [dispatch(i)], with the middlewares from position [i] on as
    [rest]: [middlewares[i]] is the head of [rest], and [rest] is
    empty exactly when [i === middlewares.length]. The continuation
    handed to the middleware is [dispatch.bind(null, i + 1)]. *)
Fixpoint dispatch (rest : list (Mw C)) (outer : Cont C X) (i : Z)
    (s : (Frame * X) * C) : Outcome * ((Frame * X) * C) :=
  let fr := s.1.1 in
  if (i <=? index fr)%Z then (Threw multiple_calls, s)
  else
    match rest with
    | route :: rest' =>
        run route (dispatch rest' outer (i + 1)%Z)
            ((mkFrame i (i :: entered fr) (outer_calls fr), s.1.2), s.2)
    | [] =>
        lift_outer outer ((mkFrame i (entered fr) (outer_calls fr), s.1.2), s.2)
    end.

(** One call of the composed middleware: a new [index = -1], then
    [dispatch(0)]. *)
Definition compose_frame (middlewares : list (Mw C)) (next : Cont C X)
    (s : X * C) : Outcome * ((Frame * X) * C) :=
  dispatch middlewares next 0%Z ((mkFrame (-1)%Z [] 0, s.1), s.2).

(** [Util.compose] *)
Definition compose (middlewares : list (Mw C)) : Cont C X -> Cont C X :=
  fun next s =>
    let '(o, ((_, x), c)) := compose_frame middlewares next s in
    (o, (x, c)).

End Compose.

End Util.

(** ** [PathRouter]: the routes of one site *)

Module PathRouter.
Import Koa.

(** How a layer was registered: [router.all], [router.get],
    [router.post], or [router.use] without a path. *)
Inductive Verb := All | Get | Post | Wild.

(** What a layer runs: a middleware, or the composition of the stack
    kept under a path ([Util.compose(stack)] closes over the stack
    array, which [addModule] goes on filling). *)
Inductive Handler :=
| Plain (mw : Mw Ctx)
| Composed (path : string).

Record Layer := mkLayer {
  verb : Verb;
  pattern : string;
  handler : Handler
}.

Record t := mk {
  site : SiteLike;
  router : list Layer;
  stacks : list (string * list (Mw Ctx))
}.

Definition new (site : SiteLike) : t := mk site [] [].

Definition register (l : Layer) (pr : t) : t :=
  mk (site pr) (router pr ++ [l]) (stacks pr).

Definition use (path : string) (middleware : Mw Ctx) (pr : t) : t :=
  register (mkLayer All path (Plain middleware)) pr.

Definition useWild (middleware : Mw Ctx) (pr : t) : t :=
  register (mkLayer Wild "" (Plain middleware)) pr.

Definition get (path : string) (middleware : Mw Ctx) (pr : t) : t :=
  register (mkLayer Get path (Plain middleware)) pr.

Definition post (path : string) (middleware : Mw Ctx) (pr : t) : t :=
  register (mkLayer Post path (Plain middleware)) pr.

Fixpoint lookup_stack (path : string) (l : list (string * list (Mw Ctx)))
  : option (list (Mw Ctx)) :=
  match l with
  | [] => None
  | (p, st) :: rest => if String.eqb p path then Some st else lookup_stack path rest
  end.

Fixpoint push_stack (path : string) (m : Mw Ctx)
    (l : list (string * list (Mw Ctx))) : list (string * list (Mw Ctx)) :=
  match l with
  | [] => []
  | (p, st) :: rest =>
      if String.eqb p path then (p, st ++ [m]) :: rest
      else (p, st) :: push_stack path m rest
  end.

(** [getStack]: the stack of a path, installed as one composed
    middleware the first time the path is seen. *)
Definition getStack (path : string) (pr : t) : t :=
  match lookup_stack path (stacks pr) with
  | Some _ => pr
  | None =>
      mk (site pr) (router pr ++ [mkLayer All path (Composed path)])
         (stacks pr ++ [(path, [])])
  end.

(** [addModule], given what [Util.getModule] produced for the name:
    an exception, nothing, or a middleware. What a module registers on
    the router through its execution context while it is loaded, as
    the chat application does, is not part of this. *)
Definition addModule (path : string) (module : Js.Thrown + option (Mw Ctx)) (pr : t)
  : Outcome * t :=
  let pr := getStack path pr in
  match module with
  | inl e => (Threw e, pr)
  | inr None => (Returned, pr)
  | inr (Some m) => (Returned, mk (site pr) (router pr) (push_stack path m (stacks pr)))
  end.

(** [addRoute], given what [Util.getModule] produced for each handler
    of the route configuration, in the order of its keys. *)
Fixpoint addRoute (path : string) (modules : list (Js.Thrown + option (Mw Ctx)))
    (pr : t) : Outcome * t :=
  match modules with
  | [] => (Returned, pr)
  | module :: rest =>
      match addModule path module pr with
      | (Returned, pr) => addRoute path rest pr
      | (Threw e, pr) => (Threw e, pr)
      end
  end.

(** The middleware installed by [addRewrite]. *)
Definition rewrite (src dest : string) : Mw Ctx :=
  Act (fun ctx => set_path (Path.normalize (Js.replace src dest (path ctx))) ctx)
    (Read (fun ctx =>
       if log ctx then
         Act (do_log (succ (loggers (req ctx)) "Rewritten")
                     ("to=" +:+ info (loggers (req ctx)) (path ctx)))
           (AwaitNext Ret)
       else AwaitNext Ret)).

Definition addRewrite (path src dest : string) (pr : t) : t :=
  use path (rewrite src dest) pr.

(** The middleware installed by [addRedirect]. Of [ctx.redirect(dest)]
    the [Location] header is kept, the body it writes is left out. *)
Definition redirect (dest : string) (code : option Z) : Mw Ctx :=
  Read (fun ctx =>
    (if log ctx then
       Act (do_log (succ (loggers (req ctx)) "Redirected")
                   ("to=" +:+ info (loggers (req ctx)) dest +:+ " code="
                    +:+ match code with Some n => pretty n | None => "undefined" end))
     else fun k => k)
      (Act (set_handler "MizukiRedirecter")
        (Act (Koa.set "Location" dest)
          (Act (set_status (match code with
                            | Some n => if (n =? 0)%Z then 301%Z else n
                            | None => 301%Z
                            end))
            Ret)))).

Definition addRedirect (src dest : string) (code : option Z) (pr : t) : t :=
  use src (redirect dest code) pr.

Section Process.
Context {X : Type}.

(** koa-router's dispatcher, [router.routes()]: from the layers, each
    with what it runs, the middleware that serves a request. *)
Variable routes :
  list (Verb * string * (Cont Ctx X -> Cont Ctx X)) -> Cont Ctx X -> Cont Ctx X.

Definition layer_middleware (pr : t) (l : Layer) : Cont Ctx X -> Cont Ctx X :=
  match handler l with
  | Plain mw => run mw
  | Composed p => Util.compose (default [] (lookup_stack p (stacks pr)))
  end.

(** [PathRouter.process] *)
Definition process (pr : t) : Cont Ctx X -> Cont Ctx X :=
  routes (map (fun l => (verb l, pattern l, layer_middleware pr l)) (router pr)).

End Process.

End PathRouter.

(** ** [ExecutionContext]: the mount helper *)

Module ExecutionContext.
Import Koa.

(** The base of an execution context ends with a slash. *)
Definition base_of (base : string) : string :=
  match Js.last_char base with
  | Some "/"%char => base
  | _ => base +:+ "/"
  end.

(** [mount(middleware)]: the base is taken off the path on the way in,
    and the path is put back before the rest of the stack runs. *)
Definition mount {X : Type} (base : string) (middleware : Mw Ctx)
  : Cont Ctx X -> Cont Ctx X :=
  fun next s =>
    let original := path s.2 in
    run middleware (fun s' => next (s'.1, set_path original s'.2))
        (s.1, set_path (Js.replace base "/" (path s.2)) s.2).

(** The pattern of [resolveReqPath]: a slash at the start, or any
    number of groups of a slash and letters or digits, up to the
    end. *)
Definition alnum (a : ascii) : bool :=
  Rx.range "0" "9" a || Rx.range "a" "z" a || Rx.range "A" "Z" a.

Definition req_path_re : Rx.t :=
  Rx.Alt (Rx.Cat Rx.Bol (Rx.lit "/"))
         (Rx.Cat (Rx.Star (Rx.Cat (Rx.lit "/") (Rx.Star (Rx.Chr alnum)))) Rx.Eol).

(** [resolveReqPath] of a context with this base *)
Definition resolveReqPath (base path : string) : Js.Thrown + string :=
  if negb (Rx.test req_path_re path) then
    inl (Js.newError "This module does not accept regular expression path.")
  else inr (Path.join base path).

(** [resolveFsPath] of a context with this directory *)
Definition resolveFsPath (dirname path : string) : string := Path.join dirname path.

End ExecutionContext.

(** ** [SiteRouter]: routing by host name *)

Module SiteRouter.
Import Koa.

(** The [sites] map, in insertion order. *)
Record t := mk { sites : list (SiteLike * PathRouter.t) }.

Definition new : t := mk [].

(** Key equality of the map (SameValueZero): strings by value; an
    array or a [RegExp] only equals itself, and every key of these
    kinds handed to the router is a newly built object. *)
Definition same_key (a b : SiteLike) : bool :=
  match a, b with
  | SiteString x, SiteString y => String.eqb x y
  | _, _ => false
  end.

Fixpoint map_get (site : SiteLike) (l : list (SiteLike * PathRouter.t))
  : option PathRouter.t :=
  match l with
  | [] => None
  | (k, v) :: rest => if same_key k site then Some v else map_get site rest
  end.

(** [Map.set]: a known key keeps its place. *)
Fixpoint map_set (site : SiteLike) (pr : PathRouter.t)
    (l : list (SiteLike * PathRouter.t)) : list (SiteLike * PathRouter.t) :=
  match l with
  | [] => [(site, pr)]
  | (k, v) :: rest =>
      if same_key k site then (k, pr) :: rest else (k, v) :: map_set site pr rest
  end.

Definition use (site : SiteLike) (pathRouter : PathRouter.t) (sr : t) : t :=
  mk (map_set site pathRouter (sites sr)).

(** [get]: the registered path router, or a new one, registered. *)
Definition get (site : SiteLike) (sr : t) : PathRouter.t * t :=
  match map_get site (sites sr) with
  | Some pathRouter => (pathRouter, sr)
  | None =>
      let pathRouter := PathRouter.new site in
      (pathRouter, use site pathRouter sr)
  end.

Definition delete (site : SiteLike) (sr : t) : t :=
  mk (List.filter (fun kv => negb (same_key kv.1 site)) (sites sr)).

(** [SiteRouter.match]: the answer *)
Definition match_ (pattern : SiteLike) (hostname : string) : bool :=
  match pattern with
  | SiteString s => if String.eqb s "*" then true else String.eqb s hostname
  | SiteArray l => existsb (String.eqb hostname) l
  | SiteRegExp r => (test r hostname).1
  end.

(** The pattern as [SiteRouter.match] leaves it: a regular expression
    is an object of the map, and [test] may have moved its
    [lastIndex]. *)
Definition matched (pattern : SiteLike) (hostname : string) : SiteLike :=
  match pattern with
  | SiteRegExp r => SiteRegExp (test r hostname).2
  | _ => pattern
  end.

Section Process.
Context {X : Type}.
Variable routes :
  list (PathRouter.Verb * string * (Cont Ctx X -> Cont Ctx X)) ->
  Cont Ctx X -> Cont Ctx X.

(** [url.domainToUnicode] *)
Variable domainToUnicode : string -> string.

(** The loop of [SiteRouter.process] over the entries still to be
    looked at: how the request ends, and the entries as the loop
    leaves them. *)
Fixpoint process_from (entries : list (SiteLike * PathRouter.t))
    (next : Cont Ctx X) (s : X * Ctx)
  : (Outcome * (X * Ctx)) * list (SiteLike * PathRouter.t) :=
  match entries with
  | [] => (next s, [])
  | (site, pathRouter) :: rest =>
      let hostname := domainToUnicode (req_hostname (req s.2)) in
      let answer := match_ site hostname in
      let site := matched site hostname in
      if answer then
        (PathRouter.process routes pathRouter next (s.1, set_site site s.2),
         (site, pathRouter) :: rest)
      else
        let '(o, rest) := process_from rest next s in
        (o, (site, pathRouter) :: rest)
  end.

(** [SiteRouter.process]: how the request ends, and the site router
    afterwards. *)
Definition process (sr : t) (next : Cont Ctx X) (s : X * Ctx)
  : (Outcome * (X * Ctx)) * t :=
  let '(o, entries) := process_from (sites sr) next s in
  (o, mk entries).

End Process.

End SiteRouter.

(** ** [Router]: binding the configuration *)

Module Router.
Import Koa.

(** The pattern of a regular expression literal: from the start a
    slash, a group of any characters, a slash, a second group and the
    end; the first group, being greedy, runs to the last slash. *)
Definition regex_literal : Js.Re :=
  Js.seq [Js.ReChar "/"; Js.ReGroup (Js.ReStar true Js.is_dot);
          Js.ReChar "/"; Js.ReGroup (Js.ReStar true Js.is_dot); Js.ReEnd].

Section Binder.

(** The configuration of one site, [Router.Site]. *)
Variable SiteConf : Type.

(** [new RegExp(source, flags)], which throws on a bad pattern. *)
Variable newRegExp : string -> string -> Js.Thrown + RegExp.

(** The loop of [parseSiteConfig] over the paths of a site: it
    installs rewrites, redirects and handler modules on the path
    router it is given, counts and logs them, and may throw (an
    unknown handler); the map of sites is not in its reach. *)
Variable installRoutes : SiteLike -> SiteConf -> PathRouter.t -> Outcome * PathRouter.t.

(** The head of [parseSiteConfig]: a string that starts with a slash
    is read as a regular expression literal. *)
Definition resolveSite (site : SiteLike) : Js.Thrown + SiteLike :=
  match site with
  | SiteString s =>
      if Js.startsWith "/" s then
        match Js.exec true regex_literal s with
        | Some [source; flags] =>
            if String.eqb source "" then
              inl (Js.newError "Invalid regular expression path.")
            else
              match newRegExp source flags with
              | inl e => inl e
              | inr r => inr (SiteRegExp r)
              end
        | _ => inl (Js.newError "Invalid regular expression path.")
        end
      else inr site
  | _ => inr site
  end.

(** Where [SiteRouter.get] finds or puts the path router of a key. The
    path router is an object the map refers to, so what is installed
    on it afterwards is seen through the map: [write_back] puts the
    path router, as the loop left it, at that place. *)
Fixpoint position (site : SiteLike) (l : list (SiteLike * PathRouter.t)) : nat :=
  match l with
  | [] => 0
  | (k, _) :: rest => if SiteRouter.same_key k site then 0 else S (position site rest)
  end.

Definition write_back (i : nat) (pr : PathRouter.t) (sr : SiteRouter.t)
  : SiteRouter.t :=
  SiteRouter.mk (alter (fun kv => (kv.1, pr)) i (SiteRouter.sites sr)).

(** [parseSiteConfig] *)
Definition parseSiteConfig (site : SiteLike) (sconf : SiteConf) (sr : SiteRouter.t)
  : Outcome * SiteRouter.t :=
  match resolveSite site with
  | inl e => (Threw e, sr)
  | inr site =>
      let i := position site (SiteRouter.sites sr) in
      let '(router, sr) := SiteRouter.get site sr in
      let '(o, router) := installRoutes site sconf router in
      (o, write_back i router sr)
  end.

(** The loop of [Router.use] over the entries of [routes]; an entry
    without a site configuration is skipped. *)
Fixpoint use (routes : list (string * option SiteConf)) (sr : SiteRouter.t)
  : Outcome * SiteRouter.t :=
  match routes with
  | [] => (Returned, sr)
  | (originalSite, sconf) :: rest =>
      let site := Util.strArray originalSite in
      match sconf with
      | None => use rest sr
      | Some sconf =>
          match parseSiteConfig site sconf sr with
          | (Returned, sr) => use rest sr
          | (Threw e, sr) => (Threw e, sr)
          end
      end
  end.

End Binder.

(** *** The routes of a site *)

(** The keys of a site configuration that are routes: a slash at the
    start, or a caret and a slash anywhere. *)
Definition route_key_re : Rx.t :=
  Rx.Alt (Rx.Cat Rx.Bol (Rx.lit "/")) (Rx.Cat (Rx.lit "^") (Rx.lit "/")).

(** The counter and the messages of the overview. *)
Record t := mk {
  counter : Z;
  msg : list string
}.

Definition count (r : t) : t := mk (counter r + 1) (msg r).

Definition log (m : string) (r : t) : t := mk (counter r) (msg r ++ [m]).

(** The site as the messages show it: the text, or '(UNKNOWN)' for the
    empty text; the host names of a list with commas between them; the
    [source] and [flags] of an expression between slashes. *)
Definition site_text (site : SiteLike) : string :=
  match site with
  | SiteString s => if String.eqb s "" then "(UNKNOWN)" else s
  | SiteArray l => Js.join "," l
  | SiteRegExp r => "/" +:+ source r +:+ "/" +:+ flags r
  end.

(** The path a key is registered under: a key that starts with a
    caret stands for everything under the path after the caret. *)
Definition pattern_of (key : string) : string :=
  if Js.startsWith "^" key then Js.substring_from 1 key +:+ "(.*)" else key.

Section Routes.

(** What a handler is configured with, [args: any]. *)
Variable Args : Type.

(** One entry of the configuration of a route, [Router.Path]: the
    rewrites, the redirect, its code, or a handler with what it is
    configured with ([None] is [null]). A handler has another name
    than [rewrite], [redirect] and [code], which are the three entries
    before it. *)
Inductive Entry :=
| Rewrite (rules : list (string * string))
| Redirect (dest : string)
| Code (code : Z)
| Handler (name : string) (args : option Args).

(** The configuration of a route: [null]; [false] or [0]; the name of
    a handler; or an object, with its entries in the order of
    [Object.entries]. *)
Inductive Route :=
| RouteNull
| RouteFalse
| RouteText (name : string)
| RouteObject (entries : list Entry).

(** What the module of a handler is called with. *)
Inductive Setting :=
| SNull
| SRules (rules : list (string * string))
| SText (s : string)
| SNumber (n : Z)
| SArgs (a : Args).

Definition key_of (e : Entry) : string :=
  match e with
  | Rewrite _ => "rewrite"
  | Redirect _ => "redirect"
  | Code _ => "code"
  | Handler name _ => name
  end.

Definition setting_of (e : Entry) : Setting :=
  match e with
  | Rewrite rules => SRules rules
  | Redirect dest => SText dest
  | Code code => SNumber code
  | Handler _ (Some a) => SArgs a
  | Handler _ None => SNull
  end.

(** [rconf.rewrite], [rconf.redirect] and [rconf.code] *)
Fixpoint rewrite_of (entries : list Entry) : option (list (string * string)) :=
  match entries with
  | [] => None
  | Rewrite rules :: _ => Some rules
  | _ :: rest => rewrite_of rest
  end.

Fixpoint redirect_of (entries : list Entry) : option string :=
  match entries with
  | [] => None
  | Redirect dest :: _ => Some dest
  | _ :: rest => redirect_of rest
  end.

Fixpoint code_of (entries : list Entry) : option Z :=
  match entries with
  | [] => None
  | Code code :: _ => Some code
  | _ :: rest => code_of rest
  end.

(** [delete rconf.rewrite] *)
Definition delete_rewrite (entries : list Entry) : list Entry :=
  List.filter (fun e => match e with Rewrite _ => false | _ => true end) entries.

(** The loggers of the router. *)
Variable loggers : Loggers.

(** [Util.getModule] for a path, a name and a setting: the exception of
    a module that is not there or that fails, nothing, or the
    middleware of the module. A module that registers routes of its own
    while it is loaded is not covered. *)
Variable getModule : string -> string -> Setting -> Js.Thrown + option (Mw Ctx).

(** The loop over [rconf.rewrite]. *)
Definition addRewrites (site : SiteLike) (path : string) (rules : list (string * string))
    (st : t * PathRouter.t) : t * PathRouter.t :=
  fold_left
    (fun st rule =>
       (count (log ("    " +:+ site_text site +:+ ": (REWRITE) "
                    +:+ info loggers rule.1 +:+ " -> " +:+ succ loggers rule.2) st.1),
        PathRouter.addRewrite path rule.1 rule.2 st.2))
    rules st.

(** The end of the body of the loop: the route of an object without a
    redirect. *)
Definition addHandlers (site : SiteLike) (path : string) (entries : list Entry)
    (st : t * PathRouter.t) : Outcome * (t * PathRouter.t) :=
  let r := count (log ("    " +:+ site_text site +:+ ": " +:+ info loggers path +:+ " -> "
                       +:+ succ loggers (Js.join "," (map key_of entries))) st.1) in
  let '(o, pr) :=
    PathRouter.addRoute path
      (map (fun e => getModule path (key_of e) (setting_of e)) entries) st.2 in
  (o, (r, pr)).

(** The body of the loop of [parseSiteConfig] for one key; the flag
    tells whether the loop goes on. *)
Definition parseRoute (site : SiteLike) (key : string) (rconf : Route)
    (st : t * PathRouter.t) : Outcome * bool * (t * PathRouter.t) :=
  let path := pattern_of key in
  match rconf with
  | RouteNull =>
      (Threw (Js.newTypeError "Cannot read properties of null (reading 'rewrite')"),
       false, st)
  | RouteFalse =>
      (Returned, false,
       (count (log ("    " +:+ site_text site +:+ ": " +:+ info loggers path +:+ " -> "
                    +:+ warn loggers "UNHANDLED") st.1), st.2))
  | RouteText name =>
      let '(o, st) := addHandlers site path [Handler name None] st in
      (o, true, st)
  | RouteObject entries =>
      let '(entries, st) :=
        match rewrite_of entries with
        | Some [] => (entries, st)
        | Some rules => (delete_rewrite entries, addRewrites site path rules st)
        | None => (entries, st)
        end in
      let redirect := match redirect_of entries with
                      | Some dest => if String.eqb dest "" then None else Some dest
                      | None => None
                      end in
      match redirect with
      | Some dest =>
          (Returned, true,
           (count (log ("    " +:+ site_text site +:+ ": (REDIRECT) "
                        +:+ info loggers path +:+ " -> " +:+ succ loggers dest) st.1),
            PathRouter.addRedirect path dest (code_of entries) st.2))
      | None =>
          let '(o, st) := addHandlers site path entries st in
          (o, true, st)
      end
  end.

(** The loop over the routes. *)
Fixpoint parseRoutes (site : SiteLike) (routes : list (string * Route))
    (st : t * PathRouter.t) : Outcome * (t * PathRouter.t) :=
  match routes with
  | [] => (Returned, st)
  | (key, rconf) :: rest =>
      match parseRoute site key rconf st with
      | (Returned, true, st) => parseRoutes site rest st
      | (o, _, st) => (o, st)
      end
  end.

(** [parseSiteConfig] from the filter on: the routes of the site
    configuration, in its order, on the path router of the site. *)
Definition installRoutes (site : SiteLike) (sconf : list (string * Route))
    (st : t * PathRouter.t) : Outcome * (t * PathRouter.t) :=
  parseRoutes site (List.filter (fun kv => Rx.test route_key_re kv.1) sconf) st.

End Routes.

End Router.

(** ** The reverse proxy *)

Module Proxy.
Import Koa.

(** [ProxyOptions], with the upstream URL, [new URL(conf.upstream)],
    already parsed. *)
Record ProxyOptions := mkOptions {
  upstream : URL;
  nolog : bool;
  timeout : option Z;
  websocket : bool;
  reqHeadersFilter : option (list string);
  resHeadersFilter : option (list string)
}.

(** What the upstream answers. *)
Record Response := mkResponse {
  statusCode : option Z;
  res_headers : gmap string string;
  res_body : string
}.

(** What goes to [http.request] or [https.request]. *)
Record RequestOptions := mkRequestOptions {
  opt_headers : option (gmap string string);
  opt_method : string;
  opt_timeout : Z
}.

Inductive Scheme := Http | Https.

(** The request as the transport receives it. *)
Record Sent := mkSent {
  sent_scheme : Scheme;
  sent_url : URL;
  sent_headers : gmap string string;
  sent_method : string;
  sent_timeout : Z
}.

(** [{ host: url.hostname, ...options.headers }] *)
Definition request_headers (url : URL) (headers : option (gmap string string))
  : gmap string string :=
  match headers with
  | Some h => h ∪ {[ "host" := hostname url ]}
  | None => {[ "host" := hostname url ]}
  end.

(** What [request] hands to the transport, or the exception for a
    protocol that is neither HTTP nor HTTPS. *)
Definition prepare (url : URL) (options : RequestOptions) : Js.Thrown + Sent :=
  let headers := request_headers url (opt_headers options) in
  if String.eqb (protocol url) "http:" then
    inr (mkSent Http url headers (opt_method options) (opt_timeout options))
  else if String.eqb (protocol url) "https:" then
    inr (mkSent Https url headers (opt_method options) (opt_timeout options))
  else inl (Js.newError ("Invalid protocol " +:+ protocol url)).

(** Events on the two sockets of a WebSocket session, as the listeners
    of [wsforward] see them: [req] is the upstream socket, [usr] the
    client's, obtained from [upgrade()]. *)
Inductive WsEvent :=
| ReqError (e : Js.Thrown)
| ReqOpen
| Upgraded
| UpgradeFailed (e : Js.Thrown)
| ReqClose
| UsrClose
| UsrError (e : Js.Thrown)
| ReqMessage (byteLength : Z)
| UsrMessage (byteLength : Z).

(** Which listeners are installed: before the upstream socket is
    open, while [upgrade()] is pending, and once the two sockets
    forward to each other. *)
Inductive WsPhase := Connecting | Upgrading | Bridged.

(** The promise of [wsforward]: settled once. *)
Inductive Promise :=
| Pending
| Resolved (bytes : Z)
| Rejected (e : Js.Thrown).

Record WsState := mkWs {
  phase : WsPhase;
  promise : Promise;
  stat_bytes : Z;
  req_closed : bool;
  usr_closed : bool
}.

Definition settle (p : Promise) (s : WsState) : WsState :=
  mkWs (phase s) (match promise s with Pending => p | q => q end)
       (stat_bytes s) (req_closed s) (usr_closed s).

Definition close_req (s : WsState) : WsState :=
  mkWs (phase s) (promise s) (stat_bytes s) true (usr_closed s).

Definition close_usr (s : WsState) : WsState :=
  mkWs (phase s) (promise s) (stat_bytes s) (req_closed s) true.

Definition enter (ph : WsPhase) (s : WsState) : WsState :=
  mkWs ph (promise s) (stat_bytes s) (req_closed s) (usr_closed s).

Definition count (n : Z) (s : WsState) : WsState :=
  mkWs (phase s) (promise s) (stat_bytes s + n)%Z (req_closed s) (usr_closed s).

(** One event, handled by the listeners installed in the phase; an
    event nobody listens to changes nothing. *)
Definition ws_step (s : WsState) (ev : WsEvent) : WsState :=
  match phase s, ev with
  | Connecting, ReqError e => settle (Rejected e) s
  | Connecting, ReqOpen => enter Upgrading s
  | Upgrading, ReqError e => settle (Rejected e) s
  | Upgrading, Upgraded => enter Bridged s
  | Upgrading, UpgradeFailed e => close_req (settle (Rejected e) s)
  | Bridged, ReqError e => close_usr (settle (Rejected e) s)
  | Bridged, UsrError e => close_req (settle (Rejected e) s)
  | Bridged, ReqClose => close_usr (settle (Resolved (stat_bytes s)) s)
  | Bridged, UsrClose => close_req (settle (Resolved (stat_bytes s)) s)
  | Bridged, ReqMessage n => count n s
  | Bridged, UsrMessage n => count n s
  | _, _ => s
  end.

(** [await wsforward(...)]: the events are handled in turn until the
    promise settles; [None] when it never does. *)
Fixpoint ws_await (s : WsState) (events : list WsEvent) : option (Js.Thrown + Z) :=
  match promise s with
  | Resolved n => Some (inr n)
  | Rejected e => Some (inl e)
  | Pending =>
      match events with
      | [] => None
      | ev :: rest => ws_await (ws_step s ev) rest
      end
  end.

(** [wsforward], given the events of the session. *)
Definition wsforward (events : list WsEvent) : option (Js.Thrown + Z) :=
  ws_await (mkWs Connecting Pending 0 false false) events.

(** [{ 'http:': 'ws:', 'https:': 'wss:' }[url.protocol] || 'ws'], as
    the protocol reads once assigned. *)
Definition ws_protocol (p : string) : string :=
  if String.eqb p "http:" then "ws:"
  else if String.eqb p "https:" then "wss:" else "ws:".

(** The setters of a [URL]. A port that is the default of the scheme
    is kept as the empty string; [url.host = h] leaves the port alone
    when [h] names none. *)
Definition default_port (p : string) : string :=
  if String.eqb p "http:" || String.eqb p "ws:" then "80"
  else if String.eqb p "https:" || String.eqb p "wss:" then "443"
  else "".

Definition with_pathname (v : string) (u : URL) : URL :=
  mkURL (protocol u) (hostname u) (port u) v (search u).

Definition with_host (h : URL) (u : URL) : URL :=
  let p := if String.eqb (port h) "" then port u
           else if String.eqb (port h) (default_port (protocol u)) then ""
           else port h in
  mkURL (protocol u) (hostname h) p (pathname u) (search u).

(** [url.protocol = p], for a scheme the setter takes: from [http:] or
    [https:] these are the special schemes, and an assignment of any
    other scheme is ignored by the setter. *)
Definition with_protocol (p : string) (u : URL) : URL :=
  mkURL p (hostname u)
        (if String.eqb (port u) (default_port p) then "" else port u)
        (pathname u) (search u).

(** The URL the proxy builds from the request and the upstream:
    [new URL(ctx.href)], then the path, the host and the protocol are
    overwritten in this order. *)
Definition target (base : URL) (ctx : Ctx) : URL :=
  with_protocol (protocol base)
    (with_host base (with_pathname (path ctx) (req_href (req ctx)))).

(** The test of the request header filter. *)
Definition keep (filter : list string) (s : string) : bool :=
  negb (Js.startsWith ":" s) && negb (existsb (String.eqb s) filter).

Section Middleware.

(** The transport: what the upstream does with a request. *)
Variable transport : Sent -> Js.Thrown + Response.

(** What happens on the sockets once a WebSocket to the given URL is
    opened. *)
Variable sockets : URL -> list WsEvent.

(** [request]: the promise resolves with the response or rejects. *)
Definition request (url : URL) (options : RequestOptions) : Js.Thrown + Response :=
  match prepare url options with
  | inl e => inl e
  | inr sent => transport sent
  end.

(** The WebSocket branch; a session that never ends leaves the
    middleware waiting. The [catch] sets the body, the status and the
    error, logs, and hands over to [next]. *)
Definition proxy_ws (url : URL) : Mw Ctx :=
  Act (set_handler "ProxyWS")
    (let url := with_protocol (ws_protocol (protocol url)) url in
     match wsforward (sockets url) with
     | None => Ret
     | Some (inr bytes) =>
         Act (set_status 101)
           (Act (set_bytes bytes)
             (Read (fun ctx =>
                if log ctx then
                  Act (do_log (succ (loggers (req ctx)) "ProxiedWS")
                              ("to=" +:+ info (loggers (req ctx)) (href url))) Ret
                else Ret)))
     | Some (inl err) =>
         Act (set_body (BodyText ""))
           (Act (set_status 200)
             (Act (set_error err)
               (Read (fun ctx =>
                  (if log ctx then
                     Act (do_log (crit (loggers (req ctx)) "ProxyWS-Failed")
                                 ("to=" +:+ info (loggers (req ctx)) (href url)))
                   else fun k => k)
                    (AwaitNext Ret)))))
     end).

(** The HTTP branch. *)
Definition proxy_http (conf : ProxyOptions) (url : URL) : Mw Ctx :=
  let reqHeadersFilter := default ["host"] (reqHeadersFilter conf) in
  let resHeadersFilter :=
    default ["connection"; "transfer-encoding"] (resHeadersFilter conf) in
  Act (set_handler "Proxy")
    (Read (fun ctx =>
       let reqHeadersFiltered :=
         Util.filter (headers (req ctx)) (keep reqHeadersFilter) in
       match request url
               (mkRequestOptions (Some reqHeadersFiltered) (method (req ctx))
                  (match timeout conf with
                   | Some t => if (t =? 0)%Z then 3000%Z else t
                   | None => 3000%Z
                   end)) with
       | inl e => Throw e
       | inr res =>
           Act (set_body (BodyBuffer (res_body res)))
             (Act (set_status (match statusCode res with
                               | Some n => if (n =? 0)%Z then 503%Z else n
                               | None => 503%Z
                               end))
               (Act (fun ctx =>
                       set_resHeaders
                         (Util.filter (res_headers res) (keep resHeadersFilter)
                            ∪ resHeaders ctx) ctx)
                 (Read (fun ctx =>
                    (if log ctx then
                       Act (do_log (succ (loggers (req ctx)) "Proxied")
                                   ("to=" +:+ info (loggers (req ctx)) (href url)))
                     else fun k => k)
                      (AwaitNext Ret)))))
       end)).

(** [proxy(pconf)] *)
Definition proxy (conf : ProxyOptions) : Mw Ctx :=
  Read (fun ctx0 =>
    let url := target (upstream conf) ctx0 in
    (if nolog conf then Act (set_log false) else fun k => k)
      (Read (fun ctx =>
         if ws ctx && upgradable (req ctx) && websocket conf then proxy_ws url
         else proxy_http conf url))).

End Middleware.

End Proxy.

(** ** The static file handler *)

Module Static.
Import Koa.

Record Stats := mkStats {
  isDirectory : bool;
  size : Z;
  mtime : string
}.

(** The file system as the handler uses it: [fsa.access], [fsa.stat]
    and the bytes a read stream delivers. *)
Record FileSystem := mkFileSystem {
  access : string -> bool;
  stat : string -> Js.Thrown + Stats;
  content : string -> string
}.

(** [send.SendOptions]: [maxage] is [opts.maxage || opts.maxAge || 0];
    [gzip], [brotli] and [format] hold unless the option is [false];
    an absent or empty [root] or [index] is [None]. The hook acts on
    the response headers. *)
Record SendOptions := mkSendOptions {
  absolute : bool;
  maxage : Z;
  immutable : bool;
  hidden : bool;
  root : option string;
  index : option string;
  gzip : bool;
  brotli : bool;
  format : bool;
  setHeaders : option (string -> Stats -> gmap string string -> gmap string string);
  extensions : option (list string)
}.

Record SendResult := mkSendResult {
  ok : bool;
  result_path : option string;
  result_isDirectory : bool
}.

(** [path.basename]: the last segment, trailing slashes aside. *)
Definition basename (p : string) : string :=
  List.last (List.filter (fun seg => negb (String.eqb seg "")) (Js.split Path.sep p)) "".

(** [isHidden]: a dot-prefixed segment below the root. The loop of the
    source runs over [path.length] indices. *)
Definition isHidden (root path : string) : bool :=
  let pathParts := Js.split Path.sep (Js.substring_from (String.length root) path) in
  existsb (fun pathPart => Js.startsWith "." pathPart)
          (firstn (String.length path) pathParts).

(** [x | 0] *)
Definition toInt32 (x : Z) : Z :=
  ((x + 2147483648) mod 4294967296 - 2147483648)%Z.

Definition max_safe_integer : Z := 9007199254740991%Z.

(** [fs.createReadStream(path, { start, end })] checks its range when
    it is called: both ends are safe integers that are not negative,
    and the start is not beyond the end; otherwise it throws a
    [RangeError]. *)
Definition createReadStream (path : string) (range : option (Z * Z))
  : Js.Thrown + Body :=
  match range with
  | None => inr (BodyFile path None)
  | Some (start, end_) =>
      if ((0 <=? start) && (start <=? max_safe_integer)
          && (0 <=? end_) && (end_ <=? max_safe_integer)
          && (start <=? end_))%Z
      then inr (BodyFile path range)
      else inl (Js.newRangeError "The value of start or end is out of range")
  end.

(** The bytes a body delivers to the client. *)
Definition streamed (fs : FileSystem) (b : Body) : string :=
  match b with
  | BodyNone => ""
  | BodyText s => s
  | BodyBuffer s => s
  | BodyFile file None => content fs file
  | BodyFile file (Some (start, end_)) =>
      String.substring (Z.to_nat start) (Z.to_nat (end_ - start + 1)) (content fs file)
  end.

(** The two patterns of the range parser: an equals sign followed by a
    group of any characters up to the end; and, from the start, word
    characters (lazily), a group of digits, a dash, a group of digits
    and the end. *)
Definition range_value_re : Js.Re :=
  Js.seq [Js.ReChar "="; Js.ReGroup (Js.ReStar true Js.is_dot); Js.ReEnd].

Definition range_re : Js.Re :=
  Js.seq [Js.ReStar false Js.is_word; Js.ReGroup (Js.ReStar true Js.is_digit);
          Js.ReChar "-"; Js.ReGroup (Js.ReStar true Js.is_digit); Js.ReEnd].

(** Lines 176 to 187, the head of the [try] block: the two ends of
    the range, or the exception of [Util.throw]. *)
Definition parseRange (rangeHeader : string) (size : Z) : Js.Thrown + (Z * Z) :=
  match Js.exec false range_value_re rangeHeader with
  | Some [rangeValue] =>
      match Js.exec true range_re rangeValue with
      | Some [r1; r2] =>
          let start := if String.eqb r1 "" then None else Some (Js.parseInt r1) in
          let end_ := if String.eqb r2 "" then (size - 1)%Z else Js.parseInt r2 in
          match start with
          | Some start => inr (start, end_)
          | None => inr ((size - end_)%Z, (size - 1)%Z)
          end
      | _ => inl (Js.newError "cannot extract range")
      end
  | _ => inl (Js.newError "cannot extract rangeValue")
  end.

Section Send.

(** [decodeURIComponent], [None] when it throws. *)
Variable decodeURIComponent : string -> option string.

(** [path.resolve] of one path. *)
Variable resolve : string -> string.

(** The [resolve-path] package: the path resolved against the root, or
    the exception for a path it refuses. *)
Variable resolvePath : string -> string -> Js.Thrown + string.

(** [extname(file)] and [extname(basename(file, ext))] *)
Variable extname : string -> string.
Variable extname_without : string -> string -> string.

(** The media type Koa's [ctx.type] setter finds for an extension. *)
Variable mimeType : string -> option string.

Variable fs : FileSystem.

(** [type(file, ext)] *)
Definition type (file ext : string) : string :=
  if String.eqb ext "" then extname file else extname_without file ext.

(** Line 67: the root the path is checked against,
    [normalize(resolve(opts.root))], or the empty string. *)
Definition root_of (opts : SendOptions) : string :=
  match root opts with
  | Some r => Path.normalize (resolve r)
  | None => ""
  end.

(** Lines 68 to 93: the request path without its leading slashes,
    decoded, with the index appended to a directory path. *)
Definition requested (path : string) (opts : SendOptions) : Js.Thrown + string :=
  let trailingSlash :=
    match Js.last_char path with
    | Some c => Ascii.eqb c "/"
    | None => false
    end in
  let path := if Js.startsWith "/" path then Js.substring_from 1 path else path in
  let path := if Js.startsWith "/" path then Js.replace "/" "" path else path in
  match decodeURIComponent path with
  | None => inl (Js.httpError 400 "failed to decode path")
  | Some path =>
      inr (match index opts with
           | Some index => if trailingSlash then path +:+ index else path
           | None => path
           end)
  end.

(** Lines 62 to 99: from the request path to the path on disk, with
    the root it is checked against. *)
Definition locate (path : string) (opts : SendOptions) : Js.Thrown + (string * string) :=
  if String.eqb path "" then inl (Js.newError "pathname required")
  else
    match requested path opts with
    | inl e => inl e
    | inr path =>
        if negb (absolute opts) then
          match resolvePath (root_of opts) path with
          | inl e => inl e
          | inr path => inr (root_of opts, path)
          end
        else inr (root_of opts, "/" +:+ path)
    end.

(** Lines 104 to 116: the compressed variant, if any. The result is
    the path, the encoding suffix, the context and the paths looked
    at. *)
Definition negotiate (path : string) (opts : SendOptions) (ctx : Ctx)
  : string * string * Ctx * list string :=
  let wants_br :=
    match acceptsEncodings (req ctx) ["br"; "identity"] with
    | Some e => String.eqb e "br"
    | None => false
    end in
  let wants_gzip :=
    match acceptsEncodings (req ctx) ["gzip"; "identity"] with
    | Some e => String.eqb e "gzip"
    | None => false
    end in
  let seen_br := if wants_br && brotli opts then [path +:+ ".br"] else [] in
  if wants_br && brotli opts && access fs (path +:+ ".br") then
    (path +:+ ".br", ".br",
     removeHeader "Content-Length" (Koa.set "Content-Encoding" "br" ctx), seen_br)
  else
    let seen_gz := if wants_gzip && gzip opts then [path +:+ ".gz"] else [] in
    if wants_gzip && gzip opts && access fs (path +:+ ".gz") then
      (path +:+ ".gz", ".gz",
       removeHeader "Content-Length" (Koa.set "Content-Encoding" "gzip" ctx),
       seen_br ++ seen_gz)
    else (path, "", ctx, seen_br ++ seen_gz).

(** Lines 118 to 131: the first listed extension that exists. *)
Fixpoint first_extension (path : string) (exts : list string)
  : string * list string :=
  match exts with
  | [] => (path, [])
  | ext :: rest =>
      let ext := if Js.startsWith "." ext then ext else "." +:+ ext in
      if access fs (path +:+ ext) then (path +:+ ext, [path +:+ ext])
      else
        let '(p, seen) := first_extension path rest in
        (p, (path +:+ ext) :: seen)
  end.

Definition try_extensions (path : string) (opts : SendOptions)
  : string * list string :=
  match extensions opts with
  | Some exts =>
      if negb (Js.includes "." (basename path)) then first_extension path exts
      else (path, [])
  | None => (path, [])
  end.

(** The [catch] of lines 149 to 158. *)
Definition stat_error (err : Js.Thrown) : Js.Thrown :=
  match err with
  | Js.ErrorObj e =>
      match Js.code e with
      | Some c =>
          if negb (String.eqb c "")
             && existsb (String.eqb c) ["ENOENT"; "ENAMETOOLONG"; "ENOTDIR"]
          then Js.ErrorObj (Js.withStatus 404 e)
          else Js.ErrorObj (Js.withStatus 500 e)
      | None => Js.ErrorObj (Js.withStatus 500 e)
      end
  | Js.NonError _ => err
  end.

(** Lines 134 to 148: the file to serve with its stats, or the
    directory to list. *)
Inductive Located :=
| IsFile (path : string) (stats : Stats)
| IsDirectory (path : string).

Definition stat_path (path : string) (opts : SendOptions)
  : (Js.Thrown + Located) * list string :=
  match stat fs path with
  | inl err => (inl (stat_error err), [path])
  | inr stats =>
      if isDirectory stats then
        match (if format opts then index opts else None) with
        | Some index =>
            let path' := path +:+ "/" +:+ index in
            match stat fs path' with
            | inl err => (inl (stat_error err), [path; path'])
            | inr stats => (inr (IsFile path' stats), [path; path'])
            end
        | None => (inr (IsDirectory path), [path])
        end
      else (inr (IsFile path stats), [path])
  end.

(** Lines 160 to 173: the response headers. *)
Definition describe (path encodingExt : string) (stats : Stats)
    (opts : SendOptions) (ctx : Ctx) : Ctx :=
  let ctx := match setHeaders opts with
             | Some hook => set_resHeaders (hook path stats (resHeaders ctx)) ctx
             | None => ctx
             end in
  let ctx := Koa.set "Content-Length" (pretty (size stats)) ctx in
  let ctx := Koa.set "Accept-Ranges" "bytes" ctx in
  let ctx := if String.eqb (get "Last-Modified" ctx) ""
             then Koa.set "Last-Modified" (mtime stats) ctx else ctx in
  let ctx := if String.eqb (get "Cache-Control" ctx) ""
             then Koa.set "Cache-Control"
                    (Js.join ","
                       (("max-age=" +:+ pretty (toInt32 (Z.quot (maxage opts) 1000)))
                          :: (if immutable opts then ["immutable"] else [])))
                    ctx
             else ctx in
  if String.eqb (get "Content-Type" ctx) "" then
    match mimeType (type path encodingExt) with
    | Some t => Koa.set "Content-Type" t ctx
    | None => removeHeader "Content-Type" ctx
    end
  else ctx.

(** Lines 174 to 204: the body, whole or a range of it. What the [try]
    block did before an exception stays done, and the [catch] writes
    over it. An empty [Range] header counts as none. *)
Definition respond (path : string) (stats : Stats) (ctx : Ctx) : Ctx :=
  match headers (req ctx) !! "range" with
  | Some rangeHeader =>
      if String.eqb rangeHeader "" then
        set_body (BodyFile path None)
          (Koa.set "Content-Length" (pretty (size stats)) ctx)
      else
        let failed ctx :=
          set_body (BodyFile path None)
            (Koa.set "Content-Range" ("bytes */" +:+ pretty (size stats))
              (Koa.set "Content-Length" (pretty (size stats))
                (set_status 416 ctx))) in
        match parseRange rangeHeader (size stats) with
        | inl _ => failed ctx
        | inr (start, end_) =>
            let chunksize := (end_ - start + 1)%Z in
            let ctx := set_status 206 ctx in
            let ctx := Koa.set "Content-Length" (pretty chunksize) ctx in
            let ctx := Koa.set "Content-Range"
                         ("bytes " +:+ pretty start +:+ "-" +:+ pretty end_
                          +:+ "/" +:+ pretty (size stats)) ctx in
            match createReadStream path (Some (start, end_)) with
            | inr stream => set_body stream ctx
            | inl _ => failed ctx
            end
        end
  | None =>
      set_body (BodyFile path None)
        (Koa.set "Content-Length" (pretty (size stats)) ctx)
  end.

(** [send(ctx, path, opts)]: the result or the exception, the paths of
    the file system it looked at in order (the last one, when the
    result is [ok], is the file opened), and the context. *)
Definition send (path : string) (opts : SendOptions) (ctx : Ctx)
  : (Js.Thrown + SendResult) * list string * Ctx :=
  match locate path opts with
  | inl e => (inl e, [], ctx)
  | inr (root, path) =>
      if negb (hidden opts) && isHidden root path then
        (inr (mkSendResult false None false), [], ctx)
      else
        let '(path, encodingExt, ctx, seen1) := negotiate path opts ctx in
        let '(path, seen2) := try_extensions path opts in
        match stat_path path opts with
        | (inl e, seen3) => (inl e, seen1 ++ seen2 ++ seen3, ctx)
        | (inr (IsDirectory path), seen3) =>
            (inr (mkSendResult false (Some path) true), seen1 ++ seen2 ++ seen3, ctx)
        | (inr (IsFile path stats), seen3) =>
            let ctx := describe path encodingExt stats opts ctx in
            let ctx := respond path stats ctx in
            (inr (mkSendResult true (Some path) false),
             seen1 ++ seen2 ++ seen3 ++ [path], ctx)
        end
  end.

(** [serve.ServeOptions], with [options.root] already resolved. *)
Record ServeOptions := mkServeOptions {
  send_options : SendOptions;
  defer : bool;
  browse_enabled : bool;
  base : option string;
  serve_nolog : bool
}.

(** The directory listing, [browse(ctx, index, base)]. *)
Variable browse : string -> option string -> Ctx -> Outcome * Ctx.

Definition is_get_or_head (ctx : Ctx) : bool :=
  String.eqb (method (req ctx)) "HEAD" || String.eqb (method (req ctx)) "GET".

(** The [catch] of [serve] passes over an error whose status is 404
    and throws every other value on. *)
Definition silenced (err : Js.Thrown) : bool :=
  Js.isError err &&
  match Js.statusOf err with Some st => (st =? 404)%Z | None => false end.

(** The middleware of [serve] without [defer]. *)
Definition serve (options : ServeOptions) : Mw Ctx :=
  Read (fun ctx =>
    if is_get_or_head ctx then
      match send (path ctx) (send_options options) ctx with
      | (inr result, _, ctx') =>
          Act (fun _ => ctx')
            (if ok result then Ret
             else if result_isDirectory result && browse_enabled options then
               match browse (default "" (result_path result)) (base options) ctx' with
               | (Returned, ctx'') => Act (fun _ => ctx'') Ret
               | (Threw err, ctx'') =>
                   Act (fun _ => ctx'')
                     (if silenced err then AwaitNext Ret else Throw err)
               end
             else AwaitNext Ret)
      | (inl err, _, ctx') =>
          Act (fun _ => ctx') (if silenced err then AwaitNext Ret else Throw err)
      end
    else AwaitNext Ret).

(** The middleware of [serve] with [defer]: downstream first. *)
Definition serve_deferred (options : ServeOptions) : Mw Ctx :=
  AwaitNext
    (Read (fun ctx =>
       if negb (is_get_or_head ctx) then Ret
       else if negb (match body ctx with BodyNone => true | _ => false end)
               || negb (status ctx =? 404)%Z then Ret
       else
         match send (path ctx) (send_options options) ctx with
         | (inr _, _, ctx') => Act (fun _ => ctx') Ret
         | (inl err, _, ctx') =>
             Act (fun _ => ctx') (if silenced err then Ret else Throw err)
         end)).

(** [options.root = path.resolve(options.root)] *)
Definition with_root (r : string) (options : ServeOptions) : ServeOptions :=
  let o := send_options options in
  mkServeOptions
    (mkSendOptions (absolute o) (maxage o) (immutable o) (hidden o) (Some r) (index o)
       (gzip o) (brotli o) (format o) (setHeaders o) (extensions o))
    (defer options) (browse_enabled options) (base options) (serve_nolog options).

(** [staticModule(serveOptions)], the options given as an object:
    [serve] refuses options without a root when the module is built;
    the middleware takes the base off the path, logs, and runs the
    handler of [serve] with a [next] that puts the path back first. *)
Definition staticModule {X : Type} (serveOptions : ServeOptions)
  : Js.Thrown + (Cont Ctx X -> Cont Ctx X) :=
  match root (send_options serveOptions) with
  | None => inl (Js.newError "root directory is required to serve files")
  | Some r =>
      if String.eqb r "" then inl (Js.newError "root directory is required to serve files")
      else
        let options := with_root (resolve r) serveOptions in
        let serveHandler :=
          if defer options then serve_deferred options else serve options in
        inr (fun next s =>
               let ctx := set_handler "Static" s.2 in
               let original := path ctx in
               let ctx := match base options with
                          | Some b =>
                              if String.eqb b "" then ctx
                              else set_path (Js.replace b "/" original) ctx
                          | None => ctx
                          end in
               let ctx := if serve_nolog options then set_log false ctx else ctx in
               let ctx := if log ctx then
                            do_log (succ (loggers (req ctx)) "Served")
                                   (info (loggers (req ctx))
                                      (Path.join (resolve r) (path ctx)))
                                   ctx
                          else ctx in
               run serveHandler (fun s' => next (s'.1, set_path original s'.2)) (s.1, ctx))
  end.

End Send.

End Static.

(** ** The upgradable response *)

Module UpgradableResponse.

(** The client WebSocket once the handshake is done: its ready state
    (1 is open) and the code it was closed with. *)
Record WebSocket := mkWebSocket {
  readyState : Z;
  closed_with : option Z
}.

(** [OutgoingHttpHeaders]: an object, its keys in insertion order (the
    order of [for ... in]). *)
Definition Headers := list (string * string).

Fixpoint headers_set (name value : string) (h : Headers) : Headers :=
  match h with
  | [] => [(name, value)]
  | (k, v) :: rest =>
      if String.eqb k name then (k, value) :: rest
      else (k, v) :: headers_set name value rest
  end.

Definition headers_delete (name : string) (h : Headers) : Headers :=
  List.filter (fun kv => negb (String.eqb kv.1 name)) h.

Fixpoint headers_get (name : string) (h : Headers) : option string :=
  match h with
  | [] => None
  | (k, v) :: rest => if String.eqb k name then Some v else headers_get name rest
  end.

(** What went to the socket. *)
Inductive Wire :=
| Written (data : string)
| Ended.

Record t := mk {
  upgraded : bool;
  wire : list Wire;
  finished : bool;
  headersSent : bool;
  headers : Headers;
  statusCode : Z;
  statusMessage : string;
  websocket : option WebSocket
}.

(** [new UpgradableResponse(socket, head)] *)
Definition new : t := mk false [] false false [] 200 "" None.

Definition headers_sent : Js.Thrown := Js.newError "Headers have already been sent".

Definition socket_write (data : string) (r : t) : t :=
  mk (upgraded r) (wire r ++ [Written data]) (finished r) (headersSent r)
     (headers r) (statusCode r) (statusMessage r) (websocket r).

Definition socket_end (r : t) : t :=
  mk (upgraded r) (wire r ++ [Ended]) (finished r) (headersSent r)
     (headers r) (statusCode r) (statusMessage r) (websocket r).

Definition set_headers (h : Headers) (r : t) : t :=
  mk (upgraded r) (wire r) (finished r) (headersSent r)
     h (statusCode r) (statusMessage r) (websocket r).

Definition set_headersSent (r : t) : t :=
  mk (upgraded r) (wire r) (finished r) true
     (headers r) (statusCode r) (statusMessage r) (websocket r).

Definition set_upgraded (r : t) : t :=
  mk true (wire r) (finished r) (headersSent r)
     (headers r) (statusCode r) (statusMessage r) (websocket r).

Definition set_websocket (w : option WebSocket) (r : t) : t :=
  mk (upgraded r) (wire r) (finished r) (headersSent r)
     (headers r) (statusCode r) (statusMessage r) w.

Definition set_finished (r : t) : t :=
  mk (upgraded r) (wire r) true (headersSent r)
     (headers r) (statusCode r) (statusMessage r) (websocket r).

Definition set_statusCode (code : Z) (r : t) : t :=
  mk (upgraded r) (wire r) (finished r) (headersSent r)
     (headers r) code (statusMessage r) (websocket r).

Definition set_statusMessage (m : string) (r : t) : t :=
  mk (upgraded r) (wire r) (finished r) (headersSent r)
     (headers r) (statusCode r) m (websocket r).

(** [getHeader] and [hasHeader] *)
Definition getHeader (name : string) (r : t) : option string :=
  headers_get name (headers r).

Definition hasHeader (name : string) (r : t) : bool :=
  match headers_get name (headers r) with Some _ => true | None => false end.

(** [removeHeader] and [setHeader] *)
Definition removeHeader (name : string) (r : t) : Js.Thrown + t :=
  if headersSent r then inl headers_sent
  else inr (set_headers (headers_delete name (headers r)) r).

Definition setHeader (name value : string) (r : t) : Js.Thrown + t :=
  if headersSent r then inl headers_sent
  else inr (set_headers (headers_set name value (headers r)) r).

(** The second and third arguments of [writeHead]. *)
Inductive Arg :=
| Undefined
| Text (s : string)
| Object (h : Headers)
| Array (l : list string).

Definition falsy (a : Arg) : bool :=
  match a with
  | Undefined => true
  | Text s => String.eqb s ""
  | _ => false
  end.

Definition crlf : string := String "013"%char (String "010"%char EmptyString).

Section Serialise.

(** [statusCodes.getStatusText], which throws for a code it does not
    know. *)
Variable getStatusText : Z -> Js.Thrown + string.

(** [writeHead]; by its type the third argument is never a string.
    Every exception comes before the first byte is written. *)
Definition writeHead (code : Z) (message : Arg) (headers_arg : Arg) (r : t)
  : Js.Thrown + t :=
  if headersSent r then inl headers_sent
  else if falsy headers_arg && falsy message then
    inl (Js.newError "One of headers or message must be provided")
  else
    let '(headers_arg, message) :=
      match message with
      | Text s => (headers_arg, s)
      | other => (other, "")
      end in
    match headers_arg with
    | Array _ => inl (Js.newError "Headers must not be an array")
    | _ =>
        if upgraded r then inr (set_headersSent r)
        else
          match (if String.eqb message "" then getStatusText code
                 else inr message) with
          | inl e => inl e
          | inr reason =>
              let lines := match headers_arg with Object h => h | _ => [] end in
              let r := socket_write
                         ("HTTP/1.1 " +:+ pretty code +:+ " " +:+ reason +:+ crlf) r in
              let r := fold_left
                         (fun r kv => socket_write (kv.1 +:+ ": " +:+ kv.2 +:+ crlf) r)
                         lines r in
              inr (set_headersSent (socket_write crlf r))
          end
    end.

(** [websocket.close(code)] on an open socket *)
Definition close_websocket (code : Z) (r : t) : t :=
  match websocket r with
  | Some w =>
      if (readyState w =? 1)%Z then set_websocket (Some (mkWebSocket 2 (Some code))) r
      else r
  | None => r
  end.

(** [_write(chunk)]; [None] is the [null] chunk of the end of the
    stream. *)
Definition _write (chunk : option string) (r : t) : Js.Thrown + t :=
  match (if headersSent r then inr r
         else writeHead (statusCode r) (Text (statusMessage r)) (Object (headers r)) r) with
  | inl e => inl e
  | inr r =>
      if upgraded r then
        match chunk with
        | None => inr (close_websocket (if (statusCode r =? 500)%Z then 1011 else 1000) r)
        | Some _ => inr r
        end
      else
        match chunk with
        | None => inr (socket_end r)
        | Some data => inr (socket_write data r)
        end
  end.

(** [upgrade(req)], up to the promise it returns; the handshake ends
    later, in [handshaken]. *)
Definition upgrade (r : t) : Js.Thrown + t :=
  if headersSent r then inl headers_sent
  else inr (set_upgraded r).

Definition handshaken (client : WebSocket) (r : t) : t :=
  set_websocket (Some client) r.

(** The listener of ['finish']. *)
Definition finish (r : t) : Js.Thrown + t :=
  match _write None r with
  | inl e => inl e
  | inr r => inr (set_finished r)
  end.

(** What can be done to a response. *)
Inductive Op :=
| Write (chunk : option string)
| RemoveHeader (name : string)
| SetHeader (name value : string)
| WriteHead (code : Z) (message headers_arg : Arg)
| Upgrade
| Handshaken (client : WebSocket)
| Finish
| SetStatusCode (code : Z)
| SetStatusMessage (m : string).

Definition step (r : t) (op : Op) : Js.Thrown + t :=
  match op with
  | Write chunk => _write chunk r
  | RemoveHeader name => removeHeader name r
  | SetHeader name value => setHeader name value r
  | WriteHead code message headers_arg => writeHead code message headers_arg r
  | Upgrade => upgrade r
  | Handshaken client => inr (handshaken client r)
  | Finish => finish r
  | SetStatusCode code => inr (set_statusCode code r)
  | SetStatusMessage m => inr (set_statusMessage m r)
  end.

(** A sequence of calls; a call that throws leaves the response as it
    was. *)
Fixpoint steps (r : t) (ops : list Op) : t :=
  match ops with
  | [] => r
  | op :: rest =>
      match step r op with
      | inr r' => steps r' rest
      | inl _ => steps r rest
      end
  end.

End Serialise.

End UpgradableResponse.


(** ** Request statistics *)

Module Statistics.

(** The counters: the number of requests and the times, in
    milliseconds, of the requests of the last 1, 5 and 15 minutes. *)
Record t := mk {
  count : Z;
  last1min : list Z;
  last5min : list Z;
  last15min : list Z
}.

Definition new : t := mk 0 [] [] [].

(** The loop of [vaccumTime]: [for (const time of last)] reads
    [last[i]] for [i = 0, 1, ...] as long as [i] is below the current
    length, and [last.shift()] takes the first entry off the array the
    loop is reading. *)
Fixpoint vaccum_from (now period : Z) (i : nat) (last : list Z) : list Z :=
  match last with
  | [] => []
  | _ :: shifted =>
      match last !! i with
      | Some time =>
          if (period * 1000 <? now - time)%Z then vaccum_from now period (S i) shifted
          else last
      | None => last
      end
  end.

(** [Statistics.vaccumTime] *)
Definition vaccumTime (now period : Z) (last : list Z) : list Z :=
  vaccum_from now period 0 last.

Record Stat := mkStat {
  stat_count : Z;
  stat_last1min : string;
  stat_last5min : string;
  stat_last15min : string
}.

Section GetStat.

(** [(n / d).toFixed(2)] *)
Variable toFixed2 : Z -> Z -> string.

Definition getStat (s : t) : Stat :=
  mkStat (count s)
    (toFixed2 (Z.of_nat (length (last1min s))) 1)
    (toFixed2 (Z.of_nat (length (last5min s))) 5)
    (toFixed2 (Z.of_nat (length (last15min s))) 15).

(** [record()], at the time [now] that [Date.now()] gives. *)
Definition record (now : Z) (s : t) : Stat * t :=
  let s := mk (count s + 1)
              (vaccumTime now 60 (last1min s ++ [now]))
              (vaccumTime now 300 (last5min s ++ [now]))
              (vaccumTime now 900 (last15min s ++ [now])) in
  (getStat s, s).

End GetStat.

End Statistics.

(** * Sample data *)

Module Sample.
Import Koa.

(** Loggers that do not colour. *)
Definition plain : Loggers :=
  mkLoggers (fun s => s) (fun s => s) (fun s => s) (fun s => s).

(** A client that accepts no encoding but [identity]. *)
Definition no_encoding (_ : list string) : option string := Some "identity".

(** [GET http://www.example.com/old/x] *)
Definition request : Request :=
  mkRequest "GET" "www.example.com" (mkURL "http:" "www.example.com" "" "/old/x" "")
    {[ "host" := "www.example.com" ]} no_encoding false plain.

Definition ctx : Ctx :=
  mkCtx request "/old/x" 404 BodyNone ∅ true [] None None None 0 false.

(** The rest of a stack that does nothing. *)
Definition fall_through {X : Type} : Cont Ctx X := fun s => (Returned, s).

End Sample.

(** A [RegExp] constructor and a route installer to evaluate the binder
    with: every pattern compiles, to an expression that matches
    nothing, and installing routes changes nothing. *)
Definition sample_newRegExp (source flags : string) : Js.Thrown + Koa.RegExp :=
  inr (Koa.mkRegExp source flags (fun _ _ => None) 0).

Definition sample_installRoutes (_ : Koa.SiteLike) (_ : unit) (pr : PathRouter.t)
  : Koa.Outcome * PathRouter.t :=
  (Koa.Returned, pr).

(** A WebSocket request: the upgrade glue has set the flag and the
    [upgrade] closure. *)
Definition ws_request : Koa.Request :=
  Koa.mkRequest "GET" "www.example.com"
    (Koa.mkURL "http:" "www.example.com" "" "/api/websocket" "")
    {[ "host" := "www.example.com"; "upgrade" := "websocket" ]}
    Sample.no_encoding true Sample.plain.

Definition ws_ctx : Koa.Ctx :=
  Koa.mkCtx ws_request "/api/websocket" 404 Koa.BodyNone ∅ true [] None None None 0 true.

(** [proxy: http://127.0.0.1:8080] with [websocket: true] *)
Definition ws_conf : Proxy.ProxyOptions :=
  Proxy.mkOptions (Koa.mkURL "http:" "127.0.0.1" "8080" "/" "") false None true None None.

(** An upstream nobody listens on. *)
Definition refused : Js.Thrown :=
  Js.ErrorObj
    (Js.mkError "Error" "connect ECONNREFUSED 127.0.0.1:8080" None (Some "ECONNREFUSED")).

Definition no_transport (_ : Proxy.Sent) : Js.Thrown + Proxy.Response := inl refused.

Definition refusing (_ : Koa.URL) : list Proxy.WsEvent := [Proxy.ReqError refused].

(** [GET /api/x] for [www.example.com], proxied to
    [http://127.0.0.1:8080]. The upstream answers 204 and reports the
    [host] header it received in a response header. *)
Definition api_request : Koa.Request :=
  Koa.mkRequest "GET" "www.example.com"
    (Koa.mkURL "http:" "www.example.com" "" "/api/x" "")
    {[ "host" := "www.example.com"; "accept" := "*/*" ]}
    Sample.no_encoding false Sample.plain.

Definition api_ctx : Koa.Ctx :=
  Koa.mkCtx api_request "/api/x" 404 Koa.BodyNone ∅ true [] None None None 0 false.

Definition api_conf : Proxy.ProxyOptions :=
  Proxy.mkOptions (Koa.mkURL "http:" "127.0.0.1" "8080" "/" "") false None false None None.

Definition reporting (sent : Proxy.Sent) : Js.Thrown + Proxy.Response :=
  inr (Proxy.mkResponse (Some 204%Z)
         {[ "x-received-host" := default "" (Proxy.sent_headers sent !! "host") ]} "").

(** Files by path; [None] is a directory. *)
Definition sample_files : list (string * option string) :=
  [("/var/www", None);
   ("/var/www/hello.txt", Some "0123456789");
   ("/var/www/hello.txt.br", Some "BR");
   ("/var/www/hello.txt.gz", Some "GZIP");
   ("/var/www/.well-known", None);
   ("/var/www/.well-known/a.txt", Some "token");
   ("/var/www/.well-known/a.txt.br", Some "B");
   ("/var/www/.well-known/a.txt.gz", Some "G")].

Fixpoint sample_lookup (p : string) (l : list (string * option string))
  : option (option string) :=
  match l with
  | [] => None
  | (k, v) :: rest => if String.eqb k p then Some v else sample_lookup p rest
  end.

Definition enoent : Js.Thrown :=
  Js.ErrorObj (Js.mkError "Error" "ENOENT: no such file or directory" None (Some "ENOENT")).

Definition sample_fs : Static.FileSystem :=
  Static.mkFileSystem
    (fun p => match sample_lookup p sample_files with Some _ => true | None => false end)
    (fun p => match sample_lookup p sample_files with
              | Some (Some bytes) =>
                  inr (Static.mkStats false (Z.of_nat (String.length bytes))
                         "Mon, 02 Nov 2026 12:00:00 GMT")
              | Some None => inr (Static.mkStats true 4096 "Mon, 02 Nov 2026 12:00:00 GMT")
              | None => inl enoent
              end)
    (fun p => match sample_lookup p sample_files with
              | Some (Some bytes) => bytes
              | _ => ""
              end).

(** A resolver with the guarantee of the [resolve-path] package: it
    refuses with a 403 every path with two dots in a row or a leading
    slash, and puts the others under the root. *)
Definition sample_resolvePath (root p : string) : Js.Thrown + string :=
  if Js.includes ".." p || Js.startsWith "/" p then inl (Js.httpError 403 "Forbidden")
  else inr (root +:+ "/" +:+ p).

Definition sample_decode (p : string) : option string := Some p.

Definition sample_resolve (p : string) : string := p.

Definition sample_extname (_ : string) : string := ".txt".

Definition sample_extname_without (_ _ : string) : string := ".txt".

Definition sample_mimeType (_ : string) : option string :=
  Some "text/plain; charset=utf-8".

Definition sample_browse (_ : string) (_ : option string) (ctx : Koa.Ctx)
  : Koa.Outcome * Koa.Ctx :=
  (Koa.Returned, ctx).

(** [static: /var/www], with the defaults. *)
Definition sample_options : Static.SendOptions :=
  Static.mkSendOptions false 0 false false (Some "/var/www") None true true true None None.

Definition sample_send (path : string) (opts : Static.SendOptions) (ctx : Koa.Ctx) :=
  Static.send sample_decode sample_resolve sample_resolvePath sample_extname
    sample_extname_without sample_mimeType sample_fs path opts ctx.

(** A request for [path] with the given request headers, preferring
    the listed encodings in order over [identity]. *)
Definition get_request (path : string) (hdrs : gmap string string)
    (preferred : list string) : Koa.Ctx :=
  Koa.mkCtx
    (Koa.mkRequest "GET" "www.example.com"
       (Koa.mkURL "http:" "www.example.com" "" path "") hdrs
       (fun offered =>
          match List.filter (fun e => existsb (String.eqb e) offered) preferred with
          | e :: _ => Some e
          | [] => Some "identity"
          end)
       false Sample.plain)
    path 404 Koa.BodyNone ∅ true [] None None None 0 false.

(** [statusCodes.getStatusText] on the one code the samples use. *)
Definition sample_status_text (code : Z) : Js.Thrown + string :=
  if (code =? 200)%Z then inr "OK" else inl (Js.newError "Status code does not exist").

(** A response after [upgrade] and the handshake, the client open. *)
Definition upgraded_response : UpgradableResponse.t :=
  UpgradableResponse.handshaken (UpgradableResponse.mkWebSocket 1 None)
    (UpgradableResponse.set_upgraded UpgradableResponse.new).

(** [serve] on [/var/www], with the defaults. *)
Definition missing_options : Static.ServeOptions :=
  Static.mkServeOptions sample_options false false None false.

(** What [stat] gives for [/var/www/hello.txt]. *)
Definition sample_stats : Static.Stats :=
  Static.mkStats false 10 "Mon, 02 Nov 2026 12:00:00 GMT".

(** * Vocabulary of the properties *)

Section Frames.
Context {C X : Type}.

(** The frame of a state of the composer. *)
Definition frame_of (s : (Util.Frame * X) * C) : Util.Frame := s.1.1.

(** A continuation relates the frame it is called in to the frame it
    leaves. *)
Definition frame_rel (R : Util.Frame -> Util.Frame -> Prop)
    (k : Koa.Cont C (Util.Frame * X)) : Prop :=
  forall s o s', k s = (o, s') -> R (frame_of s) (frame_of s').

End Frames.

(** What holds of a frame all along one call of a composed middleware
    of [n] entries: no frame was entered twice, every entered frame is
    at or below [index], and the outer continuation was invoked at
    most once, and only with [index] at [n]. *)
Definition frame_inv (n : Z) (f : Util.Frame) : Prop :=
  NoDup (Util.entered f) /\
  (forall j, j ∈ Util.entered f -> (j <= Util.index f)%Z) /\
  (Util.outer_calls f = 0 \/ (Util.outer_calls f = 1 /\ (n <= Util.index f)%Z)).

Definition frame_step (n : Z) (f g : Util.Frame) : Prop :=
  (Util.index f <= Util.index g)%Z /\ (frame_inv n f -> frame_inv n g).




(** An expression with the [g] flag that matches every host name that
    contains [example], and ends its match there. *)
Fixpoint find_example (i : nat) (s : string) : option nat :=
  match s with
  | "" => None
  | String _ s' =>
      if String.prefix "example" s then Some (i + 7)
      else find_example (S i) s'
  end.

Definition example_global : Koa.RegExp :=
  Koa.mkRegExp "example" "g"
    (fun i s => find_example i (Js.substring_from i s)) 0.

(** What the rewrite middleware hands on: the context with the new
    path, and the log entry when logging is on. *)
Definition rewritten (src dest : string) (ctx : Koa.Ctx) : Koa.Ctx :=
  let ctx' := Koa.set_path (Path.normalize (Js.replace src dest (Koa.path ctx))) ctx in
  if Koa.log ctx' then
    Koa.do_log (Koa.succ (Koa.loggers (Koa.req ctx')) "Rewritten")
               ("to=" +:+ Koa.info (Koa.loggers (Koa.req ctx')) (Koa.path ctx')) ctx'
  else ctx'.

(** A key is wrapped in slashes when it starts and ends with one. *)
Definition wrapped_in_slashes (key : string) : bool :=
  Js.startsWith "/" key &&
  match Js.last_char key with Some c => Ascii.eqb c "/" | None => false end.

(** An event nobody listens to while the upstream socket is still
    connecting: anything but its [open] and its [error]. *)
Definition unheard (ev : Proxy.WsEvent) : bool :=
  match ev with
  | Proxy.ReqOpen | Proxy.ReqError _ => false
  | _ => true
  end.

(** The URL of the WebSocket session. *)
Definition ws_url (conf : Proxy.ProxyOptions) (ctx : Koa.Ctx) : Koa.URL :=
  Proxy.with_protocol
    (Proxy.ws_protocol (Koa.protocol (Proxy.target (Proxy.upstream conf) ctx)))
    (Proxy.target (Proxy.upstream conf) ctx).

(** The context the proxy hands to the rest of the stack when the
    session failed with [err]. *)
Definition ws_failed (conf : Proxy.ProxyOptions) (err : Js.Thrown) (ctx : Koa.Ctx)
  : Koa.Ctx :=
  let url := ws_url conf ctx in
  let ctx1 := if Proxy.nolog conf then Koa.set_log false ctx else ctx in
  let ctx2 := Koa.set_error err
                (Koa.set_status 200
                   (Koa.set_body (Koa.BodyText "") (Koa.set_handler "ProxyWS" ctx1))) in
  if Koa.log ctx2 then
    Koa.do_log (Koa.crit (Koa.loggers (Koa.req ctx2)) "ProxyWS-Failed")
               ("to=" +:+ Koa.info (Koa.loggers (Koa.req ctx2)) (Koa.href url)) ctx2
  else ctx2.

(** A path is under a root when it starts with it. *)
Definition under (R p : string) : Prop := String.prefix R p = true.

(** A path is contained in a root directory when it is the root or
    starts with the root and a separator: a sibling of the root, whose
    name only starts like the root's, is not. *)
Definition contained (R p : string) : bool :=
  String.eqb p R || Js.startsWith (R +:+ "/") p.

(** The root [/var/www] with nothing in it, and a file beside it
    whose name is the root's with [.br] after it. *)
Definition sibling_files : list (string * option string) :=
  [("/var/www", None); ("/var/www.br", Some "SIBLING")].

Definition sibling_fs : Static.FileSystem :=
  Static.mkFileSystem
    (fun p => match sample_lookup p sibling_files with Some _ => true | None => false end)
    (fun p => match sample_lookup p sibling_files with
              | Some (Some bytes) =>
                  inr (Static.mkStats false (Z.of_nat (String.length bytes))
                         "Mon, 02 Nov 2026 12:00:00 GMT")
              | Some None => inr (Static.mkStats true 4096 "Mon, 02 Nov 2026 12:00:00 GMT")
              | None => inl enoent
              end)
    (fun p => match sample_lookup p sibling_files with
              | Some (Some bytes) => bytes
              | _ => ""
              end).

(** The name of a header in lower case, and a response that has a
    header of the given name, if it has one, in this spelling only:
    the response looks a header up whatever the case of its name. *)
Definition lower_char (c : ascii) : ascii :=
  if Rx.range "A" "Z" c then ascii_of_nat (nat_of_ascii c + 32) else c.

Fixpoint lower (s : string) : string :=
  match s with
  | "" => ""
  | String c s' => String (lower_char c) (lower s')
  end.

Definition spelled (name : string) (ctx : Koa.Ctx) : Prop :=
  forall k, lower k = lower name -> k <> name -> Koa.resHeaders ctx !! k = None.

(** A string of decimal digits. *)
Definition digits (d : string) : Prop :=
  forallb Js.is_digit (list_ascii_of_string d) = true.

(** The two ends the code computes from the two runs of digits of
    [<start>-<end>]: a missing end is the last byte; a missing start
    makes the range the last [end] bytes. *)
Definition range_of (d1 d2 : string) (size : Z) : Z * Z :=
  let end_ := if String.eqb d2 "" then (size - 1)%Z else Js.parseInt d2 in
  if String.eqb d1 "" then ((size - end_)%Z, (size - 1)%Z)
  else (Js.parseInt d1, end_).

(** The ranges [fs.createReadStream] accepts. *)
Definition readable (s e : Z) : bool :=
  ((0 <=? s) && (s <=? Static.max_safe_integer)
   && (0 <=? e) && (e <=? Static.max_safe_integer) && (s <=? e))%Z.

(** The response to a satisfied range, and to a failed one. *)
Definition partial_content (fs : Static.FileSystem) (path : string) (size s e : Z)
    (ctx : Koa.Ctx) : Prop :=
  Koa.status ctx = 206%Z /\
  Koa.resHeaders ctx !! "Content-Range"
    = Some ("bytes " +:+ pretty s +:+ "-" +:+ pretty e +:+ "/" +:+ pretty size) /\
  Koa.resHeaders ctx !! "Content-Length" = Some (pretty (e - s + 1)%Z) /\
  Koa.body ctx = Koa.BodyFile path (Some (s, e)) /\
  Static.streamed fs (Koa.body ctx)
    = String.substring (Z.to_nat s) (Z.to_nat (e - s + 1)) (Static.content fs path).

Definition not_satisfiable (fs : Static.FileSystem) (path : string) (size : Z)
    (ctx : Koa.Ctx) : Prop :=
  Koa.status ctx = 416%Z /\
  Koa.resHeaders ctx !! "Content-Range" = Some ("bytes */" +:+ pretty size) /\
  Koa.resHeaders ctx !! "Content-Length" = Some (pretty size) /\
  Koa.body ctx = Koa.BodyFile path None /\
  Static.streamed fs (Koa.body ctx) = Static.content fs path.

(** A string without a path separator. *)
Definition no_sep (s : string) : Prop :=
  forallb (fun c => negb (Ascii.eqb c Path.sep)) (list_ascii_of_string s) = true.

(** The [setHeaders] hook of the options, if any, leaves a header
    alone. *)
Definition hook_keeps (k : string) (opts : Static.SendOptions) : Prop :=
  forall hook, Static.setHeaders opts = Some hook ->
    forall q st h, hook q st h !! k = h !! k.

(** The names every JavaScript object inherits from [Object.prototype]:
    looking one of them up in an object that has no such key of its
    own finds the inherited value. The headers of the response are
    modelled by the keys of the object itself. *)
Definition inherited_names : list string :=
  ["constructor"; "__defineGetter__"; "__defineSetter__"; "hasOwnProperty";
   "__lookupGetter__"; "__lookupSetter__"; "isPrototypeOf"; "propertyIsEnumerable";
   "toString"; "valueOf"; "__proto__"; "toLocaleString"].

(** The requests recorded at the given times, in this order. *)
Definition recorded (toFixed2 : Z -> Z -> string) (times : list Z) (s : Statistics.t)
  : Statistics.t :=
  fold_left (fun s now => (Statistics.record toFixed2 now s).2) times s.

(** A request older than the period, in seconds, at the time [now]. *)
Definition stale (now period time : Z) : Prop := (period * 1000 < now - time)%Z.

(** One window under [record]. *)
Definition window_step (period : Z) (window : list Z) (now : Z) : list Z :=
  Statistics.vaccumTime now period (window ++ [now]).



(** A message on either socket, and its length. *)
Definition is_message (ev : Proxy.WsEvent) : bool :=
  match ev with
  | Proxy.ReqMessage _ | Proxy.UsrMessage _ => true
  | _ => false
  end.

Definition message_bytes (ev : Proxy.WsEvent) : Z :=
  match ev with
  | Proxy.ReqMessage n | Proxy.UsrMessage n => n
  | _ => 0%Z
  end.

Definition is_close (ev : Proxy.WsEvent) : bool :=
  match ev with
  | Proxy.ReqClose | Proxy.UsrClose => true
  | _ => false
  end.

Definition total_bytes (msgs : list Proxy.WsEvent) : Z :=
  fold_right Z.add 0%Z (map message_bytes msgs).

(** The context the proxy leaves when the session ended after [bytes]
    bytes. *)
Definition ws_done (conf : Proxy.ProxyOptions) (bytes : Z) (ctx : Koa.Ctx) : Koa.Ctx :=
  let url := ws_url conf ctx in
  let ctx1 := if Proxy.nolog conf then Koa.set_log false ctx else ctx in
  let ctx2 := Koa.set_bytes bytes (Koa.set_status 101 (Koa.set_handler "ProxyWS" ctx1)) in
  if Koa.log ctx2 then
    Koa.do_log (Koa.succ (Koa.loggers (Koa.req ctx2)) "ProxiedWS")
               ("to=" +:+ Koa.info (Koa.loggers (Koa.req ctx2)) (Koa.href url)) ctx2
  else ctx2.

(** The request the HTTP branch sends upstream. *)
Definition upstream_options (conf : Proxy.ProxyOptions) (ctx : Koa.Ctx)
  : Proxy.RequestOptions :=
  Proxy.mkRequestOptions
    (Some (Util.filter (Koa.headers (Koa.req ctx))
             (Proxy.keep (default ["host"] (Proxy.reqHeadersFilter conf)))))
    (Koa.method (Koa.req ctx))
    (match Proxy.timeout conf with
     | Some t => if (t =? 0)%Z then 3000%Z else t
     | None => 3000%Z
     end).

(** The context the HTTP branch hands on for the response [res]. *)
Definition proxied (conf : Proxy.ProxyOptions) (res : Proxy.Response) (ctx : Koa.Ctx)
  : Koa.Ctx :=
  let url := Proxy.target (Proxy.upstream conf) ctx in
  let ctx1 := if Proxy.nolog conf then Koa.set_log false ctx else ctx in
  let ctx2 := Koa.set_status
                (match Proxy.statusCode res with
                 | Some n => if (n =? 0)%Z then 503%Z else n
                 | None => 503%Z
                 end)
                (Koa.set_body (Koa.BodyBuffer (Proxy.res_body res))
                   (Koa.set_handler "Proxy" ctx1)) in
  let ctx3 := Koa.set_resHeaders
                (Util.filter (Proxy.res_headers res)
                   (Proxy.keep (default ["connection"; "transfer-encoding"]
                                  (Proxy.resHeadersFilter conf)))
                 ∪ Koa.resHeaders ctx2) ctx2 in
  if Koa.log ctx3 then
    Koa.do_log (Koa.succ (Koa.loggers (Koa.req ctx3)) "Proxied")
               ("to=" +:+ Koa.info (Koa.loggers (Koa.req ctx3)) (Koa.href url)) ctx3
  else ctx3.

(** What the HTTP branch hands to the transport, or the exception of
    [request]. *)
Definition upstream_sent (conf : Proxy.ProxyOptions) (ctx : Koa.Ctx)
  : Js.Thrown + Proxy.Sent :=
  Proxy.prepare (Proxy.target (Proxy.upstream conf) ctx) (upstream_options conf ctx).

(** The context the HTTP branch leaves when it throws. *)
Definition proxy_entered (conf : Proxy.ProxyOptions) (ctx : Koa.Ctx) : Koa.Ctx :=
  Koa.set_handler "Proxy" (if Proxy.nolog conf then Koa.set_log false ctx else ctx).

(** The request of the sample as it goes upstream. *)
Definition api_sent : Proxy.Sent :=
  Proxy.mkSent Proxy.Http (Proxy.target (Proxy.upstream api_conf) api_ctx)
    (Proxy.request_headers (Proxy.target (Proxy.upstream api_conf) api_ctx)
       (Proxy.opt_headers (upstream_options api_conf api_ctx)))
    "GET" 3000.

(** The error codes of a file that is not there. *)
Definition not_found (e : Js.Error) : bool :=
  match Js.code e with
  | Some c => negb (String.eqb c "")
              && existsb (String.eqb c) ["ENOENT"; "ENAMETOOLONG"; "ENOTDIR"]
  | None => false
  end.

(** The context the static module hands to the handler of [serve]. *)
Definition static_entered (resolve : string -> string) (root : string)
    (options : Static.ServeOptions) (ctx : Koa.Ctx) : Koa.Ctx :=
  let ctx := Koa.set_handler "Static" ctx in
  let ctx := match Static.base options with
             | Some b =>
                 if String.eqb b "" then ctx
                 else Koa.set_path (Js.replace b "/" (Koa.path ctx)) ctx
             | None => ctx
             end in
  let ctx := if Static.serve_nolog options then Koa.set_log false ctx else ctx in
  if Koa.log ctx then
    Koa.do_log (Koa.succ (Koa.loggers (Koa.req ctx)) "Served")
               (Koa.info (Koa.loggers (Koa.req ctx)) (Path.join (resolve root) (Koa.path ctx)))
               ctx
  else ctx.

(** The layer and the message of a rewrite rule. *)
Definition rewrite_layer (path : string) (rule : string * string) : PathRouter.Layer :=
  PathRouter.mkLayer PathRouter.All path (PathRouter.Plain (PathRouter.rewrite rule.1 rule.2)).

(** The rules [parseSiteConfig] installs for a route, and the entries
    it leaves for [addRoute]: [delete rconf.rewrite] runs in the loop
    over the rules, so an empty list of rules stays among the
    entries. *)
Definition rules_of {Args : Type} (entries : list (Router.Entry Args))
  : list (string * string) :=
  default [] (Router.rewrite_of Args entries).

Definition kept_entries {Args : Type} (entries : list (Router.Entry Args))
  : list (Router.Entry Args) :=
  match rules_of entries with
  | [] => entries
  | _ => Router.delete_rewrite Args entries
  end.

(** A path router that has what another has, in place, and more after
    it: its layers, and each of its stacks. *)
Definition extends (pr pr' : PathRouter.t) : Prop :=
  PathRouter.site pr' = PathRouter.site pr /\
  (exists layers, PathRouter.router pr' = PathRouter.router pr ++ layers) /\
  (forall p st, PathRouter.lookup_stack p (PathRouter.stacks pr) = Some st ->
     exists more, PathRouter.lookup_stack p (PathRouter.stacks pr') = Some (st ++ more)).

(** As many messages more as the counter has grown. *)
Definition counted (r r' : Router.t) : Prop :=
  exists added,
    Router.msg r' = Router.msg r ++ added /\
    Router.counter r' = (Router.counter r + Z.of_nat (length added))%Z.

(** A loader that knows one module, [echo]. *)
Definition sample_getModule (path name : string) (_ : Router.Setting unit)
  : Js.Thrown + option (Koa.Mw Koa.Ctx) :=
  if String.eqb name "echo" then inr (Some Koa.Ret)
  else inl (Js.newError ("Cannot find module '@misaka/" +:+ name +:+ "'")).

(** A router that has loaded nothing yet, on the path router of a new
    site. *)
Definition sample_router : Router.t * PathRouter.t :=
  (Router.mk 0 [], PathRouter.new (Koa.SiteString "*")).


(** * Properties *)

(** ** The chain composer *)

Section ComposeProps.
Import Koa Util.
Context {C X : Type}.

(** A middleware body cannot touch the frame: whatever its
    continuation guarantees on the frame, it guarantees. *)
Lemma run_frame_rel (R : Frame -> Frame -> Prop) (p : Mw C) (k : Cont C (Frame * X)) :
  (forall f, R f f) ->
  (forall f g h, R f g -> R g h -> R f h) ->
  frame_rel R k -> frame_rel R (run p k).
Proof.
  intros Hrefl Htrans Hk.
  induction p as [|t|f p IH|q IH|q IH]; intros s o s' Hrun; simpl in Hrun.
  - inversion Hrun; subst. apply Hrefl.
  - inversion Hrun; subst. apply Hrefl.
  - apply IH in Hrun. exact Hrun.
  - apply IH in Hrun. exact Hrun.
  - destruct (k s) as [o1 s1] eqn:Hks.
    apply Hk in Hks. apply IH in Hrun. eapply Htrans; eauto.
Qed.

Lemma frame_step_refl n f : frame_step n f f.
Proof. split; [lia | auto]. Qed.

Lemma frame_step_trans n f g h :
  frame_step n f g -> frame_step n g h -> frame_step n f h.
Proof. intros [? ?] [? ?]; split; [lia | auto]. Qed.

(** One call of [dispatch(i)] on the last [length rest] entries of a
    stack moves [index] forward only and keeps the invariant of the
    whole call. *)
Lemma dispatch_frame_step (rest : list (Mw C)) (outer : Cont C X) :
  forall i, frame_rel (frame_step (i + Z.of_nat (length rest))) (dispatch rest outer i).
Proof.
  induction rest as [|route rest IH]; intros i [[fr x] c] o s' Hd;
    simpl in Hd; unfold frame_of in *; simpl in *.
  - destruct (i <=? index fr)%Z eqn:Hle.
    + inversion Hd; subst. apply frame_step_refl.
    + apply Z.leb_gt in Hle. unfold lift_outer in Hd. simpl in Hd.
      destruct (outer (x, c)) as [o1 [x1 c1]]. inversion Hd; subst. simpl.
      split; simpl; [lia|].
      intros (Hnd & Hbelow & Hout). repeat split; simpl; auto.
      * intros j Hj. apply Hbelow in Hj. lia.
      * right. destruct Hout as [-> | [_ Hn]]; [split; [reflexivity | lia] | lia].
  - destruct (i <=? index fr)%Z eqn:Hle.
    + inversion Hd; subst. apply frame_step_refl.
    + apply Z.leb_gt in Hle.
      eapply frame_step_trans; cycle 1.
      * eapply (run_frame_rel (frame_step (i + Z.of_nat (S (length rest)))));
          [apply frame_step_refl | apply frame_step_trans | | exact Hd].
        replace (i + Z.of_nat (S (length rest)))%Z
          with ((i + 1) + Z.of_nat (length rest))%Z by lia.
        apply IH.
      * split; simpl; [lia|].
        intros (Hnd & Hbelow & Hout). repeat split; simpl.
        -- constructor; [|exact Hnd]. intros Hin. apply Hbelow in Hin. lia.
        -- intros j [-> | Hj]%elem_of_cons; [lia | apply Hbelow in Hj; lia].
        -- destruct Hout as [-> | [_ Hn]]; [left; reflexivity | lia].
Qed.

Lemma dispatch_index_mono (rest : list (Mw C)) (outer : Cont C X) i s o s' :
  dispatch rest outer i s = (o, s') ->
  (index (frame_of s) <= index (frame_of s'))%Z.
Proof. intros H. apply dispatch_frame_step in H. destruct H as [H _]. exact H. Qed.

(** After [dispatch(i)] has been called, [index] is at least [i]. *)
Lemma dispatch_index_reached (rest : list (Mw C)) (outer : Cont C X) i s o s' :
  dispatch rest outer i s = (o, s') -> (i <= index (frame_of s'))%Z.
Proof.
  intros Hd. destruct (i <=? index (frame_of s))%Z eqn:Hle.
  - apply Z.leb_le in Hle. apply dispatch_index_mono in Hd. lia.
  - destruct s as [[fr x] c]. unfold frame_of in *. simpl in Hle.
    destruct rest as [|route rest]; simpl in Hd; rewrite Hle in Hd.
    + unfold lift_outer in Hd. simpl in Hd.
      destruct (outer (x, c)) as [o1 [x1 c1]]. inversion Hd; subst. simpl. lia.
    + eapply (run_frame_rel (fun f g => index f <= index g)%Z) in Hd.
      * simpl in Hd. exact Hd.
      * intros; lia.
      * intros; lia.
      * intros s1 o1 s1' H1. eapply dispatch_index_mono; eauto.
Qed.

(** With [index] at [i] or beyond, [dispatch(i)] throws and does
    nothing else. *)
Lemma dispatch_again (rest : list (Mw C)) (outer : Cont C X) i s :
  (i <= index (frame_of s))%Z ->
  dispatch rest outer i s = (Threw multiple_calls, s).
Proof.
  intros Hle. apply Z.leb_le in Hle. unfold frame_of in Hle.
  destruct rest; simpl; rewrite Hle; reflexivity.
Qed.

End ComposeProps.

(** A stack whose first middleware calls [next()] twice and catches
    what the second call throws: the second middleware runs once (the
    counter goes from 0 to 1), the second call throws (the handler adds
    100), and the outer continuation is never reached, the second
    middleware not calling its own [next]. *)
Example compose_double_next :
  let twice : Koa.Mw nat :=
    Koa.Next (fun _ => Koa.Next (fun o =>
      match o with
      | Koa.Threw _ => Koa.Act (Nat.add 100) Koa.Ret
      | Koa.Returned => Koa.Ret
      end)) in
  let once : Koa.Mw nat := Koa.Act S Koa.Ret in
  Util.compose_frame [twice; once] (fun s : unit * nat => (Koa.Returned, s)) (tt, 0)
  = (Koa.Returned, ((Util.mkFrame 1 [1%Z; 0%Z] 0, tt), 101)).
Proof. reflexivity. Qed.

(** The composed middleware can be called again: each call has an
    [index] of its own, so a second call of the same composition runs
    the stack a second time. *)
Example compose_called_twice :
  let stack : list (Koa.Mw nat) := [Koa.Next (fun _ => Koa.Ret); Koa.Act S Koa.Ret] in
  let composed := Util.compose stack (fun s : unit * nat => (Koa.Returned, s)) in
  composed (tt, 0) = (Koa.Returned, (tt, 1)) /\
  composed (composed (tt, 0)).2 = (Koa.Returned, (tt, 2)).
Proof. split; reflexivity. Qed.

(** C1. For every list of middlewares and every call of the composed
    middleware: (a) once a frame has called its continuation
    [dispatch(i)], every further call of that continuation, in any
    later state of the same call, throws 'next() called multiple times'
    and changes nothing, so it invokes no middleware and not the outer
    continuation; (b) a frame body that calls [next()] twice in a row
    receives that error as the outcome of its second call; (c) over the
    whole call no middleware is invoked twice and the outer continuation
    is invoked at most once; (d) each call starts from its own
    [index = -1], whatever happened before: a non-empty stack enters its
    first middleware with a frame of its own and an empty stack goes
    straight to the outer continuation. *)
Theorem compose_next_single_shot {C X : Type}
    (middlewares : list (Koa.Mw C)) (outer : Koa.Cont C X) (s : X * C) :
  (forall rest i st o st' st'',
      Util.dispatch rest outer i st = (o, st') ->
      (Util.index (frame_of st') <= Util.index (frame_of st''))%Z ->
      Util.dispatch rest outer i st'' = (Koa.Threw Util.multiple_calls, st''))
  /\ (forall rest i st k,
      Koa.run (Koa.Next (fun o1 => Koa.Next (k o1))) (Util.dispatch rest outer i) st
      = let '(o1, st1) := Util.dispatch rest outer i st in
        Koa.run (k o1 (Koa.Threw Util.multiple_calls)) (Util.dispatch rest outer i) st1)
  /\ (forall o fr x c,
      Util.compose_frame middlewares outer s = (o, ((fr, x), c)) ->
      NoDup (Util.entered fr) /\ Util.outer_calls fr <= 1)
  /\ match middlewares with
     | route :: rest =>
         Util.compose_frame middlewares outer s
         = Koa.run route (Util.dispatch rest outer 1)
             ((Util.mkFrame 0 [0%Z] 0, s.1), s.2)
     | [] => Util.compose middlewares outer s = outer s
     end.
Proof.
  repeat split.
  - intros rest i st o st' st'' Hd Hle.
    apply dispatch_again. apply dispatch_index_reached in Hd. lia.
  - intros rest i st k. simpl.
    destruct (Util.dispatch rest outer i st) as [o1 st1] eqn:Hd.
    rewrite (dispatch_again rest outer i st1)
      by (eapply dispatch_index_reached; eauto).
    reflexivity.
  - pose proof (dispatch_frame_step middlewares outer 0 _ _ _ H) as [_ Hinv].
    unfold frame_of in Hinv. simpl in Hinv.
    destruct Hinv as (Hnd & _ & _); [|exact Hnd].
    repeat split; simpl; [constructor | intros j Hj; inversion Hj | left; reflexivity].
  - pose proof (dispatch_frame_step middlewares outer 0 _ _ _ H) as [_ Hinv].
    unfold frame_of in Hinv. simpl in Hinv.
    destruct Hinv as (_ & _ & [-> | [-> _]]); [|lia..].
    repeat split; simpl; [constructor | intros j Hj; inversion Hj | left; reflexivity].
  - destruct middlewares as [|route rest].
    + unfold Util.compose, Util.compose_frame. simpl. unfold Util.lift_outer. simpl.
      destruct s as [x c]. simpl. destruct (outer (x, c)) as [o [x1 c1]]. reflexivity.
    + reflexivity.
Qed.


(** ** The site router *)

Lemma existsb_eqb_In (h : string) (l : list string) :
  existsb (String.eqb h) l = true <-> In h l.
Proof.
  rewrite existsb_exists. split.
  - intros (x & Hin & Heq). apply String.eqb_eq in Heq. subst. exact Hin.
  - intros Hin. exists h. split; [exact Hin | apply String.eqb_refl].
Qed.

(** What each kind of pattern matches. *)
Lemma match_string (p h : string) :
  SiteRouter.match_ (Koa.SiteString p) h = true <-> p = "*" \/ p = h.
Proof.
  simpl. destruct (String.eqb p "*") eqn:Hstar.
  - apply String.eqb_eq in Hstar. tauto.
  - rewrite String.eqb_eq. apply String.eqb_neq in Hstar. tauto.
Qed.

Lemma match_array (l : list string) (h : string) :
  SiteRouter.match_ (Koa.SiteArray l) h = true <-> In h l.
Proof. apply existsb_eqb_In. Qed.


Section SiteRouterProps.
Import Koa.
Context {X : Type}.
Variable routes : list (PathRouter.Verb * string * (Cont Ctx X -> Cont Ctx X)) ->
                  Cont Ctx X -> Cont Ctx X.
Variable domainToUnicode : string -> string.



End SiteRouterProps.

(** An expression with the [g] flag in front of a catch-all site: of
    two identical requests for [www.example.com] the first goes to the
    site of the expression, whose [lastIndex] is then behind the match,
    and the second to the catch-all. *)
Example site_router_global_flag :
  let routes : list (PathRouter.Verb * string * (Koa.Cont Koa.Ctx unit -> Koa.Cont Koa.Ctx unit)) ->
               Koa.Cont Koa.Ctx unit -> Koa.Cont Koa.Ctx unit := fun _ next => next in
  let any := Koa.SiteString "*" in
  let sr := SiteRouter.mk [(Koa.SiteRegExp example_global, PathRouter.new any);
                           (any, PathRouter.new any)] in
  let first := SiteRouter.process routes (fun h => h) sr Sample.fall_through (tt, Sample.ctx) in
  let second := SiteRouter.process routes (fun h => h) first.2 Sample.fall_through
                  (tt, Sample.ctx) in
  Koa.site first.1.2.2 = Some (Koa.SiteRegExp (Koa.set_lastIndex 11 example_global))
  /\ Koa.site second.1.2.2 = Some any
  /\ second.2 = sr.
Proof. vm_compute. repeat split. Qed.



(** ** Rewrites *)

Lemma prefix_dollar (a : ascii) (t : string) :
  String.prefix "$" (String a t) = Ascii.eqb a "$".
Proof.
  cbn -[ascii_dec]. destruct (ascii_dec "$" a) as [<- | Hne].
  - destruct t; reflexivity.
  - symmetry. apply Ascii.eqb_neq. congruence.
Qed.

(** A replacement text without a dollar stands for itself. *)
Lemma getSubstitution_literal (matched before after dest : string) :
  Js.includes "$" dest = false ->
  Js.getSubstitution matched before after dest = dest.
Proof.
  induction dest as [|a t IH]; intros Hno; [reflexivity|].
  cbn [Js.includes] in Hno. rewrite prefix_dollar in Hno.
  apply orb_false_elim in Hno as [Ha Ht].
  cbn [Js.getSubstitution]. rewrite Ha. f_equal. apply IH. exact Ht.
Qed.

(** The rewrite middleware calls the rest of the stack on the
    rewritten context and ends as that call ends. *)
Lemma rewrite_run {X : Type} (src dest : string) (next : Koa.Cont Koa.Ctx X)
    (s : X * Koa.Ctx) :
  Koa.run (PathRouter.rewrite src dest) next s = next (s.1, rewritten src dest s.2).
Proof.
  unfold rewritten. simpl. destruct (Koa.log s.2); simpl.
  - destruct (next _) as [[|t] s']; reflexivity.
  - destruct (next _) as [[|t] s']; reflexivity.
Qed.

(** C4, as the specification has it, fails: after the rewrite of
    [/old] to [/new] on the path [/old/x], with the rest of the stack
    falling through, the caller finds [ctx.path] at [/new/x], not at
    the path it had before. *)
Lemma rewrite_not_undone :
  let '(_, (_, after)) :=
    Koa.run (PathRouter.rewrite "/old" "/new") Sample.fall_through (tt, Sample.ctx) in
  Koa.path Sample.ctx = "/old/x" /\ Koa.path after = "/new/x" /\
  Koa.path after <> Koa.path Sample.ctx.
Proof. vm_compute. repeat split. discriminate. Qed.

(** C4, amended. For every rewrite rule and every request reaching the
    rewrite middleware: the rest of the stack is called exactly once,
    on a context whose path is the normalised result of
    [ctx.path.replace(src, dest)], and the middleware ends as that call
    ends, in the state that call leaves: nothing is restored. So when
    the rest of the stack falls through without touching the path, the
    caller finds the rewritten path. The replacement is that of the
    first occurrence of [src] by [dest] as it is written whenever
    [dest] contains no dollar sign. *)
Theorem rewrite_visible_downstream {X : Type} (src dest : string)
    (next : Koa.Cont Koa.Ctx X) (s : X * Koa.Ctx) :
  Koa.path (rewritten src dest s.2)
    = Path.normalize (Js.replace src dest (Koa.path s.2))
  /\ Koa.run (PathRouter.rewrite src dest) next s = next (s.1, rewritten src dest s.2)
  /\ Koa.run (PathRouter.rewrite src dest) Sample.fall_through s
     = (Koa.Returned, (s.1, rewritten src dest s.2))
  /\ (Js.includes "$" dest = false ->
      Js.replace src dest (Koa.path s.2)
      = match Js.find_first src (Koa.path s.2) with
        | Some (before, after) => before +:+ dest +:+ after
        | None => Koa.path s.2
        end).
Proof.
  repeat split.
  - unfold rewritten. simpl. destruct (Koa.log s.2); reflexivity.
  - apply rewrite_run.
  - rewrite rewrite_run. reflexivity.
  - intros Hno. unfold Js.replace.
    destruct (Js.find_first src (Koa.path s.2)) as [[b r]|]; [|reflexivity].
    rewrite getSubstitution_literal by exact Hno. reflexivity.
Qed.


(** ** The configuration binder *)

Section BinderProps.
Import Koa.
Variable SiteConf : Type.
Variable newRegExp : string -> string -> Js.Thrown + RegExp.
Variable installRoutes : SiteLike -> SiteConf -> PathRouter.t -> Outcome * PathRouter.t.

(** A key no entry of the map is equal to goes to the end. *)
Lemma fresh_key site (l : list (SiteLike * PathRouter.t)) :
  Forall (fun e => SiteRouter.same_key e.1 site = false) l ->
  Router.position site l = length l /\
  SiteRouter.map_get site l = None /\
  forall pr, SiteRouter.map_set site pr l = l ++ [(site, pr)].
Proof.
  induction l as [|[k v] l IH]; intros Hall.
  - repeat split.
  - inversion Hall as [|? ? Hk Hl]; subst. simpl in Hk.
    destruct (IH Hl) as (Hp & Hg & Hs). simpl. rewrite Hk.
    repeat split; [congruence | exact Hg | intros pr; rewrite Hs; reflexivity].
Qed.

(** A registered key is found where [position] says, and replacing the
    path router there changes no key. *)
Lemma known_key site (l : list (SiteLike * PathRouter.t)) pr :
  SiteRouter.map_get site l = Some pr ->
  forall pr',
    map fst (alter (fun kv => (kv.1, pr')) (Router.position site l) l) = map fst l /\
    SiteRouter.map_get site (alter (fun kv => (kv.1, pr')) (Router.position site l) l)
    = Some pr'.
Proof.
  induction l as [|[k v] l IH]; intros Hget pr'; [discriminate|].
  simpl in *. destruct (SiteRouter.same_key k site) eqn:Hk.
  - simpl. rewrite Hk. split; reflexivity.
  - simpl. rewrite Hk. destruct (IH Hget pr') as [Hkeys Hpr].
    split; [f_equal; exact Hkeys | exact Hpr].
Qed.

Lemma alter_last (l : list (SiteLike * PathRouter.t)) site pr pr' :
  alter (fun kv => (kv.1, pr')) (length l) (l ++ [(site, pr)]) = l ++ [(site, pr')].
Proof. induction l as [|e l IH]; simpl; [reflexivity | f_equal; exact IH]. Qed.

(** Two arrays are never the same key: an array key is always new. *)
Lemma array_key_fresh (items : list string) (l : list (SiteLike * PathRouter.t)) :
  Forall (fun e => SiteRouter.same_key e.1 (SiteArray items) = false) l.
Proof.
  apply Forall_forall. intros [k v] _. destruct k; reflexivity.
Qed.

(** Binding one key whose site, once resolved, is [site]. *)
Lemma parseSiteConfig_resolved site0 site sconf sr :
  Router.resolveSite newRegExp site0 = inr site ->
  Router.parseSiteConfig SiteConf newRegExp installRoutes site0 sconf sr
  = match SiteRouter.map_get site (SiteRouter.sites sr) with
    | Some pr =>
        let '(o, router) := installRoutes site sconf pr in
        (o, Router.write_back (Router.position site (SiteRouter.sites sr)) router sr)
    | None =>
        let '(o, router) := installRoutes site sconf (PathRouter.new site) in
        (o, Router.write_back (Router.position site (SiteRouter.sites sr)) router
              (SiteRouter.use site (PathRouter.new site) sr))
    end.
Proof.
  intros Hres. unfold Router.parseSiteConfig. rewrite Hres.
  unfold SiteRouter.get.
  destruct (SiteRouter.map_get site (SiteRouter.sites sr)); reflexivity.
Qed.

Lemma use_one key sconf sr :
  Router.use SiteConf newRegExp installRoutes [(key, Some sconf)] sr
  = Router.parseSiteConfig SiteConf newRegExp installRoutes (Util.strArray key) sconf sr.
Proof.
  simpl. destruct (Router.parseSiteConfig _ _ _ _ _ _) as [[|e] sr']; reflexivity.
Qed.

Lemma bind_list_key key sconf sr :
  Js.includes "," key = true ->
  let site := SiteArray (Js.split "," key) in
  Router.use SiteConf newRegExp installRoutes [(key, Some sconf)] sr
  = let '(o, router) := installRoutes site sconf (PathRouter.new site) in
    (o, SiteRouter.mk (SiteRouter.sites sr ++ [(site, router)])).
Proof.
  intros Hcomma site. rewrite use_one. unfold Util.strArray. rewrite Hcomma.
  fold site. rewrite (parseSiteConfig_resolved _ site) by reflexivity.
  destruct (fresh_key site (SiteRouter.sites sr) (array_key_fresh _ _))
    as (Hpos & Hget & Hset).
  rewrite Hget, Hpos.
  destruct (installRoutes site sconf (PathRouter.new site)) as [o router].
  unfold Router.write_back, SiteRouter.use. simpl. rewrite Hset, alter_last. reflexivity.
Qed.

Lemma map_get_none_fresh site (l : list (SiteLike * PathRouter.t)) :
  SiteRouter.map_get site l = None ->
  Forall (fun e => SiteRouter.same_key e.1 site = false) l.
Proof.
  induction l as [|[k v] l IH]; intros Hget; [constructor|].
  simpl in Hget. destruct (SiteRouter.same_key k site) eqn:Hk; [discriminate|].
  constructor; [exact Hk | apply IH; exact Hget].
Qed.

Lemma bind_string_key key sconf sr :
  Js.includes "," key = false ->
  Js.startsWith "/" key = false ->
  let site := SiteString key in
  exists o router sr',
    Router.use SiteConf newRegExp installRoutes [(key, Some sconf)] sr = (o, sr') /\
    installRoutes site sconf
      (default (PathRouter.new site) (SiteRouter.map_get site (SiteRouter.sites sr)))
    = (o, router) /\
    SiteRouter.map_get site (SiteRouter.sites sr') = Some router /\
    map fst (SiteRouter.sites sr')
    = map fst (SiteRouter.sites sr)
      ++ match SiteRouter.map_get site (SiteRouter.sites sr) with
         | Some _ => []
         | None => [site]
         end.
Proof.
  intros Hcomma Hslash site. rewrite use_one. unfold Util.strArray. rewrite Hcomma.
  fold site. rewrite (parseSiteConfig_resolved _ site)
    by (unfold site; simpl; rewrite Hslash; reflexivity).
  destruct (SiteRouter.map_get site (SiteRouter.sites sr)) as [pr|] eqn:Hget; simpl.
  - destruct (installRoutes site sconf pr) as [o router].
    exists o, router,
      (Router.write_back (Router.position site (SiteRouter.sites sr)) router sr).
    destruct (known_key site _ pr Hget router) as [Hkeys Hpr].
    repeat split; [exact Hpr | simpl; rewrite Hkeys, app_nil_r; reflexivity].
  - destruct (installRoutes site sconf (PathRouter.new site)) as [o router].
    destruct (fresh_key site _ (map_get_none_fresh _ _ Hget)) as (Hpos & _ & Hset).
    exists o, router, (SiteRouter.mk (SiteRouter.sites sr ++ [(site, router)])).
    repeat split.
    + unfold Router.write_back, SiteRouter.use. simpl.
      rewrite Hpos, Hset, alter_last. reflexivity.
    + simpl. clear Hpos Hset.
      induction (SiteRouter.sites sr) as [|[k v] l IH]; simpl.
      * rewrite String.eqb_refl. reflexivity.
      * simpl in Hget. destruct (SiteRouter.same_key k site); [discriminate|].
        apply IH. exact Hget.
    + simpl. rewrite map_app. reflexivity.
Qed.

End BinderProps.

(** C10, as stated, fails on a key that starts with a slash and is not
    closed by one: [/abc] has no comma and is not wrapped in slashes,
    yet it is not registered as a string pattern: binding it throws
    'Invalid regular expression path.' and registers nothing. *)
Lemma host_key_unclosed_slash :
  Js.includes "," "/abc" = false /\
  wrapped_in_slashes "/abc" = false /\
  Router.use unit sample_newRegExp sample_installRoutes [("/abc", Some tt)] SiteRouter.new
  = (Koa.Threw (Js.newError "Invalid regular expression path."), SiteRouter.new).
Proof. vm_compute. repeat split. Qed.

(** The binder on a comma key and on a plain key. *)
Example bind_two_keys :
  SiteRouter.sites
    (Router.use unit sample_newRegExp sample_installRoutes
       [("a.example.com,b.example.com", Some tt); ("*", Some tt)] SiteRouter.new).2
  = [(Koa.SiteArray ["a.example.com"; "b.example.com"],
      PathRouter.new (Koa.SiteArray ["a.example.com"; "b.example.com"]));
     (Koa.SiteString "*", PathRouter.new (Koa.SiteString "*"))].
Proof. reflexivity. Qed.

(** C10, amended. For every host key of the routes configuration that
    comes with a site configuration: (a) when the key contains a comma,
    the binder registers, after the entries already there, the list of
    its comma-separated items as the pattern of a new path router, and
    this pattern matches a host name exactly when the host name is one
    of the items; (b) when the key contains no comma and does not start
    with a slash, the binder registers the key itself as a string
    pattern, on the path router already registered under that string
    or else on a new one placed last, leaving the other keys as they
    were; this pattern matches a host name equal to the key, and every
    host name when the key is ["*"]. *)
Theorem host_key_patterns (SiteConf : Type)
    (newRegExp : string -> string -> Js.Thrown + Koa.RegExp)
    (installRoutes : Koa.SiteLike -> SiteConf -> PathRouter.t -> Koa.Outcome * PathRouter.t)
    (key : string) (sconf : SiteConf) (sr : SiteRouter.t) :
  (Js.includes "," key = true ->
   let site := Koa.SiteArray (Js.split "," key) in
   Router.use SiteConf newRegExp installRoutes [(key, Some sconf)] sr
   = (let '(o, router) := installRoutes site sconf (PathRouter.new site) in
      (o, SiteRouter.mk (SiteRouter.sites sr ++ [(site, router)])))
   /\ forall hostname,
        SiteRouter.match_ site hostname = true <-> In hostname (Js.split "," key))
  /\ (Js.includes "," key = false ->
      Js.startsWith "/" key = false ->
      let site := Koa.SiteString key in
      (exists o router sr',
          Router.use SiteConf newRegExp installRoutes [(key, Some sconf)] sr = (o, sr') /\
          installRoutes site sconf
            (default (PathRouter.new site) (SiteRouter.map_get site (SiteRouter.sites sr)))
          = (o, router) /\
          SiteRouter.map_get site (SiteRouter.sites sr') = Some router /\
          map fst (SiteRouter.sites sr')
          = map fst (SiteRouter.sites sr)
            ++ match SiteRouter.map_get site (SiteRouter.sites sr) with
               | Some _ => []
               | None => [site]
               end)
      /\ forall hostname,
           SiteRouter.match_ site hostname = true <-> key = "*" \/ key = hostname).
Proof.
  split.
  - intros Hcomma site. split.
    + apply bind_list_key. exact Hcomma.
    + intros hostname. apply match_array.
  - intros Hcomma Hslash site. split.
    + apply bind_string_key; assumption.
    + intros hostname. apply match_string.
Qed.


(** ** The reverse proxy *)

Lemma ws_await_connecting (pre rest : list Proxy.WsEvent) (e : Js.Thrown) n rc uc :
  forallb unheard pre = true ->
  Proxy.ws_await (Proxy.mkWs Proxy.Connecting Proxy.Pending n rc uc)
    (pre ++ Proxy.ReqError e :: rest) = Some (inl e).
Proof.
  induction pre as [|ev pre IH]; intros Hq.
  - simpl. destruct rest; reflexivity.
  - simpl in Hq. apply andb_true_iff in Hq as [Hev Hpre].
    destruct ev; try discriminate; simpl; apply IH; exact Hpre.
Qed.

(** An upstream error before [open] rejects the promise of
    [wsforward] with that error. *)
Lemma wsforward_fails_before_open (pre rest : list Proxy.WsEvent) (e : Js.Thrown) :
  forallb unheard pre = true ->
  Proxy.wsforward (pre ++ Proxy.ReqError e :: rest) = Some (inl e).
Proof. apply ws_await_connecting. Qed.

(** The proxy middleware on a WebSocket request whose session is
    rejected. *)
Lemma proxy_ws_failure_run {X : Type} transport sockets conf
    (next : Koa.Cont Koa.Ctx X) (s : X * Koa.Ctx) err :
  Koa.ws s.2 = true ->
  Koa.upgradable (Koa.req s.2) = true ->
  Proxy.websocket conf = true ->
  Proxy.wsforward (sockets (ws_url conf s.2)) = Some (inl err) ->
  Koa.run (Proxy.proxy transport sockets conf) next s = next (s.1, ws_failed conf err s.2).
Proof.
  intros Hws Hup Hconf Hfail. destruct s as [x ctx].
  cbn [fst snd] in *. unfold ws_failed. fold (ws_url conf ctx) in *.
  unfold Proxy.proxy. cbn [Koa.run fst snd].
  assert (Hrun : forall c : Koa.Ctx,
             Koa.ws c = true -> Koa.req c = Koa.req ctx ->
             Koa.run (Proxy.proxy_ws sockets (Proxy.target (Proxy.upstream conf) ctx))
               next (x, c)
             = next (x, let c2 := Koa.set_error err
                                    (Koa.set_status 200
                                       (Koa.set_body (Koa.BodyText "")
                                          (Koa.set_handler "ProxyWS" c))) in
                        if Koa.log c2 then
                          Koa.do_log (Koa.crit (Koa.loggers (Koa.req c2)) "ProxyWS-Failed")
                            ("to=" +:+ Koa.info (Koa.loggers (Koa.req c2))
                                         (Koa.href (ws_url conf ctx))) c2
                        else c2)).
  { intros c Hc Hreq. unfold Proxy.proxy_ws. cbn [Koa.run fst snd].
    fold (ws_url conf ctx). rewrite Hfail. cbn [Koa.run fst snd].
    cbn [Koa.log Koa.set_error Koa.set_status Koa.set_body Koa.set_handler].
    destruct (Koa.log c); cbn [Koa.run Koa.AwaitNext fst snd];
      destruct (next _) as [[|t] s']; reflexivity. }
  destruct (Proxy.nolog conf); cbn [Koa.run fst snd].
  - cbn [Koa.ws Koa.set_log Koa.req Koa.upgradable]. rewrite Hws, Hup, Hconf.
    cbn [andb]. apply Hrun; [exact Hws | reflexivity].
  - rewrite Hws, Hup, Hconf. cbn [andb]. apply Hrun; [exact Hws | reflexivity].
Qed.

(** C7, as stated, fails: on a WebSocket route whose upstream refuses
    the connection the proxy hands a context over to the rest of the
    stack with status 200, an empty body and the error recorded, but
    with the WebSocket flag still set. *)
Lemma proxy_ws_failure_keeps_flag :
  let '(o, (_, after)) :=
    Koa.run (Proxy.proxy no_transport refusing ws_conf) Sample.fall_through (tt, ws_ctx) in
  o = Koa.Returned /\ Koa.status after = 200%Z /\ Koa.body after = Koa.BodyText "" /\
  Koa.error after = Some refused /\ Koa.ws ws_ctx = true /\ Koa.ws after <> false.
Proof. vm_compute. repeat split. discriminate. Qed.

(** C7, amended. For every websocket-enabled proxy route and every
    upgrade request on it: if the upstream socket reports an error
    before its [open] event, the proxy middleware sets the handler name
    to ProxyWS, the body to the empty text, the status to 200 and the
    error attribute to that error, logs 'ProxyWS-Failed' with the
    upstream URL when logging is enabled (and the route does not
    silence it), leaves the WebSocket flag and the path as they were,
    and calls the continuation once, ending as that call ends. *)
Theorem proxy_ws_failure_falls_through {X : Type}
    (transport : Proxy.Sent -> Js.Thrown + Proxy.Response)
    (sockets : Koa.URL -> list Proxy.WsEvent)
    (conf : Proxy.ProxyOptions) (next : Koa.Cont Koa.Ctx X) (s : X * Koa.Ctx)
    (err : Js.Thrown) (pre rest : list Proxy.WsEvent) :
  Koa.ws s.2 = true ->
  Koa.upgradable (Koa.req s.2) = true ->
  Proxy.websocket conf = true ->
  sockets (ws_url conf s.2) = pre ++ Proxy.ReqError err :: rest ->
  forallb unheard pre = true ->
  let after := ws_failed conf err s.2 in
  let logging := Koa.log s.2 && negb (Proxy.nolog conf) in
  Koa.run (Proxy.proxy transport sockets conf) next s = next (s.1, after)
  /\ Koa.status after = 200%Z
  /\ Koa.body after = Koa.BodyText ""
  /\ Koa.error after = Some err
  /\ Koa.handler after = Some "ProxyWS"
  /\ Koa.log after = logging
  /\ Koa.logs after
     = Koa.logs s.2
       ++ (if logging then
             [(Koa.crit (Koa.loggers (Koa.req s.2)) "ProxyWS-Failed",
               "to=" +:+ Koa.info (Koa.loggers (Koa.req s.2)) (Koa.href (ws_url conf s.2)))]
           else [])
  /\ Koa.ws after = true
  /\ Koa.path after = Koa.path s.2.
Proof.
  intros Hws Hup Hconf Hsock Hpre after logging. split.
  - apply proxy_ws_failure_run; try assumption.
    rewrite Hsock. apply wsforward_fails_before_open. exact Hpre.
  - subst after logging. unfold ws_failed.
    destruct (Proxy.nolog conf), (Koa.log s.2) eqn:Hlog; simpl;
      rewrite ?Hlog; simpl; rewrite ?app_nil_r; repeat split; assumption.
Qed.

(** The upgrade request of the sample, its upstream refusing the
    connection: the rest of the stack gets the failed context. *)
Lemma proxy_ws_failure_falls_through_witness :
  Koa.run (Proxy.proxy no_transport refusing ws_conf) Sample.fall_through (tt, ws_ctx)
  = Sample.fall_through (tt, ws_failed ws_conf refused ws_ctx).
Proof.
  apply (proj1 (proxy_ws_failure_falls_through no_transport refusing ws_conf
                  Sample.fall_through (tt, ws_ctx) refused [] []
                  eq_refl eq_refl eq_refl eq_refl eq_refl)).
Defined.

(** With the default filter the client's [host] header is dropped, and
    the header the upstream receives is the host name of the target
    URL: [url.hostname], which carries no port. *)
Lemma request_host_header (url : Koa.URL) (client : gmap string string) :
  Proxy.request_headers url (Some (Util.filter client (Proxy.keep ["host"]))) !! "host"
  = Some (Koa.hostname url).
Proof.
  unfold Proxy.request_headers, Util.filter.
  rewrite lookup_union_r.
  - apply lookup_singleton_eq.
  - apply map_lookup_filter_None. right. intros v _ Hkeep. discriminate Hkeep.
Qed.

(** C9 on the code. Whatever the target URL and the client's headers,
    the [host] header of the upstream request is the host name of the
    target, without its port. So for [GET /api/x] proxied to
    [http://127.0.0.1:8080] the client sees the status 204, and its own
    [host] header is not forwarded, but the [host] header the upstream
    receives is [127.0.0.1], not the authority [127.0.0.1:8080] of the
    upstream. *)
Theorem proxy_host_header_drops_port :
  (forall (url : Koa.URL) (client : gmap string string),
      Proxy.request_headers url (Some (Util.filter client (Proxy.keep ["host"]))) !! "host"
      = Some (Koa.hostname url))
  /\ (forall (base : Koa.URL) (ctx : Koa.Ctx),
      Koa.hostname (Proxy.target base ctx) = Koa.hostname base)
  /\ Koa.host (Proxy.upstream api_conf) = "127.0.0.1:8080"
  /\ let '(o, (_, after)) :=
       Koa.run (Proxy.proxy reporting refusing api_conf) Sample.fall_through (tt, api_ctx) in
     o = Koa.Returned /\
     Koa.status after = 204%Z /\
     Koa.resHeaders after !! "x-received-host" = Some "127.0.0.1" /\
     Koa.resHeaders after !! "x-received-host" <> Some "127.0.0.1:8080".
Proof.
  split; [apply request_host_header|].
  split; [reflexivity|].
  vm_compute. repeat split. discriminate.
Qed.


(** ** The static file handler *)

Lemma under_refl (R : string) : under R R.
Proof.
  unfold under. induction R as [|a R IH]; [reflexivity|].
  cbn -[ascii_dec]. destruct (ascii_dec a a); [exact IH | congruence].
Qed.

Lemma under_app (R p suffix : string) : under R p -> under R (p +:+ suffix).
Proof.
  unfold under. revert p. induction R as [|a R IH]; intros p Hp.
  - destruct (p +:+ suffix); reflexivity.
  - destruct p as [|b p]; [discriminate|].
    change (String b p +:+ suffix) with (String b (p +:+ suffix)).
    cbn -[ascii_dec] in *. destruct (ascii_dec a b); [apply IH; exact Hp | discriminate].
Qed.

Section SendProps.
Import Koa Static.
Variable decodeURIComponent : string -> option string.
Variable resolve : string -> string.
Variable resolvePath : string -> string -> Js.Thrown + string.
Variable extname : string -> string.
Variable extname_without : string -> string -> string.
Variable mimeType : string -> option string.
Variable fs : FileSystem.

Lemma negotiate_under R p opts ctx :
  under R p ->
  let '(p', _, _, seen) := negotiate fs p opts ctx in
  under R p' /\ Forall (under R) seen.
Proof.
  intros Hp. unfold negotiate.
  repeat match goal with
         | |- context [if ?b then _ else _] => destruct b
         end;
    repeat split; repeat constructor; auto using under_app.
Qed.

Lemma first_extension_under R p exts :
  under R p ->
  under R (first_extension fs p exts).1 /\ Forall (under R) (first_extension fs p exts).2.
Proof.
  intros Hp. induction exts as [|ext exts IH]; simpl.
  - split; [exact Hp | constructor].
  - destruct (access fs _); simpl.
    + split; [|constructor; [|constructor]]; apply under_app; exact Hp.
    + destruct (first_extension fs p exts) as [p' seen]. simpl in *.
      destruct IH as [H1 H2]. split; [exact H1|].
      constructor; [apply under_app; exact Hp | exact H2].
Qed.

Lemma try_extensions_under R p opts :
  under R p ->
  under R (try_extensions fs p opts).1 /\ Forall (under R) (try_extensions fs p opts).2.
Proof.
  intros Hp. unfold try_extensions.
  destruct (extensions opts) as [exts|]; [|split; [exact Hp | constructor]].
  destruct (negb _); [apply first_extension_under; exact Hp | split; [exact Hp | constructor]].
Qed.

Lemma stat_path_under R p opts :
  under R p ->
  Forall (under R) (stat_path fs p opts).2 /\
  match (stat_path fs p opts).1 with
  | inr (IsFile p' _) => under R p'
  | inr (IsDirectory p') => under R p'
  | inl _ => True
  end.
Proof.
  intros Hp. unfold stat_path.
  destruct (stat fs p) as [err|stats]; simpl;
    [split; [repeat constructor; exact Hp | exact I]|].
  destruct (isDirectory stats); simpl; [|split; [repeat constructor; exact Hp | exact Hp]].
  destruct (if format opts then index opts else None) as [idx|]; simpl;
    [|split; [repeat constructor; exact Hp | exact Hp]].
  assert (Hidx : under R (p +:+ "/" +:+ idx)) by (apply under_app; exact Hp).
  destruct (stat fs _); simpl;
    (split; [repeat constructor; assumption | try exact I; assumption]).
Qed.

(** The body of a served response is the file, whole or in part. *)
Lemma respond_body p stats ctx :
  exists range, body (respond p stats ctx) = BodyFile p range.
Proof.
  unfold respond.
  destruct (headers (req ctx) !! "range") as [h|]; [|exists None; reflexivity].
  destruct (String.eqb h ""); [exists None; reflexivity|].
  destruct (parseRange h (size stats)) as [e|[s e]]; [exists None; reflexivity|].
  unfold createReadStream.
  destruct (_ && _)%bool; [exists (Some (s, e)) | exists None]; reflexivity.
Qed.

(** Everything [send] looks at is under the path it located, and the
    file it opens is the path of its result. *)
Lemma send_under R path opts ctx located :
  locate decodeURIComponent resolve resolvePath path opts = inr (R, located) ->
  under R located ->
  let '(result, seen, ctx') :=
    send decodeURIComponent resolve resolvePath extname extname_without mimeType fs
         path opts ctx in
  Forall (under R) seen /\
  match result with
  | inr r =>
      (forall p, result_path r = Some p -> under R p) /\
      (ok r = true ->
       exists p range, result_path r = Some p /\ body ctx' = BodyFile p range /\
                       last seen = Some p)
  | inl _ => True
  end.
Proof.
  intros Hloc Hunder. unfold send. rewrite Hloc.
  destruct (negb (hidden opts) && isHidden R located).
  { split; [constructor|]. split; [discriminate | discriminate]. }
  pose proof (negotiate_under R located opts ctx Hunder) as Hneg.
  destruct (negotiate fs located opts ctx) as [[[p1 ext] ctx1] seen1].
  destruct Hneg as [Hp1 Hseen1].
  pose proof (try_extensions_under R p1 opts Hp1) as [Hp2 Hseen2].
  destruct (try_extensions fs p1 opts) as [p2 seen2]. simpl in Hp2, Hseen2.
  pose proof (stat_path_under R p2 opts Hp2) as [Hseen3 Hp3].
  destruct (stat_path fs p2 opts) as [[e|[p3 stats|p3]] seen3]; simpl in Hseen3, Hp3.
  - split; [|exact I]. repeat (apply Forall_app; split); assumption.
  - split.
    + repeat (apply Forall_app; split); try assumption. repeat constructor. exact Hp3.
    + split.
      * intros p [= <-]. exact Hp3.
      * intros _.
        destruct (respond_body p3 stats
                    (describe extname extname_without mimeType p3 ext stats opts ctx1))
          as [range Hbody].
        exists p3, range. repeat split; [exact Hbody|].
        rewrite !app_assoc. apply last_snoc.
  - split; [repeat (apply Forall_app; split); assumption|].
    split; [intros p [= <-]; exact Hp3 | discriminate].
Qed.

End SendProps.

(** The sample resolver keeps what it accepts under the root. *)
Lemma sample_resolvePath_contained root p r :
  sample_resolvePath root p = inr r -> under root r.
Proof.
  unfold sample_resolvePath. destruct (_ || _); [discriminate|].
  intros [= <-]. apply under_app, under_refl.
Qed.

(** What holds of every request: with the [absolute] option not set
    and a path resolver whose results start with the root it is given,
    every path of the file system the handler looks at, the file it
    finally opens included, starts with the resolved root; a served
    request opens the path it reports; and a path the resolver refuses
    (with a 403 for an escape) is never looked up: [send] throws the
    resolver's error with the context untouched, and the middleware of
    [serve] throws it on without calling the rest of the stack when it
    is a 403. To start with the root is less than to be in it, as the
    root with a sibling file beside it shows below. *)
Lemma static_containment {X : Type}
    (decodeURIComponent : string -> option string) (resolve : string -> string)
    (resolvePath : string -> string -> Js.Thrown + string)
    (extname : string -> string) (extname_without : string -> string -> string)
    (mimeType : string -> option string) (fs : Static.FileSystem)
    (browse : string -> option string -> Koa.Ctx -> Koa.Outcome * Koa.Ctx)
    (path : string) (opts : Static.SendOptions) (ctx : Koa.Ctx) :
  (forall root p r, resolvePath root p = inr r -> under root r) ->
  Static.absolute opts = false ->
  let R := Static.root_of resolve opts in
  let '(result, seen, ctx') :=
    Static.send decodeURIComponent resolve resolvePath extname extname_without
      mimeType fs path opts ctx in
  Forall (under R) seen
  /\ (forall r, result = inr r -> Static.ok r = true ->
      exists p range,
        Static.result_path r = Some p /\ under R p /\
        Koa.body ctx' = Koa.BodyFile p range /\ last seen = Some p)
  /\ (forall p e,
      path <> "" ->
      Static.requested decodeURIComponent path opts = inr p ->
      resolvePath R p = inl e ->
      result = inl e /\ seen = [] /\ ctx' = ctx /\
      (Js.statusOf e = Some 403%Z ->
       forall options (next : Koa.Cont Koa.Ctx X) (x : X),
         Static.send_options options = opts ->
         Koa.path ctx = path ->
         Static.is_get_or_head ctx = true ->
         Koa.run (Static.serve decodeURIComponent resolve resolvePath extname
                    extname_without mimeType fs browse options) next (x, ctx)
         = (Koa.Threw e, (x, ctx)))).
Proof.
  intros contract Habs R.
  destruct (Static.send _ _ _ _ _ _ _ path opts ctx) as [[result seen] ctx'] eqn:Hsend.
  destruct (Static.locate decodeURIComponent resolve resolvePath path opts)
    as [e0|[R0 located]] eqn:Hloc.
  - (* nothing located: nothing looked at *)
    pose proof Hsend as Hsent.
    unfold Static.send in Hsend. rewrite Hloc in Hsend. inversion Hsend; subst.
    split; [constructor|]. split; [discriminate|].
    intros p e Hne Hreq Hres.
    unfold Static.locate in Hloc. apply String.eqb_neq in Hne. rewrite Hne, Hreq, Habs in Hloc.
    simpl in Hloc. fold R in Hloc. rewrite Hres in Hloc. inversion Hloc; subst.
    repeat split.
    intros H403 options next x Hopts Hpath Hget.
    unfold Static.serve. cbn [Koa.run fst snd]. rewrite Hget, Hopts, Hpath, Hsent.
    cbn [Koa.run fst snd].
    assert (Hs : Static.silenced e0 = false).
    { unfold Static.silenced. rewrite H403. apply andb_false_r. }
    rewrite Hs. reflexivity.
  - assert (HR : R0 = R /\ under R located).
    { unfold Static.locate in Hloc. destruct (String.eqb path ""); [discriminate|].
      destruct (Static.requested decodeURIComponent path opts) as [|p]; [discriminate|].
      rewrite Habs in Hloc. simpl in Hloc. fold R in Hloc.
      destruct (resolvePath R p) as [|r] eqn:Hres; [discriminate|].
      inversion Hloc; subst. split; [reflexivity | eapply contract; exact Hres]. }
    destruct HR as [-> Hunder].
    pose proof (send_under decodeURIComponent resolve resolvePath extname extname_without
                  mimeType fs R path opts ctx located Hloc Hunder) as Hsu.
    rewrite Hsend in Hsu. destruct Hsu as [Hseen Hres].
    split; [exact Hseen|]. split.
    + intros r -> Hok. destruct Hres as [Hp Hopen].
      destruct (Hopen Hok) as (p & range & Hrp & Hbody & Hlast).
      exists p, range. repeat split; auto.
    + intros p e Hne Hreq Hrefuse. exfalso.
      unfold Static.locate in Hloc. apply String.eqb_neq in Hne.
      rewrite Hne, Hreq, Habs in Hloc. simpl in Hloc. fold R in Hloc.
      rewrite Hrefuse in Hloc. discriminate.
Qed.

(** The request [GET /hello.txt] under the root [/var/www]: the file
    is looked up and opened under the root. *)
Lemma static_containment_witness :
  Forall (under "/var/www")
    (sample_send "/hello.txt" sample_options (get_request "/hello.txt" ∅ [])).1.2.
Proof.
  pose proof (static_containment (X := unit) sample_decode sample_resolve sample_resolvePath
                sample_extname sample_extname_without sample_mimeType sample_fs
                sample_browse "/hello.txt" sample_options (get_request "/hello.txt" ∅ [])
                sample_resolvePath_contained eq_refl) as H.
  unfold sample_send.
  destruct (Static.send _ _ _ _ _ _ _ _ _ _) as [[result seen] ctx'].
  exact (proj1 H).
Defined.

(** C2 on the code. The root is [/var/www], and beside it lies a file
    [/var/www.br]. The resolver does its part: it refuses a path that
    climbs out with a 403, and gives the root itself for the empty
    path, which is what is left of the request path [/]. But [send]
    then looks for the compressed variant by writing [.br] after the
    resolved path: for [GET /] from a client that accepts [br] it
    finds, stats and opens [/var/www.br], a file that is not in the
    root directory, sends it with [Content-Encoding: br] and reports
    success; no 403 is raised, and [serve] returns without calling the
    rest of the stack. *)
Theorem static_root_sibling_opened :
  let resolvePath := ResolvePath.resolvePath sample_resolve in
  let ctx := get_request "/" ∅ ["br"] in
  let '(result, seen, ctx') :=
    Static.send sample_decode sample_resolve resolvePath sample_extname
      sample_extname_without sample_mimeType sibling_fs "/" sample_options ctx in
  Static.root_of sample_resolve sample_options = "/var/www"
  /\ Js.statusOf
       match resolvePath "/var/www" "../etc/passwd" with
       | inl e => e
       | inr _ => Js.NonError ""
       end = Some 403%Z
  /\ resolvePath "/var/www" "" = inr "/var/www"
  /\ result = inr (Static.mkSendResult true (Some "/var/www.br") false)
  /\ last seen = Some "/var/www.br"
  /\ Koa.body ctx' = Koa.BodyFile "/var/www.br" None
  /\ Static.streamed sibling_fs (Koa.body ctx') = "SIBLING"
  /\ Koa.resHeaders ctx' !! "Content-Encoding" = Some "br"
  /\ contained "/var/www" "/var/www.br" = false
  /\ Koa.run (Static.serve sample_decode sample_resolve resolvePath sample_extname
                sample_extname_without sample_mimeType sibling_fs sample_browse
                missing_options)
       (fun s => (Koa.Threw (Js.NonError "next"), s)) (tt, ctx)
     = (Koa.Returned, (tt, ctx')).
Proof. vm_compute. repeat split. Qed.

(** *** Ranges *)

Lemma star_greedy_all (cls : ascii -> bool) (a b : string) k r :
  forallb cls (list_ascii_of_string a) = true ->
  match b with String c _ => cls c = false | EmptyString => True end ->
  k b = Some r ->
  Js.star_greedy cls (a +:+ b) k = Some r.
Proof.
  intros Ha Hb Hk. induction a as [|c a IH].
  - change ("" +:+ b) with b. destruct b as [|c b]; simpl; [exact Hk|].
    rewrite Hb. exact Hk.
  - simpl in Ha. apply andb_true_iff in Ha as [Hc Ha].
    change (String c a +:+ b) with (String c (a +:+ b)). simpl.
    rewrite Hc, (IH Ha). reflexivity.
Qed.

Lemma star_lazy_now (cls : ascii -> bool) (s : string) k r :
  k s = Some r -> Js.star_lazy cls s k = Some r.
Proof. intros Hk. destruct s; simpl; rewrite Hk; reflexivity. Qed.

Lemma length_app (a b : string) :
  String.length (a +:+ b) = String.length a + String.length b.
Proof.
  induction a as [|c a IH]; [reflexivity|].
  change (String c a +:+ b) with (String c (a +:+ b)). simpl. rewrite IH. reflexivity.
Qed.

Lemma consumed_app (a b : string) : Js.consumed (a +:+ b) b = a.
Proof.
  unfold Js.consumed.
  replace (String.length (a +:+ b) - String.length b) with (String.length a)
    by (rewrite length_app; lia).
  induction a as [|c a IH]; simpl.
  - destruct b; reflexivity.
  - change (String c a +:+ b) with (String c (a +:+ b)). simpl. f_equal. exact IH.
Qed.

Lemma consumed_all (a : string) : Js.consumed a "" = a.
Proof.
  pose proof (consumed_app a "") as H.
  replace (a +:+ "") with a in H; [exact H|].
  clear H. induction a as [|c a IH]; [reflexivity|].
  change (String c a +:+ "") with (String c (a +:+ "")). f_equal. exact IH.
Qed.

Lemma app_empty_r (a : string) : a +:+ "" = a.
Proof.
  induction a as [|c a IH]; [reflexivity|].
  change (String c a +:+ "") with (String c (a +:+ "")). f_equal. exact IH.
Qed.

Lemma digit_is_dot (c : ascii) : Js.is_digit c = true -> Js.is_dot c = true.
Proof.
  unfold Js.is_digit, Js.is_dot. intros H.
  apply andb_true_iff in H as [H1 _]. apply Nat.leb_le in H1.
  apply negb_true_iff, orb_false_iff.
  split; apply Nat.eqb_neq; lia.
Qed.

Lemma digits_are_dots (d : string) :
  digits d -> forallb Js.is_dot (list_ascii_of_string d) = true.
Proof.
  unfold digits. induction d as [|c d IH]; [reflexivity|].
  simpl. intros H. apply andb_true_iff in H as [Hc Hd].
  rewrite (digit_is_dot c Hc), (IH Hd). reflexivity.
Qed.

Lemma forallb_string_app (cls : ascii -> bool) (a b : string) :
  forallb cls (list_ascii_of_string (a +:+ b))
  = forallb cls (list_ascii_of_string a) && forallb cls (list_ascii_of_string b).
Proof.
  induction a as [|c a IH]; [reflexivity|].
  change (String c a +:+ b) with (String c (a +:+ b)). simpl.
  rewrite IH. apply andb_assoc.
Qed.

(** The range pattern on [<digits>-<digits>] captures the two runs of
    digits. *)
Lemma range_re_digits (d1 d2 : string) :
  digits d1 -> digits d2 ->
  Js.exec true Static.range_re (d1 +:+ "-" +:+ d2) = Some [d1; d2].
Proof.
  intros H1 H2. unfold Js.exec, Js.match_here, Static.range_re.
  cbn [Js.seq Js.match_re].
  apply star_lazy_now.
  apply star_greedy_all; [exact H1 | reflexivity |].
  cbn [Js.match_re]. change ("-" +:+ d2) with (String "-" d2).
  cbn [Ascii.eqb Bool.eqb].
  rewrite (consumed_app d1 (String "-" d2)).
  pose proof (star_greedy_all Js.is_digit d2 ""
                (fun s' => match s' with
                           | "" => Some (([] ++ [d1]) ++ [Js.consumed d2 s'])
                           | String _ _ => None
                           end) [d1; d2] H2 I) as Hd2.
  rewrite app_empty_r in Hd2. apply Hd2.
  rewrite consumed_all. reflexivity.
Qed.

(** The value pattern on [<unit>=<value>], the unit without an equals
    sign and the value without a line terminator, captures the
    value. *)
Lemma range_value_re_unit (u v : string) :
  forallb (fun c => negb (Ascii.eqb c "=")) (list_ascii_of_string u) = true ->
  forallb Js.is_dot (list_ascii_of_string v) = true ->
  Js.exec false Static.range_value_re (u +:+ "=" +:+ v) = Some [v].
Proof.
  intros Hu Hv. unfold Js.exec. induction u as [|c u IH].
  - change ("" +:+ "=" +:+ v) with (String "=" v).
    assert (Hm : Js.match_here Static.range_value_re (String "=" v) = Some [v]).
    { unfold Js.match_here, Static.range_value_re. cbn [Js.seq Js.match_re].
      cbn [Ascii.eqb Bool.eqb]. rewrite <- (app_empty_r v) at 1.
      apply star_greedy_all; [exact Hv | exact I |].
      cbn [Js.match_re]. rewrite consumed_all. reflexivity. }
    simpl Js.exec_from. rewrite Hm. reflexivity.
  - simpl in Hu. apply andb_true_iff in Hu as [Hc Hu].
    change (String c u +:+ "=" +:+ v) with (String c (u +:+ "=" +:+ v)).
    assert (Hm : Js.match_here Static.range_value_re (String c (u +:+ "=" +:+ v)) = None).
    { unfold Js.match_here, Static.range_value_re. cbn [Js.seq Js.match_re].
      apply negb_true_iff in Hc. rewrite Hc. reflexivity. }
    cbn [Js.exec_from]. rewrite Hm. apply IH. exact Hu.
Qed.

Lemma parseRange_unit (u d1 d2 : string) (size : Z) :
  forallb (fun c => negb (Ascii.eqb c "=")) (list_ascii_of_string u) = true ->
  digits d1 -> digits d2 ->
  Static.parseRange (u +:+ "=" +:+ d1 +:+ "-" +:+ d2) size = inr (range_of d1 d2 size).
Proof.
  intros Hu H1 H2. unfold Static.parseRange.
  rewrite (range_value_re_unit u (d1 +:+ "-" +:+ d2)); [|exact Hu|].
  - rewrite range_re_digits by assumption. unfold range_of.
    destruct (String.eqb d1 ""), (String.eqb d2 ""); reflexivity.
  - rewrite forallb_string_app. rewrite (digits_are_dots d1 H1).
    change ("-" +:+ d2) with (String "-" d2). simpl.
    rewrite (digits_are_dots d2 H2). reflexivity.
Qed.

(** Reading the response back after the assignments of the handler. *)
Lemma resHeaders_set k v c :
  Koa.resHeaders (Koa.set k v c) = <[k := v]> (Koa.resHeaders c).
Proof. reflexivity. Qed.

Lemma resHeaders_removeHeader k c :
  Koa.resHeaders (Koa.removeHeader k c) = delete k (Koa.resHeaders c).
Proof. reflexivity. Qed.

Lemma resHeaders_set_body b c : Koa.resHeaders (Koa.set_body b c) = Koa.resHeaders c.
Proof. reflexivity. Qed.

Lemma resHeaders_set_status n c : Koa.resHeaders (Koa.set_status n c) = Koa.resHeaders c.
Proof. reflexivity. Qed.

Lemma resHeaders_set_resHeaders h c : Koa.resHeaders (Koa.set_resHeaders h c) = h.
Proof. reflexivity. Qed.

Ltac response_headers :=
  repeat first [ rewrite resHeaders_set
               | rewrite resHeaders_removeHeader
               | rewrite resHeaders_set_body
               | rewrite resHeaders_set_status
               | rewrite resHeaders_set_resHeaders ];
  repeat first [ rewrite lookup_insert_ne by discriminate
               | rewrite lookup_delete_ne by discriminate
               | rewrite lookup_insert_eq ].

(** C6, as stated, fails when the start is beyond the end: the header
    [bytes=5-2] parses as [bytes=<start>-<end>], yet the response to it
    on a file of 10 bytes is the 416 one, with the whole file as its
    body: the read stream refuses the range inside the [try] block. *)
Lemma range_start_beyond_end :
  Static.parseRange "bytes=5-2" 10 = inr (5%Z, 2%Z) /\
  let '(result, _, after) :=
    sample_send "/hello.txt" sample_options
      (get_request "/hello.txt" {[ "range" := "bytes=5-2" ]} []) in
  result = inr (Static.mkSendResult true (Some "/var/www/hello.txt") false) /\
  Koa.status after = 416%Z /\
  Koa.status after <> 206%Z /\
  Koa.resHeaders after !! "Content-Range" = Some "bytes */10" /\
  Koa.body after = Koa.BodyFile "/var/www/hello.txt" None.
Proof. vm_compute. repeat split. discriminate. Qed.

(** A slice that lies in the text has the length asked for. *)
Lemma substring_in_length (n m : nat) (s : string) :
  n + m <= String.length s -> String.length (String.substring n m s) = m.
Proof.
  revert n m. induction s as [|c s IH]; intros n m H.
  - cbn in H. assert (n = 0) by lia. assert (m = 0) by lia. subst. reflexivity.
  - destruct n as [|n].
    + destruct m as [|m]; [reflexivity|].
      cbn [String.substring String.length]. f_equal. apply IH. cbn in H. lia.
    + cbn [String.substring]. destruct m; apply IH; cbn in H; lia.
Qed.

(** An end beyond the file is not cut back: [bytes=5-100] on a file of
    ten bytes is answered with [Content-Length: 96] and the five bytes
    from the fifth on. *)
Example range_end_beyond_file :
  let after :=
    Static.respond "/var/www/hello.txt"
      (Static.mkStats false 10 "Mon, 02 Nov 2026 12:00:00 GMT")
      (get_request "/hello.txt" {[ "range" := "bytes=5-100" ]} []) in
  Koa.status after = 206%Z /\
  Koa.resHeaders after !! "Content-Length" = Some "96" /\
  Static.streamed sample_fs (Koa.body after) = "56789".
Proof. vm_compute. repeat split. Qed.

(** C6, amended. For a file of size [S], read as [stat] saw it, and a
    request whose [Range] header is not empty, on a response that has
    no body yet: when the text after the first equals sign parses
    (word characters, then an optional run of digits, a dash, an
    optional run of digits, whatever the unit before the equals sign)
    to the ends [s] and [e], and [0 <= s <= e < S], the response has
    status 206, [Content-Range] [bytes s-e/S], [Content-Length]
    [e-s+1], and its body streams exactly the [e-s+1] bytes of the
    file from [s] to [e]; when the header does not parse, or parses to
    ends the read stream refuses ([s > e], or an end that is negative
    or above [2^53 - 1]), the response has status 416, [Content-Range]
    [bytes */S], [Content-Length] [S] and the whole file as its body.
    Nothing is said of an end at or beyond [S]. On
    [<unit>=<start>-<end>] with two runs of digits the ends are:
    [start] and [end]; with no [end], [start] and [S-1]; with no
    [start], [S-end] and [S-1]. *)
Theorem range_response (fs : Static.FileSystem) (path : string)
    (stats : Static.Stats) (ctx : Koa.Ctx) (rangeHeader : string) :
  Koa.headers (Koa.req ctx) !! "range" = Some rangeHeader ->
  rangeHeader <> "" ->
  Koa.body ctx = Koa.BodyNone ->
  Z.of_nat (String.length (Static.content fs path)) = Static.size stats ->
  let S := Static.size stats in
  let after := Static.respond path stats ctx in
  match Static.parseRange rangeHeader S with
  | inr (s, e) =>
      if readable s e then
        (e < S)%Z ->
        partial_content fs path S s e after
        /\ String.length (Static.streamed fs (Koa.body after)) = Z.to_nat (e - s + 1)
      else not_satisfiable fs path S after
  | inl _ => not_satisfiable fs path S after
  end
  /\ (forall u d1 d2,
      forallb (fun c => negb (Ascii.eqb c "=")) (list_ascii_of_string u) = true ->
      digits d1 -> digits d2 ->
      Static.parseRange (u +:+ "=" +:+ d1 +:+ "-" +:+ d2) S
      = inr (if String.eqb d1 "" then
               ((S - (if String.eqb d2 "" then S - 1 else Js.parseInt d2))%Z, (S - 1)%Z)
             else (Js.parseInt d1, if String.eqb d2 "" then (S - 1)%Z else Js.parseInt d2))).
Proof.
  intros Hh Hne _ Hsize S after. split.
  - subst after. unfold Static.respond. rewrite Hh.
    apply String.eqb_neq in Hne. rewrite Hne. fold S.
    destruct (Static.parseRange rangeHeader S) as [err|[s e]].
    + repeat split; response_headers; reflexivity.
    + unfold Static.createReadStream. fold (readable s e).
      destruct (readable s e) eqn:Hread;
        [|repeat split; response_headers; reflexivity].
      intros He. split; [repeat split; response_headers; reflexivity|].
      cbn [Koa.body Koa.set_body Static.streamed].
      unfold readable in Hread.
      repeat match type of Hread with
             | (_ && _)%bool = true => apply andb_true_iff in Hread as [Hread ?]
             end.
      apply substring_in_length. lia.
  - intros u d1 d2 Hu H1 H2. rewrite parseRange_unit by assumption.
    unfold range_of. destruct (String.eqb d1 ""); reflexivity.
Qed.

(** The last three bytes of a file of ten. *)
Lemma range_response_witness :
  partial_content sample_fs "/var/www/hello.txt" 10 7 9
    (Static.respond "/var/www/hello.txt"
       (Static.mkStats false 10 "Mon, 02 Nov 2026 12:00:00 GMT")
       (get_request "/hello.txt" {[ "range" := "bytes=-3" ]} [])).
Proof.
  refine (proj1 (proj1 (range_response sample_fs "/var/www/hello.txt"
                          (Static.mkStats false 10 "Mon, 02 Nov 2026 12:00:00 GMT")
                          (get_request "/hello.txt" {[ "range" := "bytes=-3" ]} [])
                          "bytes=-3" eq_refl _ eq_refl eq_refl) _)).
  - discriminate.
  - reflexivity.
Defined.

(** *** Encodings *)

Lemma split_no_sep (s : string) : no_sep s -> Js.split Path.sep s = [s].
Proof.
  unfold no_sep. induction s as [|c s IH]; intros H; [reflexivity|].
  simpl in H. apply andb_true_iff in H as [Hc Hs]. apply negb_true_iff in Hc.
  cbn [Js.split]. rewrite Hc, (IH Hs). reflexivity.
Qed.

(** Appending a suffix without a separator extends the last segment. *)
Lemma split_app_no_sep (p s : string) :
  no_sep s ->
  exists l x, Js.split Path.sep p = l ++ [x] /\ Js.split Path.sep (p +:+ s) = l ++ [x +:+ s].
Proof.
  intros Hs. induction p as [|c p IH].
  - exists [], "". split; [reflexivity | apply split_no_sep; exact Hs].
  - destruct IH as (l & x & Hp & Hps).
    change (String c p +:+ s) with (String c (p +:+ s)). cbn [Js.split].
    rewrite Hp, Hps. destruct (Ascii.eqb c Path.sep).
    + exists ("" :: l), x. split; reflexivity.
    + destruct l as [|h t].
      * exists [], (String c x). split; reflexivity.
      * exists (String c h :: t), x. split; reflexivity.
Qed.

Lemma includes_app_r (sub a b : string) :
  Js.includes sub b = true -> Js.includes sub (a +:+ b) = true.
Proof.
  intros Hb. induction a as [|c a IH]; [exact Hb|].
  change (String c a +:+ b) with (String c (a +:+ b)). cbn [Js.includes].
  rewrite IH. apply orb_true_r.
Qed.

(** The basename of a path with an encoding suffix has a dot, so the
    extension fallback leaves the path alone. *)
Lemma basename_suffix_has_dot (p : string) :
  Js.includes "." (Static.basename (p +:+ ".br")) = true.
Proof.
  destruct (split_app_no_sep p ".br" eq_refl) as (l & x & _ & Hps).
  unfold Static.basename. rewrite Hps, List.filter_app. cbn [List.filter].
  assert (Hne : negb (String.eqb (x +:+ ".br") "") = true).
  { destruct x; reflexivity. }
  rewrite Hne, List.last_last. apply includes_app_r. reflexivity.
Qed.

Lemma try_extensions_suffix (fs : Static.FileSystem) (p : string) opts :
  Static.try_extensions fs (p +:+ ".br") opts = (p +:+ ".br", []).
Proof.
  unfold Static.try_extensions. destruct (Static.extensions opts); [|reflexivity].
  rewrite basename_suffix_has_dot. reflexivity.
Qed.

(** The headers the range step leaves alone. *)
Lemma respond_keeps (k : string) p stats ctx :
  k <> "Content-Length" -> k <> "Content-Range" ->
  Koa.resHeaders (Static.respond p stats ctx) !! k = Koa.resHeaders ctx !! k.
Proof.
  intros H1 H2. unfold Static.respond.
  destruct (Koa.headers (Koa.req ctx) !! "range") as [h|].
  - destruct (String.eqb h "").
    + rewrite resHeaders_set_body, resHeaders_set. rewrite lookup_insert_ne by congruence.
      reflexivity.
    + destruct (Static.parseRange h (Static.size stats)) as [e|[s e]].
      * rewrite resHeaders_set_body, !resHeaders_set, resHeaders_set_status.
        rewrite !lookup_insert_ne by congruence. reflexivity.
      * destruct (Static.createReadStream p (Some (s, e)));
          rewrite ?resHeaders_set_body, ?resHeaders_set, ?resHeaders_set_status,
                  ?resHeaders_set, ?resHeaders_set_status;
          rewrite !lookup_insert_ne by congruence; reflexivity.
  - rewrite resHeaders_set_body, resHeaders_set. rewrite lookup_insert_ne by congruence.
    reflexivity.
Qed.

Section DescribeProps.
Variable extname : string -> string.
Variable extname_without : string -> string -> string.
Variable mimeType : string -> option string.

(** The header step leaves [Content-Encoding] as the negotiation set
    it, unless the hook changes it. *)
Lemma describe_keeps_encoding p ext stats opts ctx :
  hook_keeps "Content-Encoding" opts ->
  Koa.resHeaders (Static.describe extname extname_without mimeType p ext stats opts ctx)
    !! "Content-Encoding"
  = Koa.resHeaders ctx !! "Content-Encoding".
Proof.
  intros Hhook. unfold Static.describe.
  set (c0 := match Static.setHeaders opts with
             | Some hook => Koa.set_resHeaders (hook p stats (Koa.resHeaders ctx)) ctx
             | None => ctx
             end).
  assert (H0 : Koa.resHeaders c0 !! "Content-Encoding"
               = Koa.resHeaders ctx !! "Content-Encoding").
  { subst c0. destruct (Static.setHeaders opts) as [hook|] eqn:Hh; [|reflexivity].
    rewrite resHeaders_set_resHeaders. apply (Hhook hook Hh). }
  rewrite <- H0. clearbody c0.
  repeat match goal with
         | |- context [if ?b then _ else _] => destruct b
         | |- context [match mimeType ?x with _ => _ end] => destruct (mimeType x)
         end;
    response_headers; reflexivity.
Qed.

End DescribeProps.

(** C8, as stated, fails on a hidden path: for [/.well-known/a.txt]
    both compressed files exist, the client prefers [br] and [gzip]
    over [identity] and no option is disabled, yet with [hidden] not
    enabled the handler serves nothing: it looks at no file and reports
    the request as not handled. *)
Lemma hidden_path_not_served :
  let ctx := get_request "/.well-known/a.txt" ∅ ["br"; "gzip"] in
  Static.access sample_fs "/var/www/.well-known/a.txt.br" = true /\
  Static.access sample_fs "/var/www/.well-known/a.txt.gz" = true /\
  Koa.acceptsEncodings (Koa.req ctx) ["br"; "identity"] = Some "br" /\
  Koa.acceptsEncodings (Koa.req ctx) ["gzip"; "identity"] = Some "gzip" /\
  Static.brotli sample_options = true /\ Static.gzip sample_options = true /\
  sample_send "/.well-known/a.txt" sample_options ctx
  = (inr (Static.mkSendResult false None false), [], ctx).
Proof. vm_compute. repeat split. Qed.

(** C8, amended. For every request that [send] locates at a path [p]
    which it does not refuse as hidden (the [hidden] option is set or
    no segment of [p] below the root starts with a dot), such that the
    files [p.br] and [p.gz] exist, the client prefers [br] over
    [identity] and [gzip] over [identity], and neither option is
    disabled: the handler serves the file [p.br]: it checks, stats and
    opens [p.br] and nothing else, so the [gzip] branch is not taken,
    and [Content-Encoding] is [br] in the response unless a
    [setHeaders] hook changes it. *)
Theorem brotli_precedence
    (decodeURIComponent : string -> option string) (resolve : string -> string)
    (resolvePath : string -> string -> Js.Thrown + string)
    (extname : string -> string) (extname_without : string -> string -> string)
    (mimeType : string -> option string) (fs : Static.FileSystem)
    (path : string) (opts : Static.SendOptions) (ctx : Koa.Ctx)
    (R p : string) (stats : Static.Stats) :
  Static.locate decodeURIComponent resolve resolvePath path opts = inr (R, p) ->
  Static.hidden opts = true \/ Static.isHidden R p = false ->
  Koa.acceptsEncodings (Koa.req ctx) ["br"; "identity"] = Some "br" ->
  Koa.acceptsEncodings (Koa.req ctx) ["gzip"; "identity"] = Some "gzip" ->
  Static.brotli opts = true ->
  Static.gzip opts = true ->
  Static.access fs (p +:+ ".br") = true ->
  Static.access fs (p +:+ ".gz") = true ->
  Static.stat fs (p +:+ ".br") = inr stats ->
  Static.isDirectory stats = false ->
  let '(result, seen, after) :=
    Static.send decodeURIComponent resolve resolvePath extname extname_without
      mimeType fs path opts ctx in
  result = inr (Static.mkSendResult true (Some (p +:+ ".br")) false)
  /\ seen = [p +:+ ".br"; p +:+ ".br"; p +:+ ".br"]
  /\ (exists range, Koa.body after = Koa.BodyFile (p +:+ ".br") range)
  /\ (hook_keeps "Content-Encoding" opts ->
      Koa.resHeaders after !! "Content-Encoding" = Some "br").
Proof.
  intros Hloc Hhidden Hbr Hgz Hbrotli Hgzip Hbrfile Hgzfile Hstat Hfile.
  unfold Static.send. rewrite Hloc.
  assert (Hpass : negb (Static.hidden opts) && Static.isHidden R p = false).
  { destruct Hhidden as [-> | ->]; [reflexivity | apply andb_false_r]. }
  rewrite Hpass. unfold Static.negotiate. rewrite Hbr, Hbrotli, Hbrfile.
  cbn [String.eqb Ascii.eqb Bool.eqb andb].
  rewrite try_extensions_suffix. unfold Static.stat_path. rewrite Hstat, Hfile.
  repeat split.
  - apply respond_body.
  - intros Hhook. rewrite respond_keeps by discriminate.
    rewrite describe_keeps_encoding by exact Hhook.
    response_headers. reflexivity.
Qed.

(** The request [GET /hello.txt] from a client that lists [gzip]
    before [br]: the [.br] file is served. *)
Lemma brotli_precedence_witness :
  (sample_send "/hello.txt" sample_options
     (get_request "/hello.txt" ∅ ["gzip"; "br"])).1.1
  = inr (Static.mkSendResult true (Some "/var/www/hello.txt.br") false).
Proof.
  pose proof (brotli_precedence sample_decode sample_resolve sample_resolvePath
                sample_extname sample_extname_without sample_mimeType sample_fs
                "/hello.txt" sample_options (get_request "/hello.txt" ∅ ["gzip"; "br"])
                "/var/www" "/var/www/hello.txt"
                (Static.mkStats false 2 "Mon, 02 Nov 2026 12:00:00 GMT")
                eq_refl (or_intror eq_refl) eq_refl eq_refl eq_refl eq_refl
                eq_refl eq_refl eq_refl eq_refl) as H.
  unfold sample_send.
  destruct (Static.send _ _ _ _ _ _ _ _ _ _) as [[result seen] after].
  exact (proj1 H).
Defined.


(** ** The upgradable response *)

Section ResponseProps.
Import UpgradableResponse.
Variable getStatusText : Z -> Js.Thrown + string.

(** The header lines go out in the order of the headers. *)
Lemma write_lines_wire (lines : Headers) (r : t) :
  wire (fold_left (fun r kv => socket_write (kv.1 +:+ ": " +:+ kv.2 +:+ crlf) r) lines r)
  = wire r ++ map (fun kv => Written (kv.1 +:+ ": " +:+ kv.2 +:+ crlf)) lines.
Proof.
  revert r. induction lines as [|kv lines IH]; intros r; simpl.
  - rewrite app_nil_r. reflexivity.
  - rewrite IH. simpl. rewrite <- app_assoc. reflexivity.
Qed.

Lemma write_lines_keeps (lines : Headers) (r : t) :
  let r' := fold_left (fun r kv => socket_write (kv.1 +:+ ": " +:+ kv.2 +:+ crlf) r)
              lines r in
  upgraded r' = upgraded r /\ headers r' = headers r /\ statusCode r' = statusCode r /\
  statusMessage r' = statusMessage r /\ websocket r' = websocket r /\
  finished r' = finished r.
Proof.
  revert r. induction lines as [|kv lines IH]; intros r; simpl; [repeat split|].
  destruct (IH (socket_write (kv.1 +:+ ": " +:+ kv.2 +:+ crlf) r))
    as (H1 & H2 & H3 & H4 & H5 & H6).
  repeat split; assumption.
Qed.

(** A successful [writeHead] commits the headers. *)
Lemma writeHead_commits code message headers_arg r r' :
  writeHead getStatusText code message headers_arg r = inr r' -> headersSent r' = true.
Proof.
  unfold writeHead. destruct (headersSent r); [discriminate|].
  destruct (falsy headers_arg && falsy message); [discriminate|].
  destruct (match message with Text s => (headers_arg, s) | _ => _ end) as [h m].
  destruct h; try discriminate;
    (destruct (upgraded r); [intros [= <-]; reflexivity|];
     destruct (if String.eqb m "" then _ else _); [discriminate|];
     intros [= <-]; reflexivity).
Qed.

(** A successful write commits the headers. *)
Lemma write_commits chunk r r' :
  _write getStatusText chunk r = inr r' -> headersSent r' = true.
Proof.
  unfold _write. destruct (headersSent r) eqn:Hsent.
  - destruct (upgraded r), chunk; intros [= <-]; try exact Hsent.
    unfold close_websocket. destruct (websocket r) as [w|]; [|exact Hsent].
    destruct (readyState w =? 1)%Z; exact Hsent.
  - destruct (writeHead _ _ _ _ r) as [e|r1] eqn:Hhead; [discriminate|].
    apply writeHead_commits in Hhead.
    destruct (upgraded r1), chunk; intros [= <-]; try exact Hhead.
    unfold close_websocket. destruct (websocket r1) as [w|]; [|exact Hhead].
    destruct (readyState w =? 1)%Z; exact Hhead.
Qed.

(** No call takes the flag back. *)
Lemma step_keeps_sent r op r' :
  headersSent r = true -> step getStatusText r op = inr r' -> headersSent r' = true.
Proof.
  intros Hsent. destruct op; simpl.
  - apply write_commits.
  - unfold removeHeader. rewrite Hsent. discriminate.
  - unfold setHeader. rewrite Hsent. discriminate.
  - apply writeHead_commits.
  - unfold upgrade. rewrite Hsent. discriminate.
  - intros [= <-]. exact Hsent.
  - unfold finish. destruct (_write _ None r) as [e|r1] eqn:Hw; [discriminate|].
    apply write_commits in Hw. intros [= <-]. exact Hw.
  - intros [= <-]. exact Hsent.
  - intros [= <-]. exact Hsent.
Qed.

Lemma steps_keep_sent ops r :
  headersSent r = true -> headersSent (steps getStatusText r ops) = true.
Proof.
  revert r. induction ops as [|op ops IH]; intros r Hsent; [exact Hsent|].
  simpl. destruct (step getStatusText r op) as [e|r'] eqn:Hstep.
  - apply IH. exact Hsent.
  - apply IH. eapply step_keeps_sent; eauto.
Qed.

(** The first write of a response that was neither committed nor
    upgraded: the status line, the header lines, an empty line and the
    chunk, in this order. *)
Lemma first_write_wire data r reason :
  headersSent r = false -> upgraded r = false ->
  (if String.eqb (statusMessage r) "" then getStatusText (statusCode r)
   else inr (statusMessage r)) = inr reason ->
  exists r',
    _write getStatusText (Some data) r = inr r' /\
    wire r' = wire r
              ++ [Written ("HTTP/1.1 " +:+ pretty (statusCode r) +:+ " " +:+ reason +:+ crlf)]
              ++ map (fun kv => Written (kv.1 +:+ ": " +:+ kv.2 +:+ crlf)) (headers r)
              ++ [Written crlf; Written data].
Proof.
  intros Hsent Hup Hreason. unfold _write, writeHead. rewrite Hsent, Hup.
  cbn [falsy andb]. rewrite Hreason.
  eexists. split.
  - cbn [set_headersSent upgraded socket_write].
    pose proof (write_lines_keeps (headers r)
                  (socket_write
                     ("HTTP/1.1 " +:+ pretty (statusCode r) +:+ " " +:+ reason +:+ crlf) r))
      as (Hu & _).
    cbv zeta in Hu. rewrite Hu. cbn [socket_write upgraded]. rewrite Hup. reflexivity.
  - cbn [wire socket_write set_headersSent]. rewrite write_lines_wire.
    cbn [wire socket_write]. rewrite <- !app_assoc. reflexivity.
Qed.

End ResponseProps.

(** A response with two headers, written to once: what goes out, and
    what a later [setHeader] gets. *)
Example response_first_write :
  let status_text (code : Z) : Js.Thrown + string :=
    if (code =? 200)%Z then inr "OK" else inl (Js.newError "Status code does not exist") in
  let r0 := UpgradableResponse.new in
  let r1 := UpgradableResponse.steps status_text r0
              [UpgradableResponse.SetHeader "Content-Type" "text/plain";
               UpgradableResponse.SetHeader "Content-Length" "3";
               UpgradableResponse.Write (Some "hi!")] in
  UpgradableResponse.wire r1
  = [UpgradableResponse.Written ("HTTP/1.1 200 OK" +:+ UpgradableResponse.crlf);
     UpgradableResponse.Written ("Content-Type: text/plain" +:+ UpgradableResponse.crlf);
     UpgradableResponse.Written ("Content-Length: 3" +:+ UpgradableResponse.crlf);
     UpgradableResponse.Written UpgradableResponse.crlf;
     UpgradableResponse.Written "hi!"]
  /\ UpgradableResponse.headersSent r1 = true
  /\ UpgradableResponse.setHeader "X-Late" "1" r1 = inl UpgradableResponse.headers_sent.
Proof. vm_compute. repeat split. Qed.

(** C5. For every upgradable response: a body write that succeeds
    and a [writeHead] that succeeds leave [headersSent] true (the
    first write of a response not yet committed or upgraded puts the
    status line, the header lines and an empty line on the wire before
    the chunk); once [headersSent] is true, [setHeader],
    [removeHeader], [writeHead] and [upgrade] throw 'Headers have
    already been sent', and [headersSent] stays true through every
    later call and sequence of calls. *)
Theorem headers_sent_monotone (getStatusText : Z -> Js.Thrown + string)
    (r : UpgradableResponse.t) :
  (forall chunk r', UpgradableResponse._write getStatusText chunk r = inr r' ->
                    UpgradableResponse.headersSent r' = true)
  /\ (forall code message headers_arg r',
         UpgradableResponse.writeHead getStatusText code message headers_arg r = inr r' ->
         UpgradableResponse.headersSent r' = true)
  /\ (forall data reason,
         UpgradableResponse.headersSent r = false ->
         UpgradableResponse.upgraded r = false ->
         (if String.eqb (UpgradableResponse.statusMessage r) ""
          then getStatusText (UpgradableResponse.statusCode r)
          else inr (UpgradableResponse.statusMessage r)) = inr reason ->
         exists r',
           UpgradableResponse._write getStatusText (Some data) r = inr r' /\
           UpgradableResponse.wire r'
           = UpgradableResponse.wire r
             ++ [UpgradableResponse.Written
                   ("HTTP/1.1 " +:+ pretty (UpgradableResponse.statusCode r) +:+ " "
                    +:+ reason +:+ UpgradableResponse.crlf)]
             ++ map (fun kv => UpgradableResponse.Written
                                 (kv.1 +:+ ": " +:+ kv.2 +:+ UpgradableResponse.crlf))
                    (UpgradableResponse.headers r)
             ++ [UpgradableResponse.Written UpgradableResponse.crlf;
                 UpgradableResponse.Written data])
  /\ (UpgradableResponse.headersSent r = true ->
      (forall name value,
          UpgradableResponse.setHeader name value r = inl UpgradableResponse.headers_sent)
      /\ (forall name,
          UpgradableResponse.removeHeader name r = inl UpgradableResponse.headers_sent)
      /\ (forall code message headers_arg,
          UpgradableResponse.writeHead getStatusText code message headers_arg r
          = inl UpgradableResponse.headers_sent)
      /\ UpgradableResponse.upgrade r = inl UpgradableResponse.headers_sent
      /\ (forall op r', UpgradableResponse.step getStatusText r op = inr r' ->
                        UpgradableResponse.headersSent r' = true)
      /\ (forall ops,
          UpgradableResponse.headersSent (UpgradableResponse.steps getStatusText r ops) = true)).
Proof.
  split; [|split; [|split]].
  - intros chunk r'. apply write_commits.
  - intros code message headers_arg r'. apply writeHead_commits.
  - intros data reason. apply first_write_wire.
  - intros Hsent. repeat split.
    + intros name value. unfold UpgradableResponse.setHeader. rewrite Hsent. reflexivity.
    + intros name. unfold UpgradableResponse.removeHeader. rewrite Hsent. reflexivity.
    + intros code message headers_arg. unfold UpgradableResponse.writeHead.
      rewrite Hsent. reflexivity.
    + unfold UpgradableResponse.upgrade. rewrite Hsent. reflexivity.
    + intros op r'. apply step_keeps_sent. exact Hsent.
    + intros ops. apply steps_keep_sent. exact Hsent.
Qed.


(** ** Utilities *)


Lemma prefix_char (c a : ascii) (t : string) :
  String.prefix (String c "") (String a t) = Ascii.eqb a c.
Proof.
  cbn -[ascii_dec]. destruct (ascii_dec c a) as [<- | Hne].
  - destruct t; symmetry; apply Ascii.eqb_refl.
  - symmetry. apply Ascii.eqb_neq. congruence.
Qed.

Lemma includes_char (c a : ascii) (t : string) :
  Js.includes (String c "") (String a t) = Ascii.eqb a c || Js.includes (String c "") t.
Proof. cbn [Js.includes]. rewrite prefix_char. reflexivity. Qed.

Lemma split_not_nil (c : ascii) (s : string) : Js.split c s <> [].
Proof.
  induction s as [|a s IH]; [discriminate|].
  cbn [Js.split]. destruct (Ascii.eqb a c); [discriminate|].
  destruct (Js.split c s); [contradiction | discriminate].
Qed.

Lemma join_cons (sep x : string) (l : list string) :
  l <> [] -> Js.join sep (x :: l) = x +:+ sep +:+ Js.join sep l.
Proof. destruct l; [contradiction | reflexivity]. Qed.

(** Joining what [split] gives restores the text. *)
Lemma join_split (c : ascii) (s : string) :
  Js.join (String c "") (Js.split c s) = s.
Proof.
  induction s as [|a s IH]; [reflexivity|].
  cbn [Js.split]. pose proof (split_not_nil c s) as Hne.
  destruct (Ascii.eqb a c) eqn:Hac.
  - apply Ascii.eqb_eq in Hac. subst a.
    rewrite join_cons by exact Hne. rewrite IH. reflexivity.
  - destruct (Js.split c s) as [|h t]; [contradiction|].
    destruct t as [|h' t'].
    + cbn [Js.join] in *. rewrite IH. reflexivity.
    + rewrite join_cons by discriminate. rewrite join_cons in IH by discriminate.
      rewrite <- IH. reflexivity.
Qed.

Lemma split_items (c : ascii) (s : string) :
  Forall (fun x => Js.includes (String c "") x = false) (Js.split c s).
Proof.
  induction s as [|a s IH]; [repeat constructor|].
  cbn [Js.split]. destruct (Ascii.eqb a c) eqn:Hac.
  - constructor; [reflexivity | exact IH].
  - destruct (Js.split c s) as [|h t]; [repeat constructor|].
    + rewrite includes_char, Hac. reflexivity.
    + inversion IH as [|? ? Hh Ht]; subst. constructor; [|exact Ht].
      rewrite includes_char, Hac. exact Hh.
Qed.

Lemma split_length (c : ascii) (s : string) :
  Js.includes (String c "") s = true <-> 2 <= length (Js.split c s).
Proof.
  induction s as [|a s IH]; [cbn; split; [discriminate | lia]|].
  rewrite includes_char. cbn [Js.split].
  pose proof (split_not_nil c s) as Hne.
  destruct (Ascii.eqb a c) eqn:Hac.
  - destruct (Js.split c s); [contradiction|]. cbn. split; [lia | reflexivity].
  - cbn [orb]. rewrite IH. destruct (Js.split c s); [contradiction|]. reflexivity.
Qed.

(** X2. [Util.strArray] and the text it was given: a text without a
    comma comes back as it is; a text with a comma comes back as the
    list of its items, at least two, none of which contains a comma,
    and joining the items with commas gives the text again. *)
Theorem strArray_round_trip (str : string) :
  (Js.includes "," str = false -> Util.strArray str = Koa.SiteString str)
  /\ (Js.includes "," str = true ->
      exists items,
        Util.strArray str = Koa.SiteArray items /\
        Js.join "," items = str /\
        2 <= length items /\
        Forall (fun item => Js.includes "," item = false) items).
Proof.
  unfold Util.strArray. split; intros H; rewrite H; [reflexivity|].
  exists (Js.split "," str). repeat split.
  - apply join_split.
  - apply split_length. exact H.
  - apply split_items.
Qed.

Lemma filter_lookup {T : Type} (obj : gmap string T) (p : string -> bool) (k : string) :
  Util.filter obj p !! k = if p k then obj !! k else None.
Proof.
  unfold Util.filter. destruct (p k) eqn:Hp.
  - destruct (obj !! k) as [x|] eqn:Hx.
    + apply map_lookup_filter_Some. split; [exact Hx | exact Hp].
    + apply map_lookup_filter_None. left. exact Hx.
  - apply map_lookup_filter_None. right. intros x _ Hk. simpl in Hk. congruence.
Qed.

(** X3. [Util.filter] and [Util.filterReverse] split an object in two:
    the first has the entries whose key passes the predicate, the
    second the entries whose key does not; no key is in both, and
    together they are the object. *)
Theorem filter_partition {T : Type} (obj : gmap string T) (predicate : string -> bool) :
  (forall k, Util.filter obj predicate !! k = if predicate k then obj !! k else None)
  /\ (forall k, Util.filterReverse obj predicate !! k = if predicate k then None else obj !! k)
  /\ Util.filter obj predicate ∪ Util.filterReverse obj predicate = obj
  /\ Util.filter obj predicate ##ₘ Util.filterReverse obj predicate.
Proof.
  assert (Hrev : forall k,
             Util.filterReverse obj predicate !! k = if predicate k then None else obj !! k).
  { intros k. unfold Util.filterReverse. rewrite filter_lookup. destruct (predicate k); reflexivity. }
  repeat split.
  - apply filter_lookup.
  - exact Hrev.
  - apply map_eq. intros k. rewrite lookup_union, filter_lookup, Hrev.
    destruct (predicate k), (obj !! k); reflexivity.
  - apply map_disjoint_spec. intros k x y Hx Hy.
    rewrite filter_lookup in Hx. rewrite Hrev in Hy.
    destruct (predicate k); discriminate.
Qed.

(** *** Dotted quads *)

Lemma range_cases (lo hi a : ascii) :
  Rx.range lo hi a = true ->
  In a (map ascii_of_nat (seq (nat_of_ascii lo) (S (nat_of_ascii hi) - nat_of_ascii lo))).
Proof.
  unfold Rx.range. intros H. apply andb_true_iff in H as [H1 H2].
  apply Nat.leb_le in H1, H2.
  apply in_map_iff. exists (nat_of_ascii a). split; [apply ascii_nat_embedding|].
  apply in_seq. lia.
Qed.

Ltac enum_char H :=
  apply range_cases in H; vm_compute in H;
  repeat (destruct H as [H | H]; [subst | ]); try contradiction.

Lemma octet_sound (bol : bool) (s : string) (k : bool -> string -> bool) :
  Rx.matches Util.octet bol s k = true ->
  exists (n : N) (v : string), (n <= 255)%N /\ s = pretty n +:+ v /\ k false v = true.
Proof.
  unfold Util.octet. cbn [Rx.alt Rx.cat Rx.matches Rx.lit].
  intros H.
  destruct s as [|a s1]; [discriminate|].
  repeat (apply orb_true_iff in H as [H | H]).
  - apply andb_true_iff in H as [Ha Hk]. enum_char Ha.
    all: match goal with
         | |- exists n v, _ /\ String ?a ?w = _ /\ _ =>
             exists (N.of_nat (nat_of_ascii a - 48)), w;
             split; [vm_compute; discriminate | split; [reflexivity | exact Hk]]
         end.
  - apply andb_true_iff in H as [Ha H].
    destruct s1 as [|b s2]; [discriminate|].
    apply andb_true_iff in H as [Hb Hk].
    enum_char Ha; enum_char Hb.
    all: match goal with
         | |- exists n v, _ /\ String ?a (String ?b ?w) = _ /\ _ =>
             exists (N.of_nat (10 * (nat_of_ascii a - 48) + (nat_of_ascii b - 48))), w;
             split; [vm_compute; discriminate | split; [reflexivity | exact Hk]]
         end.
  - apply andb_true_iff in H as [Ha H].
    destruct s1 as [|b s2]; [discriminate|].
    apply andb_true_iff in H as [Hb H].
    destruct s2 as [|c s3]; [discriminate|].
    apply andb_true_iff in H as [Hc Hk].
    apply Ascii.eqb_eq in Ha. subst a.
    enum_char Hb; enum_char Hc.
    all: match goal with
         | |- exists n v, _ /\ String ?a (String ?b (String ?c ?w)) = _ /\ _ =>
             exists (N.of_nat (100 * (nat_of_ascii a - 48) + 10 * (nat_of_ascii b - 48)
                               + (nat_of_ascii c - 48))), w;
             split; [vm_compute; discriminate | split; [reflexivity | exact Hk]]
         end.
  - apply andb_true_iff in H as [Ha H].
    destruct s1 as [|b s2]; [discriminate|].
    apply andb_true_iff in H as [Hb H].
    destruct s2 as [|c s3]; [discriminate|].
    apply andb_true_iff in H as [Hc Hk].
    apply Ascii.eqb_eq in Ha. subst a.
    enum_char Hb; enum_char Hc.
    all: match goal with
         | |- exists n v, _ /\ String ?a (String ?b (String ?c ?w)) = _ /\ _ =>
             exists (N.of_nat (100 * (nat_of_ascii a - 48) + 10 * (nat_of_ascii b - 48)
                               + (nat_of_ascii c - 48))), w;
             split; [vm_compute; discriminate | split; [reflexivity | exact Hk]]
         end.
  - apply andb_true_iff in H as [Ha H].
    destruct s1 as [|b s2]; [discriminate|].
    apply andb_true_iff in H as [Hb H].
    destruct s2 as [|c s3]; [discriminate|].
    apply andb_true_iff in H as [Hc Hk].
    apply Ascii.eqb_eq in Ha, Hb. subst a b.
    enum_char Hc.
    all: match goal with
         | |- exists n v, _ /\ String ?a (String ?b (String ?c ?w)) = _ /\ _ =>
             exists (N.of_nat (100 * (nat_of_ascii a - 48) + 10 * (nat_of_ascii b - 48)
                               + (nat_of_ascii c - 48))), w;
             split; [vm_compute; discriminate | split; [reflexivity | exact Hk]]
         end.
Qed.

Lemma octet_complete (n : N) (bol : bool) (v : string) (k : bool -> string -> bool) :
  (n <= 255)%N -> k false v = true ->
  Rx.matches Util.octet bol (pretty n +:+ v) k = true.
Proof.
  intros Hn Hk.
  assert (Hin : In n (map N.of_nat (seq 0 256))).
  { apply in_map_iff. exists (N.to_nat n). split; [lia | apply in_seq; lia]. }
  clear Hn. vm_compute in Hin.
  repeat (destruct Hin as [Hin | Hin]; [subst n | ]); try contradiction.
  all: vm_compute (pretty _); unfold Util.octet;
    cbv [append Rx.alt Rx.cat Rx.matches Rx.lit];
    repeat first [ apply orb_true_iff; left; solve [rewrite Hk; vm_compute; reflexivity]
                 | apply orb_true_iff; right ];
    rewrite Hk; vm_compute; reflexivity.
Qed.

Lemma test_anchored (r : Rx.t) (s : string) :
  Rx.test (Rx.Cat Rx.Bol r) s = Rx.matches r true s (fun _ _ => true).
Proof.
  assert (Hno : forall s, Rx.test_from (Rx.Cat Rx.Bol r) false s = false).
  { intros s'. induction s' as [|a s' IH]; [reflexivity | exact IH]. }
  unfold Rx.test. destruct s as [|a s]; cbn [Rx.test_from Rx.matches andb].
  - apply orb_false_r.
  - rewrite Hno. apply orb_false_r.
Qed.

Lemma part_sound (bol : bool) (s : string) (k : bool -> string -> bool) :
  Rx.matches (Rx.Cat Util.octet (Rx.lit ".")) bol s k = true ->
  exists (n : N) (v : string),
    (n <= 255)%N /\ s = pretty n +:+ "." +:+ v /\ k false v = true.
Proof.
  cbn [Rx.matches]. intros H.
  apply octet_sound in H as (n & v & Hn & -> & Hk).
  cbn [Rx.lit Rx.matches] in Hk.
  destruct v as [|c v]; [discriminate|].
  apply andb_true_iff in Hk as [Hc Hk]. apply Ascii.eqb_eq in Hc. subst c.
  exists n, v. repeat split; assumption.
Qed.

Lemma part_complete (n : N) (bol : bool) (v : string) (k : bool -> string -> bool) :
  (n <= 255)%N -> k false v = true ->
  Rx.matches (Rx.Cat Util.octet (Rx.lit ".")) bol (pretty n +:+ "." +:+ v) k = true.
Proof.
  intros Hn Hk. cbn [Rx.matches]. apply octet_complete; [exact Hn|].
  cbn. exact Hk.
Qed.

(** X1. [Util.isIP] accepts exactly the dotted quads: a text passes if
    and only if it is four numbers from 0 to 255, written in decimal
    without a leading zero or sign, with a dot between them and nothing
    before, between or after. *)
Theorem isIP_dotted_quad (str : string) :
  Util.isIP str = true <->
  exists a b c d : N,
    (a <= 255 /\ b <= 255 /\ c <= 255 /\ d <= 255)%N /\
    str = pretty a +:+ "." +:+ pretty b +:+ "." +:+ pretty c +:+ "." +:+ pretty d.
Proof.
  unfold Util.isIP, Util.isIP_re. cbn [Rx.cat]. rewrite test_anchored. cbn [Rx.matches].
  split.
  - intros H.
    apply part_sound in H as (a & v1 & Ha & -> & H).
    apply part_sound in H as (b & v2 & Hb & -> & H).
    apply part_sound in H as (c & v3 & Hc & -> & H).
    apply octet_sound in H as (d & v4 & Hd & -> & H).
    destruct v4; [|discriminate].
    exists a, b, c, d. split; [auto|].
    rewrite app_empty_r. reflexivity.
  - intros (a & b & c & d & (Ha & Hb & Hc & Hd) & ->).
    apply part_complete; [exact Ha|].
    apply part_complete; [exact Hb|].
    apply part_complete; [exact Hc|].
    rewrite <- (app_empty_r (pretty d)).
    apply octet_complete; [exact Hd | reflexivity].
Qed.



(** ** Request statistics *)

Section StatisticsProps.
Import Statistics.

Lemma vaccum_from_drops now period i last :
  exists dropped,
    last = dropped ++ vaccum_from now period i last /\
    (StronglySorted Z.le last -> Forall (stale now period) dropped).
Proof.
  revert i. induction last as [|x shifted IH]; intros i.
  - exists []. split; [reflexivity | constructor].
  - cbn [vaccum_from].
    destruct ((x :: shifted) !! i) as [time|] eqn:Hi;
      [|exists []; split; [reflexivity | constructor]].
    destruct (period * 1000 <? now - time)%Z eqn:Hstale;
      [|exists []; split; [reflexivity | constructor]].
    destruct (IH (S i)) as (dropped & Heq & Hdropped).
    exists (x :: dropped). split; [cbn; f_equal; exact Heq|].
    intros Hsorted. inversion Hsorted as [|? ? Htail Hx]; subst.
    constructor; [|apply Hdropped; exact Htail].
    apply Z.ltb_lt in Hstale. unfold stale.
    destruct i as [|i]; cbn in Hi.
    + injection Hi as <-. exact Hstale.
    + apply list_elem_of_lookup_2 in Hi.
      rewrite Forall_forall in Hx. specialize (Hx _ Hi). lia.
Qed.

Lemma vaccum_from_length now period i last :
  length last - (length last - i + 1) / 2 <= length (vaccum_from now period i last)
  /\ (Forall (stale now period) last ->
      length (vaccum_from now period i last)
      = length last - (length last - i + 1) / 2).
Proof.
  revert i. induction last as [|x shifted IH]; intros i.
  - cbn. split; [lia | reflexivity].
  - cbn [vaccum_from].
    destruct ((x :: shifted) !! i) as [time|] eqn:Hi.
    + assert (Hlt : i < length (x :: shifted)) by (eapply lookup_lt_Some; exact Hi).
      cbn [length] in *.
      assert (Harith : S (length shifted) - (S (length shifted) - i + 1) / 2
                       = length shifted - (length shifted - S i + 1) / 2).
      { pose proof (Nat.div_mod_eq (S (length shifted) - i + 1) 2).
        pose proof (Nat.div_mod_eq (length shifted - S i + 1) 2).
        pose proof (Nat.mod_upper_bound (S (length shifted) - i + 1) 2).
        pose proof (Nat.mod_upper_bound (length shifted - S i + 1) 2).
        lia. }
      destruct (IH (S i)) as [Hle Heq].
      destruct (period * 1000 <? now - time)%Z eqn:Hstale.
      * rewrite Harith. split; [exact Hle|].
        intros Hall. apply Heq. inversion Hall; assumption.
      * cbn [length]. split; [lia|].
        intros Hall. exfalso. apply Z.ltb_ge in Hstale.
        apply list_elem_of_lookup_2 in Hi.
        rewrite Forall_forall in Hall. specialize (Hall _ Hi). unfold stale in Hall. lia.
    + apply lookup_ge_None in Hi. cbn [length] in *.
      replace (S (length shifted) - i + 1) with 1 by lia.
      cbn. split; [lia | intros _; lia].
Qed.

End StatisticsProps.

(** X4. [vaccumTime] only takes entries off the front of the list; when
    the times are in ascending order, every entry it takes off is
    older than the period: a request within the period is never
    dropped. *)
Theorem vaccumTime_drops_stale_prefix (now period : Z) (last : list Z) :
  exists dropped,
    last = dropped ++ Statistics.vaccumTime now period last /\
    (Sorted Z.le last -> Forall (stale now period) dropped).
Proof.
  destruct (vaccum_from_drops now period 0 last) as (dropped & Heq & Hstale).
  exists dropped. split; [exact Heq|].
  intros Hsorted. apply Hstale. apply Sorted_StronglySorted; [|exact Hsorted].
  intros x y z. apply Z.le_trans.
Qed.

(** X5. One call of [vaccumTime] takes off at most half of the entries,
    rounded up: the loop reads every second entry of the list as it
    was, since each [shift] moves the entries under the iterator. On a
    list whose entries are all older than the period, half of them,
    rounded down, stay. *)
Theorem vaccumTime_keeps_half (now period : Z) (last : list Z) :
  length last / 2 <= length (Statistics.vaccumTime now period last)
  /\ (Forall (stale now period) last ->
      length (Statistics.vaccumTime now period last) = length last / 2).
Proof.
  assert (Hhalf : length last - (length last - 0 + 1) / 2 = length last / 2).
  { pose proof (Nat.div_mod_eq (length last - 0 + 1) 2).
    pose proof (Nat.div_mod_eq (length last) 2).
    pose proof (Nat.mod_upper_bound (length last - 0 + 1) 2).
    pose proof (Nat.mod_upper_bound (length last) 2).
    lia. }
  destruct (vaccum_from_length now period 0 last) as [Hle Heq].
  unfold Statistics.vaccumTime. rewrite <- Hhalf. split; assumption.
Qed.

(** Ten requests, all older than a minute: five of them stay. *)
Example vaccumTime_ten_stale :
  Statistics.vaccumTime 100000 60 [1; 2; 3; 4; 5; 6; 7; 8; 9; 10]%Z
  = [6; 7; 8; 9; 10]%Z.
Proof. reflexivity. Qed.

Lemma recorded_windows toFixed2 times s :
  Statistics.count (recorded toFixed2 times s)
  = (Statistics.count s + Z.of_nat (length times))%Z /\
  Statistics.last1min (recorded toFixed2 times s)
  = fold_left (window_step 60) times (Statistics.last1min s) /\
  Statistics.last5min (recorded toFixed2 times s)
  = fold_left (window_step 300) times (Statistics.last5min s) /\
  Statistics.last15min (recorded toFixed2 times s)
  = fold_left (window_step 900) times (Statistics.last15min s).
Proof.
  revert s. induction times as [|now times IH]; intros s.
  - cbn. repeat split. lia.
  - unfold recorded in *. cbn [fold_left].
    destruct (IH (Statistics.record toFixed2 now s).2) as (H1 & H2 & H3 & H4).
    rewrite H1, H2, H3, H4.
    cbn [Statistics.record snd Statistics.count Statistics.last1min
         Statistics.last5min Statistics.last15min length].
    repeat split. lia.
Qed.

Lemma stale_mono now now' period time :
  (now <= now')%Z -> stale now period time -> stale now' period time.
Proof. unfold stale. lia. Qed.

(** The request just recorded stays. *)
Lemma vaccumTime_nonempty now period window :
  (0 <= period)%Z -> Statistics.vaccumTime now period (window ++ [now]) <> [].
Proof.
  intros Hp Hnil. destruct window as [|x window].
  - cbn in Hnil. replace (now - now)%Z with 0%Z in Hnil by lia.
    destruct (period * 1000 <? 0)%Z eqn:H; [apply Z.ltb_lt in H; lia | discriminate].
  - destruct (vaccum_from_length now period 0 ((x :: window) ++ [now])) as [Hle _].
    unfold Statistics.vaccumTime in Hnil.
    rewrite Hnil in Hle. cbn [length app] in Hle. rewrite List.length_app in Hle.
    cbn [length] in Hle.
    pose proof (Nat.div_mod_eq (S (length window + 1) - 0 + 1) 2).
    pose proof (Nat.mod_upper_bound (S (length window + 1) - 0 + 1) 2).
    lia.
Qed.

(** The invariant of a window: it is what is left of the history once
    a prefix of stale requests is taken off, and it ends with the
    latest request. *)
Lemma window_fold (period : Z) (times : list Z) :
  (0 <= period)%Z ->
  StronglySorted Z.le times ->
  exists dropped,
    times = dropped ++ fold_left (window_step period) times [] /\
    forall latest, last times = Some latest ->
      Forall (stale latest period) dropped /\
      last (fold_left (window_step period) times []) = Some latest.
Proof.
  intros Hp. induction times as [|now hist IH] using rev_ind; intros Hsorted.
  - exists []. split; [reflexivity|]. intros latest [=].
  - rewrite fold_left_app. cbn [fold_left].
    set (w := fold_left (window_step period) hist []) in *.
    assert (Hhist : StronglySorted Z.le hist).
    { apply StronglySorted_app_1_l in Hsorted. exact Hsorted. }
    destruct (IH Hhist) as (D & Hh & Hstale).
    change (window_step period w now)
      with (Statistics.vaccumTime now period (w ++ [now])).
    destruct (vaccum_from_drops now period 0 (w ++ [now])) as (D' & Hw & Hstale').
    fold (Statistics.vaccumTime now period (w ++ [now])) in Hw.
    exists (D ++ D'). split.
    + rewrite <- app_assoc, <- Hw, app_assoc, <- Hh. reflexivity.
    + intros latest Hlast. rewrite last_snoc in Hlast. injection Hlast as <-.
      split.
      * apply Forall_app. split.
        -- destruct (last hist) as [prev|] eqn:Hprev.
           ++ destruct (Hstale prev eq_refl) as [HD _].
              eapply Forall_impl; [exact HD|].
              intros t Ht. eapply stale_mono; [|exact Ht].
              apply last_Some in Hprev as [hist' ->].
              rewrite <- app_assoc in Hsorted. cbn in Hsorted.
              apply StronglySorted_app_1_r in Hsorted.
              inversion Hsorted as [|? ? _ Hall]; subst.
              rewrite Forall_forall in Hall. apply Hall. left.
           ++ apply last_None in Hprev. subst hist.
              destruct D; [constructor | discriminate].
        -- apply Hstale'. rewrite Hh in Hsorted. rewrite <- app_assoc in Hsorted.
           apply StronglySorted_app_1_r in Hsorted. exact Hsorted.
      * pose proof (vaccumTime_nonempty now period w Hp) as Hne.
        apply (f_equal last) in Hw. rewrite last_snoc in Hw.
        rewrite last_app in Hw.
        destruct (last (Statistics.vaccumTime now period (w ++ [now]))) as [y|] eqn:Hy.
        -- congruence.
        -- apply last_None in Hy. contradiction.
Qed.

(** X6. After requests recorded at times in ascending order, from new
    counters: [count] is their number, and each window is what is left
    of the list of times once a prefix is taken off, every entry of
    that prefix older than the window's period at the time of the
    latest request; the window ends with the latest request. So a
    window holds every request of its period, and possibly older
    ones. *)
Theorem record_windows (toFixed2 : Z -> Z -> string) (times : list Z) :
  Sorted Z.le times ->
  let s := recorded toFixed2 times Statistics.new in
  Statistics.count s = Z.of_nat (length times) /\
  Forall (fun '(period, window) =>
            exists dropped,
              times = dropped ++ window /\
              forall latest, last times = Some latest ->
                Forall (stale latest period) dropped /\ last window = Some latest)
         [(60%Z, Statistics.last1min s); (300%Z, Statistics.last5min s);
          (900%Z, Statistics.last15min s)].
Proof.
  intros Hsorted s.
  assert (Hstrong : StronglySorted Z.le times).
  { apply Sorted_StronglySorted; [|exact Hsorted]. intros x y z. apply Z.le_trans. }
  destruct (recorded_windows toFixed2 times Statistics.new) as (Hc & H1 & H5 & H15).
  fold s in Hc, H1, H5, H15. split; [rewrite Hc; reflexivity|].
  rewrite H1, H5, H15.
  repeat constructor; apply window_fold; try exact Hstrong; lia.
Qed.

(** Four requests, the first two more than a minute before the last. *)
Lemma record_windows_witness :
  Statistics.count (recorded (fun _ _ => "") [0; 1000; 70000; 71000]%Z Statistics.new) = 4%Z.
Proof.
  exact (proj1 (record_windows (fun _ _ => "") [0; 1000; 70000; 71000]%Z
                  ltac:(repeat constructor; lia))).
Defined.


(** ** The upgradable response: the header store and the upgrade *)

Section HeaderStore.
Import UpgradableResponse.

Lemma headers_get_set name value h :
  headers_get name (headers_set name value h) = Some value.
Proof.
  induction h as [|[k v] h IH]; cbn.
  - rewrite String.eqb_refl. reflexivity.
  - destruct (String.eqb k name) eqn:Hk; cbn; rewrite Hk; [reflexivity | exact IH].
Qed.

Lemma headers_get_set_ne name other value h :
  other <> name -> headers_get other (headers_set name value h) = headers_get other h.
Proof.
  intros Hne. induction h as [|[k v] h IH]; cbn.
  - apply String.eqb_neq in Hne. rewrite String.eqb_sym, Hne. reflexivity.
  - destruct (String.eqb k name) eqn:Hk; cbn.
    + apply String.eqb_eq in Hk. subst k.
      apply String.eqb_neq in Hne. rewrite String.eqb_sym, Hne. reflexivity.
    + destruct (String.eqb k other); [reflexivity | exact IH].
Qed.

Lemma headers_get_delete name h :
  headers_get name (headers_delete name h) = None.
Proof.
  induction h as [|[k v] h IH]; [reflexivity|].
  unfold headers_delete in *. cbn. destruct (String.eqb k name) eqn:Hk; cbn.
  - exact IH.
  - rewrite Hk. exact IH.
Qed.

Lemma headers_get_delete_ne name other h :
  other <> name -> headers_get other (headers_delete name h) = headers_get other h.
Proof.
  intros Hne. induction h as [|[k v] h IH]; [reflexivity|].
  unfold headers_delete in *. cbn. destruct (String.eqb k name) eqn:Hk; cbn.
  - apply String.eqb_eq in Hk. subst k.
    apply String.eqb_neq in Hne. rewrite String.eqb_sym, Hne. exact IH.
  - destruct (String.eqb k other); [reflexivity | exact IH].
Qed.

(** X7. The header store before the headers are sent, for a name that
    is not one every object inherits: a header that is set is read
    back; a header that is removed is gone; the other headers are as
    they were; nothing goes to the socket and the headers stay
    unsent. (Under an inherited name, [toString] for one, [getHeader]
    finds what [Object.prototype] has when the header is not set.) *)
Theorem header_store_round_trip (r : t) (name value : string) :
  ~ In name inherited_names ->
  headersSent r = false ->
  (exists r', setHeader name value r = inr r' /\
     getHeader name r' = Some value /\ hasHeader name r' = true /\
     (forall other, other <> name -> getHeader other r' = getHeader other r) /\
     wire r' = wire r /\ headersSent r' = false)
  /\ (exists r', removeHeader name r = inr r' /\
     getHeader name r' = None /\ hasHeader name r' = false /\
     (forall other, other <> name -> getHeader other r' = getHeader other r) /\
     wire r' = wire r /\ headersSent r' = false).
Proof.
  intros _ Hsent. unfold setHeader, removeHeader. rewrite Hsent. split.
  - eexists. split; [reflexivity|].
    unfold getHeader, hasHeader. cbn [headers set_headers wire headersSent].
    rewrite headers_get_set. repeat split; try assumption.
    intros other Hne. apply headers_get_set_ne. exact Hne.
  - eexists. split; [reflexivity|].
    unfold getHeader, hasHeader. cbn [headers set_headers wire headersSent].
    rewrite headers_get_delete. repeat split; try assumption.
    intros other Hne. apply headers_get_delete_ne. exact Hne.
Qed.

Lemma header_store_round_trip_witness :
  exists r', setHeader "Content-Type" "text/plain" new = inr r' /\
    getHeader "Content-Type" r' = Some "text/plain".
Proof.
  assert (Hown : ~ In "Content-Type" inherited_names).
  { cbn. intros H. repeat (destruct H as [H|H]; [discriminate H|]). exact H. }
  destruct (proj1 (header_store_round_trip new "Content-Type" "text/plain" Hown eq_refl))
    as (r' & Hset & Hget & _).
  exists r'. split; assumption.
Defined.

Section UpgradedProps.
Variable getStatusText : Z -> Js.Thrown + string.

Lemma upgraded_step r op r' :
  upgraded r = true -> step getStatusText r op = inr r' ->
  wire r' = wire r /\ upgraded r' = true.
Proof.
  intros Hup. destruct op; cbn [step].
  - unfold _write, writeHead. destruct (headersSent r).
    + rewrite Hup. destruct chunk; intros [= <-]; [auto|].
      unfold close_websocket. destruct (websocket r) as [w|]; [|auto].
      destruct (readyState w =? 1)%Z; auto.
    + cbn [falsy andb]. rewrite Hup. cbn [upgraded set_headersSent]. rewrite Hup.
      destruct chunk; intros [= <-]; [auto|].
      unfold close_websocket. cbn. destruct (websocket r) as [w|]; [|auto].
      destruct (readyState w =? 1)%Z; auto.
  - unfold removeHeader. destruct (headersSent r); [discriminate|]. intros [= <-]. auto.
  - unfold setHeader. destruct (headersSent r); [discriminate|]. intros [= <-]. auto.
  - unfold writeHead. destruct (headersSent r); [discriminate|].
    destruct (falsy headers_arg && falsy message); [discriminate|].
    destruct (match message with Text s => (headers_arg, s) | _ => _ end) as [h m].
    rewrite Hup. destruct h; try discriminate; intros [= <-]; auto.
  - unfold upgrade. destruct (headersSent r); [discriminate|]. intros [= <-]. auto.
  - intros [= <-]. auto.
  - unfold finish, _write, writeHead. destruct (headersSent r).
    + rewrite Hup. intros [= <-]. cbn.
      unfold close_websocket. destruct (websocket r) as [w|]; [|auto].
      destruct (readyState w =? 1)%Z; auto.
    + cbn [falsy andb]. rewrite Hup. cbn [upgraded set_headersSent]. rewrite Hup.
      intros [= <-]. unfold close_websocket. cbn. destruct (websocket r) as [w|]; [|auto].
      destruct (readyState w =? 1)%Z; auto.
  - intros [= <-]. auto.
  - intros [= <-]. auto.
Qed.

Lemma upgraded_steps ops r :
  upgraded r = true ->
  wire (steps getStatusText r ops) = wire r /\ upgraded (steps getStatusText r ops) = true.
Proof.
  revert r. induction ops as [|op ops IH]; intros r Hup; [auto|].
  cbn [steps]. destruct (step getStatusText r op) as [e|r'] eqn:Hstep.
  - apply IH. exact Hup.
  - destruct (upgraded_step r op r' Hup Hstep) as [Hw Hu].
    destruct (IH r' Hu) as [Hw' Hu']. split; [congruence | exact Hu'].
Qed.

Lemma upgraded_write chunk r :
  upgraded r = true -> exists r', _write getStatusText chunk r = inr r'.
Proof.
  intros Hup. unfold _write, writeHead. destruct (headersSent r).
  - rewrite Hup. destruct chunk; eexists; reflexivity.
  - cbn [falsy andb]. rewrite Hup. cbn [upgraded set_headersSent]. rewrite Hup.
    destruct chunk; eexists; reflexivity.
Qed.

End UpgradedProps.

(** X8. An upgraded response never writes to the socket: whatever is
    called on it, the bytes on the wire stay as they were and the
    response stays upgraded; a write always succeeds and commits the
    headers; and at the end of the stream the client WebSocket, when it
    is open, is closed with the code 1011 if the status is 500 and
    1000 otherwise. *)
Theorem upgraded_socket_silent (getStatusText : Z -> Js.Thrown + string) (r : t) :
  upgraded r = true ->
  (forall ops,
      wire (steps getStatusText r ops) = wire r /\
      upgraded (steps getStatusText r ops) = true)
  /\ (forall chunk, exists r',
        _write getStatusText chunk r = inr r' /\ headersSent r' = true)
  /\ (forall w, websocket r = Some w -> readyState w = 1%Z ->
      exists r',
        finish getStatusText r = inr r' /\ finished r' = true /\
        websocket r'
        = Some (mkWebSocket 2 (Some (if (statusCode r =? 500)%Z then 1011 else 1000)%Z))).
Proof.
  intros Hup. split; [|split].
  - intros ops. apply upgraded_steps. exact Hup.
  - intros chunk. destruct (upgraded_write getStatusText chunk r Hup) as [r' Hw].
    exists r'. split; [exact Hw|].
    unfold _write, writeHead in Hw. destruct (headersSent r) eqn:Hsent.
    + rewrite Hup in Hw. destruct chunk; injection Hw as <-; [exact Hsent|].
      unfold close_websocket. destruct (websocket r) as [w|]; [|exact Hsent].
      destruct (readyState w =? 1)%Z; exact Hsent.
    + cbn [falsy andb] in Hw. rewrite Hup in Hw. cbn [upgraded set_headersSent] in Hw.
      rewrite Hup in Hw. destruct chunk; injection Hw as <-; [reflexivity|].
      unfold close_websocket. cbn. destruct (websocket r) as [w|]; [|reflexivity].
      destruct (readyState w =? 1)%Z; reflexivity.
  - intros w Hw Hopen. unfold finish, _write, writeHead.
    destruct (headersSent r) eqn:Hsent.
    + rewrite Hup. eexists. split; [reflexivity|].
      unfold close_websocket. rewrite Hw, Hopen. cbn. split; reflexivity.
    + cbn [falsy andb]. rewrite Hup. cbn [upgraded set_headersSent]. rewrite Hup.
      eexists. split; [reflexivity|].
      unfold close_websocket. cbn. rewrite Hw, Hopen. cbn. split; reflexivity.
Qed.

Lemma upgraded_socket_silent_witness :
  upgraded upgraded_response = true
  /\ wire (steps sample_status_text upgraded_response
             [SetStatusCode 500; Write (Some "late"); Finish]) = []
  /\ exists r', finish sample_status_text upgraded_response = inr r' /\
        websocket r' = Some (mkWebSocket 2 (Some 1000%Z)).
Proof.
  destruct (upgraded_socket_silent sample_status_text upgraded_response eq_refl)
    as (Hsteps & _ & Hfinish).
  split; [reflexivity|]. split.
  - exact (proj1 (Hsteps [SetStatusCode 500; Write (Some "late"); Finish])).
  - destruct (Hfinish (mkWebSocket 1 None) eq_refl eq_refl) as (r' & Hf & _ & Hw).
    exists r'. split; assumption.
Defined.

End HeaderStore.


(** ** Routes, mounting and the map of sites *)

Section RouteProps.
Import Koa.


Lemma test_at_end (r : Rx.t) :
  (forall bol, Rx.matches r bol "" (fun _ _ => true) = true) ->
  forall s bol, Rx.test_from r bol s = true.
Proof.
  intros Hend s. induction s as [|a s IH]; intros bol; cbn [Rx.test_from].
  - rewrite Hend. reflexivity.
  - rewrite IH. apply orb_true_r.
Qed.

(** X9. The check of [resolveReqPath] never fails: its pattern matches
    every text, since the second alternative matches the empty text at
    the end; so [resolveReqPath] never throws and gives
    [path.join(base, path)] for every path, a pattern included. *)
Theorem resolveReqPath_accepts_all (base path : string) :
  Rx.test ExecutionContext.req_path_re path = true /\
  ExecutionContext.resolveReqPath base path = inr (Path.join base path).
Proof.
  assert (H : Rx.test ExecutionContext.req_path_re path = true).
  { apply test_at_end. intros bol. destruct bol; reflexivity. }
  split; [exact H|]. unfold ExecutionContext.resolveReqPath. rewrite H. reflexivity.
Qed.

(** *** Stacks of modules *)

Lemma lookup_push_stack path m stacks st :
  PathRouter.lookup_stack path stacks = Some st ->
  PathRouter.lookup_stack path (PathRouter.push_stack path m stacks) = Some (st ++ [m]).
Proof.
  induction stacks as [|[p st'] stacks IH]; [discriminate|].
  cbn. destruct (String.eqb p path) eqn:Hp; cbn; rewrite Hp.
  - intros [= ->]. reflexivity.
  - exact IH.
Qed.

Lemma lookup_new_stack path stacks :
  PathRouter.lookup_stack path stacks = None ->
  PathRouter.lookup_stack path (stacks ++ [(path, [])]) = Some [].
Proof.
  induction stacks as [|[p st'] stacks IH]; cbn.
  - rewrite String.eqb_refl. reflexivity.
  - destruct (String.eqb p path); [discriminate | exact IH].
Qed.

Lemma getStack_lookup path pr :
  PathRouter.lookup_stack path (PathRouter.stacks (PathRouter.getStack path pr))
  = Some (default [] (PathRouter.lookup_stack path (PathRouter.stacks pr))).
Proof.
  unfold PathRouter.getStack.
  destruct (PathRouter.lookup_stack path (PathRouter.stacks pr)) as [st|] eqn:Hst.
  - exact Hst.
  - cbn. apply lookup_new_stack. exact Hst.
Qed.

Lemma getStack_idem path pr :
  PathRouter.getStack path (PathRouter.getStack path pr) = PathRouter.getStack path pr.
Proof.
  unfold PathRouter.getStack at 1. rewrite getStack_lookup. reflexivity.
Qed.

(** Adding loaded modules to a path that has its stack. *)
Lemma addRoute_loaded path (ms : list (option (Mw Ctx))) pr st :
  PathRouter.lookup_stack path (PathRouter.stacks pr) = Some st ->
  exists pr',
    PathRouter.addRoute path (map inr ms) pr = (Returned, pr') /\
    PathRouter.router pr' = PathRouter.router pr /\
    PathRouter.site pr' = PathRouter.site pr /\
    PathRouter.lookup_stack path (PathRouter.stacks pr') = Some (st ++ omap id ms).
Proof.
  revert pr st. induction ms as [|m ms IH]; intros pr st Hst.
  - exists pr. cbn. rewrite app_nil_r. auto.
  - cbn [map PathRouter.addRoute]. unfold PathRouter.addModule.
    assert (Hget : PathRouter.getStack path pr = pr).
    { unfold PathRouter.getStack. rewrite Hst. reflexivity. }
    rewrite Hget. destruct m as [m|].
    + destruct (IH (PathRouter.mk (PathRouter.site pr) (PathRouter.router pr)
                      (PathRouter.push_stack path m (PathRouter.stacks pr)))
                   (st ++ [m])) as (pr' & Hrun & Hr & Hs & Hl).
      { cbn. apply lookup_push_stack. exact Hst. }
      exists pr'. cbn in Hr, Hs. rewrite <- app_assoc in Hl. auto.
    + destruct (IH pr st Hst) as (pr' & Hrun & Hr & Hs & Hl).
      exists pr'. auto.
Qed.

(** X10. [addRoute] on a route with at least one handler, every handler
    loading without an exception: the router gets one composed layer
    for the path, and only when the path had no stack yet; the
    middlewares the handlers gave are appended to the stack of the
    path in the order of the handlers, a handler that gave none adding
    nothing; and the layer runs [Util.compose] of the whole stack. *)
Theorem addRoute_one_layer {X : Type} (path : string) (ms : list (option (Mw Ctx)))
    (pr : PathRouter.t) :
  ms <> [] ->
  exists pr',
    PathRouter.addRoute path (map inr ms) pr = (Returned, pr') /\
    PathRouter.router pr'
    = PathRouter.router pr
      ++ match PathRouter.lookup_stack path (PathRouter.stacks pr) with
         | Some _ => []
         | None => [PathRouter.mkLayer PathRouter.All path (PathRouter.Composed path)]
         end /\
    PathRouter.lookup_stack path (PathRouter.stacks pr')
    = Some (default [] (PathRouter.lookup_stack path (PathRouter.stacks pr)) ++ omap id ms) /\
    PathRouter.layer_middleware (X := X) pr'
      (PathRouter.mkLayer PathRouter.All path (PathRouter.Composed path))
    = Util.compose (default [] (PathRouter.lookup_stack path (PathRouter.stacks pr))
                    ++ omap id ms).
Proof.
  intros Hne. destruct ms as [|m ms]; [contradiction|]. clear Hne.
  destruct (addRoute_loaded path (m :: ms) (PathRouter.getStack path pr) _
              (getStack_lookup path pr)) as (pr' & Hrun & Hr & _ & Hl).
  exists pr'. split; [|split; [|split]].
  - cbn [map PathRouter.addRoute] in *. unfold PathRouter.addModule in *.
    rewrite getStack_idem in Hrun. exact Hrun.
  - rewrite Hr. unfold PathRouter.getStack.
    destruct (PathRouter.lookup_stack path (PathRouter.stacks pr));
      [rewrite app_nil_r|]; reflexivity.
  - exact Hl.
  - unfold PathRouter.layer_middleware. cbn [PathRouter.handler]. rewrite Hl. reflexivity.
Qed.

(** *** Mounting *)

Lemma find_first_prefix (src s : string) :
  String.prefix src s = true ->
  Js.find_first src s = Some ("", Js.substring_from (String.length src) s).
Proof. intros H. destruct s; cbn [Js.find_first]; rewrite H; reflexivity. Qed.

Lemma substring_from_app (a b : string) :
  Js.substring_from (String.length a) (a +:+ b) = b.
Proof.
  induction a as [|c a IH]; [reflexivity|].
  change (String c a +:+ b) with (String c (a +:+ b)). exact IH.
Qed.

(** Replacing a prefix by a slash. *)
Lemma replace_prefix (b rest : string) :
  Js.replace b "/" (b +:+ rest) = "/" +:+ rest.
Proof.
  unfold Js.replace. rewrite find_first_prefix by (apply under_app, under_refl).
  rewrite substring_from_app. reflexivity.
Qed.

Lemma set_path_restore (v : string) (c : Ctx) : set_path (path c) (set_path v c) = c.
Proof. destruct c; reflexivity. Qed.

Lemma last_char_snoc (s : string) (c : ascii) :
  Js.last_char (s +:+ String c "") = Some c.
Proof.
  induction s as [|a s IH]; [reflexivity|].
  change (String a s +:+ String c "") with (String a (s +:+ String c "")).
  cbn [Js.last_char]. destruct (s +:+ String c "") eqn:Hs; [destruct s; discriminate|].
  exact IH.
Qed.

(** The base of an execution context ends with a slash. *)
Lemma base_of_slash (base : string) :
  Js.last_char (ExecutionContext.base_of base) = Some "/"%char.
Proof.
  unfold ExecutionContext.base_of.
  destruct (Js.last_char base) as [c|] eqn:Hc; [|apply last_char_snoc].
  destruct (Ascii.eqb c "/") eqn:Hs.
  - apply Ascii.eqb_eq in Hs. subst c. exact Hc.
  - assert (Hb : match c with "/"%char => base | _ => base +:+ "/" end = base +:+ "/").
    { destruct c as [[] [] [] [] [] [] [] []]; try reflexivity. discriminate. }
    rewrite Hb. apply last_char_snoc.
Qed.

(** X11. [mount]: for a request path that starts with the base, the
    mounted middleware sees the path with the base replaced by a slash,
    and every call it makes to [next] runs the rest of the stack on the
    path as it was. A middleware that only hands over is invisible; one
    that returns without [next] leaves the shortened path in the
    context. *)
Theorem mount_strips_base {X : Type} (base rest : string) (next : Cont Ctx X)
    (s : X * Ctx) :
  let b := ExecutionContext.base_of base in
  path s.2 = b +:+ rest ->
  Js.last_char b = Some "/"%char
  /\ (forall middleware,
      ExecutionContext.mount b middleware next s
      = run middleware (fun s' => next (s'.1, set_path (b +:+ rest) s'.2))
          (s.1, set_path ("/" +:+ rest) s.2))
  /\ ExecutionContext.mount b (AwaitNext Ret) next s = next s
  /\ ExecutionContext.mount b Ret next s = (Returned, (s.1, set_path ("/" +:+ rest) s.2)).
Proof.
  intros b Hpath. split; [apply base_of_slash|].
  unfold ExecutionContext.mount. rewrite Hpath, replace_prefix.
  split; [reflexivity|]. split; [|reflexivity].
  cbn [run AwaitNext fst snd]. rewrite <- Hpath, set_path_restore.
  destruct s as [x c]. cbn [fst snd]. destruct (next (x, c)) as [[|e] s']; reflexivity.
Qed.

(** *** The map of sites *)

Lemma map_get_set site pr l :
  SiteRouter.same_key site site = true ->
  SiteRouter.map_get site (SiteRouter.map_set site pr l) = Some pr.
Proof.
  intros Hk. induction l as [|[k v] l IH]; cbn.
  - rewrite Hk. reflexivity.
  - destruct (SiteRouter.same_key k site) eqn:Hks; cbn; rewrite Hks; [reflexivity | exact IH].
Qed.

Lemma same_key_string_eq k site other :
  SiteRouter.same_key k (SiteString site) = true ->
  SiteRouter.same_key k (SiteString other) = String.eqb site other.
Proof.
  destruct k as [x| |]; cbn; try discriminate.
  intros H. apply String.eqb_eq in H. subst x. reflexivity.
Qed.

Lemma map_get_set_ne (site other : string) pr l :
  other <> site ->
  SiteRouter.map_get (SiteString other) (SiteRouter.map_set (SiteString site) pr l)
  = SiteRouter.map_get (SiteString other) l.
Proof.
  intros Hne. apply String.eqb_neq in Hne. rewrite String.eqb_sym in Hne.
  induction l as [|[k v] l IH]; cbn.
  - rewrite Hne. reflexivity.
  - destruct (SiteRouter.same_key k (SiteString site)) eqn:Hks; cbn.
    + rewrite (same_key_string_eq _ _ other Hks), Hne. reflexivity.
    + destruct (SiteRouter.same_key k (SiteString other)); [reflexivity | exact IH].
Qed.

Lemma map_set_keys site pr l :
  map fst (SiteRouter.map_set site pr l)
  = map fst l ++ match SiteRouter.map_get site l with Some _ => [] | None => [site] end.
Proof.
  induction l as [|[k v] l IH]; cbn; [reflexivity|].
  destruct (SiteRouter.same_key k site); cbn.
  - rewrite app_nil_r. reflexivity.
  - rewrite IH. reflexivity.
Qed.

Lemma map_get_delete (site : string) l :
  SiteRouter.map_get (SiteString site)
    (List.filter (fun kv => negb (SiteRouter.same_key kv.1 (SiteString site))) l) = None.
Proof.
  induction l as [|[k v] l IH]; cbn; [reflexivity|].
  destruct (SiteRouter.same_key k (SiteString site)) eqn:Hk; cbn; [exact IH|].
  rewrite Hk. exact IH.
Qed.

Lemma map_get_delete_ne (site other : string) l :
  other <> site ->
  SiteRouter.map_get (SiteString other)
    (List.filter (fun kv => negb (SiteRouter.same_key kv.1 (SiteString site))) l)
  = SiteRouter.map_get (SiteString other) l.
Proof.
  intros Hne. apply String.eqb_neq in Hne. rewrite String.eqb_sym in Hne.
  induction l as [|[k v] l IH]; cbn; [reflexivity|].
  destruct (SiteRouter.same_key k (SiteString site)) eqn:Hk; cbn.
  - rewrite (same_key_string_eq _ _ other Hk), Hne. exact IH.
  - destruct (SiteRouter.same_key k (SiteString other)); [reflexivity | exact IH].
Qed.

(** X12. The map of sites under a text key: after [use(site, r)],
    [get(site)] gives [r] and registers nothing; [use] keeps the keys
    in their order and puts a new key last; the routers under other
    text keys stay; after [delete(site)] the key is gone and the other
    text keys stay. A list is never found again: [get] on a list of
    host names always registers a new router, last. *)
Theorem site_map_round_trip (site : string) (pathRouter : PathRouter.t)
    (sr : SiteRouter.t) :
  let key := SiteString site in
  SiteRouter.get key (SiteRouter.use key pathRouter sr)
  = (pathRouter, SiteRouter.use key pathRouter sr)
  /\ map fst (SiteRouter.sites (SiteRouter.use key pathRouter sr))
     = map fst (SiteRouter.sites sr)
       ++ match SiteRouter.map_get key (SiteRouter.sites sr) with
          | Some _ => []
          | None => [key]
          end
  /\ (forall other, other <> site ->
      SiteRouter.map_get (SiteString other)
        (SiteRouter.sites (SiteRouter.use key pathRouter sr))
      = SiteRouter.map_get (SiteString other) (SiteRouter.sites sr))
  /\ SiteRouter.map_get key (SiteRouter.sites (SiteRouter.delete key sr)) = None
  /\ (forall other, other <> site ->
      SiteRouter.map_get (SiteString other) (SiteRouter.sites (SiteRouter.delete key sr))
      = SiteRouter.map_get (SiteString other) (SiteRouter.sites sr))
  /\ (forall items,
      SiteRouter.get (SiteArray items) sr
      = (PathRouter.new (SiteArray items),
         SiteRouter.mk (SiteRouter.sites sr
                        ++ [(SiteArray items, PathRouter.new (SiteArray items))]))).
Proof.
  intros key. repeat split.
  - unfold SiteRouter.get, SiteRouter.use. cbn [SiteRouter.sites].
    rewrite map_get_set; [reflexivity | apply String.eqb_refl].
  - apply map_set_keys.
  - intros other Hne. apply map_get_set_ne. exact Hne.
  - apply map_get_delete.
  - intros other Hne. apply map_get_delete_ne. exact Hne.
  - intros items.
    assert (Hfresh : forall l : list (SiteLike * PathRouter.t),
               SiteRouter.map_get (SiteArray items) l = None /\
               forall pr, SiteRouter.map_set (SiteArray items) pr l
                          = l ++ [(SiteArray items, pr)]).
    { induction l as [|[k v] l [IH1 IH2]]; [split; reflexivity|].
      cbn. replace (SiteRouter.same_key k (SiteArray items)) with false
        by (destruct k; reflexivity).
      split; [exact IH1 | intros pr; rewrite IH2; reflexivity]. }
    unfold SiteRouter.get, SiteRouter.use.
    destruct (Hfresh (SiteRouter.sites sr)) as [-> ->]. reflexivity.
Qed.

(** *** Host keys written as regular expression literals *)





Lemma addRoute_one_layer_witness :
  exists pr',
    PathRouter.addRoute "/x" [inr (Some Ret); inr None] (PathRouter.new (SiteString "*"))
    = (Returned, pr') /\
    PathRouter.lookup_stack "/x" (PathRouter.stacks pr') = Some [Ret].
Proof.
  destruct (addRoute_one_layer (X := unit) "/x" [Some Ret; None]
              (PathRouter.new (SiteString "*")) ltac:(discriminate))
    as (pr' & Hrun & _ & Hstack & _).
  exists pr'. split; [exact Hrun | exact Hstack].
Defined.

Lemma mount_strips_base_witness :
  ExecutionContext.mount "/app/" Ret Sample.fall_through
    (tt, set_path "/app/x/y" Sample.ctx)
  = (Returned, (tt, set_path "/x/y" Sample.ctx)).
Proof.
  exact (proj2 (proj2 (proj2
           (mount_strips_base (X := unit) "/app" "x/y" Sample.fall_through
              (tt, set_path "/app/x/y" Sample.ctx) eq_refl)))).
Defined.


End RouteProps.



(** ** The reverse proxy: sessions and relayed responses *)

Lemma ws_await_pending (s : Proxy.WsState) (ev : Proxy.WsEvent) events :
  Proxy.promise s = Proxy.Pending ->
  Proxy.ws_await s (ev :: events) = Proxy.ws_await (Proxy.ws_step s ev) events.
Proof. intros H. cbn [Proxy.ws_await]. rewrite H. reflexivity. Qed.

Lemma ws_await_bridged (msgs rest : list Proxy.WsEvent) (closing : Proxy.WsEvent)
    (s : Proxy.WsState) :
  Proxy.phase s = Proxy.Bridged ->
  Proxy.promise s = Proxy.Pending ->
  forallb is_message msgs = true ->
  is_close closing = true ->
  Proxy.ws_await s (msgs ++ closing :: rest)
  = Some (inr (Proxy.stat_bytes s + total_bytes msgs)%Z).
Proof.
  intros Hph Hpr Hm Hc. revert s Hph Hpr. induction msgs as [|ev msgs IH]; intros s Hph Hpr.
  - cbn [app]. rewrite ws_await_pending by exact Hpr.
    unfold total_bytes. cbn [map fold_right]. rewrite Z.add_0_r.
    unfold Proxy.ws_step. rewrite Hph.
    destruct closing; try discriminate;
      unfold Proxy.settle; rewrite Hpr; destruct rest; reflexivity.
  - cbn in Hm. apply andb_true_iff in Hm as [Hev Hm].
    cbn [app]. rewrite ws_await_pending by exact Hpr.
    unfold total_bytes. cbn [map fold_right]. fold (total_bytes msgs).
    unfold Proxy.ws_step. rewrite Hph.
    destruct ev; try discriminate;
      (rewrite (IH Hm); [|exact Hph|exact Hpr]); cbn [Proxy.count Proxy.stat_bytes message_bytes];
      f_equal; f_equal; lia.
Qed.

(** A WebSocket session that opens, is upgraded, carries messages
    and is closed by either side resolves with the sum of the byte
    lengths of the messages of both directions. *)
Lemma wsforward_total (msgs rest : list Proxy.WsEvent) (closing : Proxy.WsEvent) :
  forallb is_message msgs = true ->
  is_close closing = true ->
  Proxy.wsforward (Proxy.ReqOpen :: Proxy.Upgraded :: msgs ++ closing :: rest)
  = Some (inr (total_bytes msgs)).
Proof.
  intros Hm Hc. unfold Proxy.wsforward.
  rewrite !ws_await_pending by reflexivity.
  rewrite ws_await_bridged by (try assumption; reflexivity). reflexivity.
Qed.

Lemma proxy_ws_done_run {X : Type} transport sockets conf
    (next : Koa.Cont Koa.Ctx X) (s : X * Koa.Ctx) bytes :
  Koa.ws s.2 = true ->
  Koa.upgradable (Koa.req s.2) = true ->
  Proxy.websocket conf = true ->
  Proxy.wsforward (sockets (ws_url conf s.2)) = Some (inr bytes) ->
  Koa.run (Proxy.proxy transport sockets conf) next s
  = (Koa.Returned, (s.1, ws_done conf bytes s.2)).
Proof.
  intros Hws Hup Hconf Hdone. destruct s as [x ctx].
  cbn [fst snd] in *. unfold ws_done. fold (ws_url conf ctx) in *.
  unfold Proxy.proxy. cbn [Koa.run fst snd].
  assert (Hrun : forall c : Koa.Ctx,
             Koa.ws c = true -> Koa.req c = Koa.req ctx ->
             Koa.run (Proxy.proxy_ws sockets (Proxy.target (Proxy.upstream conf) ctx))
               next (x, c)
             = (Koa.Returned,
                (x, let c2 := Koa.set_bytes bytes
                                (Koa.set_status 101 (Koa.set_handler "ProxyWS" c)) in
                    if Koa.log c2 then
                      Koa.do_log (Koa.succ (Koa.loggers (Koa.req c2)) "ProxiedWS")
                        ("to=" +:+ Koa.info (Koa.loggers (Koa.req c2))
                                     (Koa.href (ws_url conf ctx))) c2
                    else c2))).
  { intros c Hc Hreq. unfold Proxy.proxy_ws. cbn [Koa.run fst snd].
    fold (ws_url conf ctx). rewrite Hdone. cbn [Koa.run fst snd].
    cbn [Koa.log Koa.set_bytes Koa.set_status Koa.set_handler].
    destruct (Koa.log c); reflexivity. }
  destruct (Proxy.nolog conf); cbn [Koa.run fst snd].
  - cbn [Koa.ws Koa.set_log Koa.req Koa.upgradable]. rewrite Hws, Hup, Hconf.
    cbn [andb]. apply Hrun; [exact Hws | reflexivity].
  - rewrite Hws, Hup, Hconf. cbn [andb]. apply Hrun; [exact Hws | reflexivity].
Qed.

(** X14. On a websocket-enabled proxy route, an upgrade request whose
    session opens, is upgraded, carries messages and is closed by
    either side: the session resolves with the sum of the byte lengths
    of the messages of both directions, whatever happens after the
    close; the middleware sets the handler name to ProxyWS, the status
    to 101 and the byte count, logs 'ProxiedWS' when logging is on,
    leaves the body and the response headers alone, and returns
    without calling the rest of the stack. *)
Theorem proxy_ws_session {X : Type}
    (transport : Proxy.Sent -> Js.Thrown + Proxy.Response)
    (sockets : Koa.URL -> list Proxy.WsEvent)
    (conf : Proxy.ProxyOptions) (next : Koa.Cont Koa.Ctx X) (s : X * Koa.Ctx)
    (msgs rest : list Proxy.WsEvent) (closing : Proxy.WsEvent) :
  Koa.ws s.2 = true ->
  Koa.upgradable (Koa.req s.2) = true ->
  Proxy.websocket conf = true ->
  sockets (ws_url conf s.2)
  = Proxy.ReqOpen :: Proxy.Upgraded :: msgs ++ closing :: rest ->
  forallb is_message msgs = true ->
  is_close closing = true ->
  let after := ws_done conf (total_bytes msgs) s.2 in
  Proxy.wsforward (sockets (ws_url conf s.2)) = Some (inr (total_bytes msgs))
  /\ Koa.run (Proxy.proxy transport sockets conf) next s = (Koa.Returned, (s.1, after))
  /\ Koa.status after = 101%Z
  /\ Koa.bytes after = total_bytes msgs
  /\ Koa.handler after = Some "ProxyWS"
  /\ Koa.body after = Koa.body s.2
  /\ Koa.resHeaders after = Koa.resHeaders s.2
  /\ Koa.logs after
     = Koa.logs s.2
       ++ (if Koa.log s.2 && negb (Proxy.nolog conf) then
             [(Koa.succ (Koa.loggers (Koa.req s.2)) "ProxiedWS",
               "to=" +:+ Koa.info (Koa.loggers (Koa.req s.2)) (Koa.href (ws_url conf s.2)))]
           else []).
Proof.
  intros Hws Hup Hconf Hsock Hm Hc after.
  assert (Hdone : Proxy.wsforward (sockets (ws_url conf s.2))
                  = Some (inr (total_bytes msgs))).
  { rewrite Hsock. apply wsforward_total; assumption. }
  split; [exact Hdone|]. split.
  - apply proxy_ws_done_run; assumption.
  - subst after. unfold ws_done.
    destruct (Proxy.nolog conf), (Koa.log s.2) eqn:Hlog; simpl;
      rewrite ?Hlog; simpl; rewrite ?app_nil_r; repeat split.
Qed.

Lemma proxy_ws_session_witness :
  Koa.run (Proxy.proxy no_transport
             (fun _ => [Proxy.ReqOpen; Proxy.Upgraded; Proxy.ReqMessage 5;
                        Proxy.UsrMessage 7; Proxy.UsrClose])
             ws_conf) Sample.fall_through (tt, ws_ctx)
  = (Koa.Returned, (tt, ws_done ws_conf 12 ws_ctx)).
Proof.
  apply (proj1 (proj2 (proxy_ws_session no_transport
                  (fun _ => [Proxy.ReqOpen; Proxy.Upgraded; Proxy.ReqMessage 5;
                             Proxy.UsrMessage 7; Proxy.UsrClose])
                  ws_conf Sample.fall_through (tt, ws_ctx)
                  [Proxy.ReqMessage 5; Proxy.UsrMessage 7] [] Proxy.UsrClose
                  eq_refl eq_refl eq_refl eq_refl eq_refl eq_refl))).
Defined.

(** The HTTP branch, by what the upstream does. *)
Lemma proxy_http_run {X : Type} transport sockets conf
    (next : Koa.Cont Koa.Ctx X) (s : X * Koa.Ctx) :
  Koa.ws s.2 && Koa.upgradable (Koa.req s.2) && Proxy.websocket conf = false ->
  Koa.run (Proxy.proxy transport sockets conf) next s
  = match upstream_sent conf s.2 with
    | inl e => (Koa.Threw e, (s.1, proxy_entered conf s.2))
    | inr sent =>
        match transport sent with
        | inl e => (Koa.Threw e, (s.1, proxy_entered conf s.2))
        | inr res => next (s.1, proxied conf res s.2)
        end
    end.
Proof.
  intros Hhttp. destruct s as [x ctx]. cbn [fst snd] in *.
  unfold upstream_sent, upstream_options, proxied, proxy_entered.
  unfold Proxy.proxy. cbn [Koa.run fst snd].
  assert (Hrun : forall c : Koa.Ctx,
             Koa.req c = Koa.req ctx ->
             Koa.run (Proxy.proxy_http transport conf
                        (Proxy.target (Proxy.upstream conf) ctx)) next (x, c)
             = match Proxy.prepare (Proxy.target (Proxy.upstream conf) ctx)
                       (upstream_options conf ctx) with
               | inl e => (Koa.Threw e, (x, Koa.set_handler "Proxy" c))
               | inr sent =>
                   match transport sent with
                   | inl e => (Koa.Threw e, (x, Koa.set_handler "Proxy" c))
                   | inr res =>
                       next (x,
                         let ctx2 := Koa.set_status
                                       (match Proxy.statusCode res with
                                        | Some n => if (n =? 0)%Z then 503%Z else n
                                        | None => 503%Z
                                        end)
                                       (Koa.set_body (Koa.BodyBuffer (Proxy.res_body res))
                                          (Koa.set_handler "Proxy" c)) in
                         let ctx3 := Koa.set_resHeaders
                                       (Util.filter (Proxy.res_headers res)
                                          (Proxy.keep
                                             (default ["connection"; "transfer-encoding"]
                                                (Proxy.resHeadersFilter conf)))
                                        ∪ Koa.resHeaders ctx2) ctx2 in
                         if Koa.log ctx3 then
                           Koa.do_log (Koa.succ (Koa.loggers (Koa.req ctx3)) "Proxied")
                             ("to=" +:+ Koa.info (Koa.loggers (Koa.req ctx3))
                                          (Koa.href (Proxy.target (Proxy.upstream conf) ctx)))
                             ctx3
                         else ctx3)
                   end
               end).
  { intros c Hreq. unfold Proxy.proxy_http, Proxy.request, upstream_options.
    cbn [Koa.run fst snd Koa.req Koa.set_handler]. rewrite Hreq.
    destruct (Proxy.prepare _ _) as [e|sent]; [reflexivity|].
    destruct (transport sent) as [e|res]; [reflexivity|].
    cbn [Koa.run fst snd].
    cbn [Koa.log Koa.set_resHeaders Koa.set_status Koa.set_body Koa.set_handler].
    destruct (Koa.log c); cbn [Koa.run Koa.AwaitNext fst snd];
      destruct (next _) as [[|t] s']; reflexivity. }
  destruct (Proxy.nolog conf); cbn [Koa.run fst snd].
  - cbn [Koa.ws Koa.set_log Koa.req Koa.upgradable]. rewrite Hhttp.
    apply Hrun. reflexivity.
  - rewrite Hhttp. apply Hrun. reflexivity.
Qed.




(** X16. The HTTP branch of the proxy, when the upstream fails: an
    exception of the request (a refused connection, a broken response)
    is thrown on by the middleware, which has set the handler name
    (and switched logging off on a silenced route) and nothing else,
    and the rest of the stack is not called. An upstream whose scheme
    is [ftp:], [ws:] or [wss:] (the schemes, besides HTTP and HTTPS,
    that the URL of the request can be switched to) fails in this way
    on every request, with 'Invalid protocol', before anything is
    sent. *)
Theorem proxy_http_failure {X : Type}
    (transport : Proxy.Sent -> Js.Thrown + Proxy.Response)
    (sockets : Koa.URL -> list Proxy.WsEvent)
    (conf : Proxy.ProxyOptions) (next : Koa.Cont Koa.Ctx X) (s : X * Koa.Ctx) :
  Koa.ws s.2 && Koa.upgradable (Koa.req s.2) && Proxy.websocket conf = false ->
  (forall sent e,
      upstream_sent conf s.2 = inr sent -> transport sent = inl e ->
      Koa.run (Proxy.proxy transport sockets conf) next s
      = (Koa.Threw e, (s.1, proxy_entered conf s.2)))
  /\ (In (Koa.protocol (Proxy.upstream conf)) ["ftp:"; "ws:"; "wss:"] ->
      Koa.run (Proxy.proxy transport sockets conf) next s
      = (Koa.Threw (Js.newError ("Invalid protocol " +:+ Koa.protocol (Proxy.upstream conf))),
         (s.1, proxy_entered conf s.2)))
  /\ Koa.status (proxy_entered conf s.2) = Koa.status s.2
  /\ Koa.body (proxy_entered conf s.2) = Koa.body s.2
  /\ Koa.resHeaders (proxy_entered conf s.2) = Koa.resHeaders s.2.
Proof.
  intros Hhttp. split; [|split].
  - intros sent e Hsent He.
    rewrite (proxy_http_run transport sockets conf next s Hhttp), Hsent, He. reflexivity.
  - intros Hscheme.
    rewrite (proxy_http_run transport sockets conf next s Hhttp).
    unfold upstream_sent, Proxy.prepare.
    change (Koa.protocol (Proxy.target (Proxy.upstream conf) s.2))
      with (Koa.protocol (Proxy.upstream conf)).
    destruct Hscheme as [<- | [<- | [<- | []]]]; reflexivity.
  - unfold proxy_entered. destruct (Proxy.nolog conf); repeat split.
Qed.

(** The sample request with nobody listening upstream. *)
Lemma proxy_http_failure_witness :
  Koa.run (Proxy.proxy no_transport refusing api_conf) Sample.fall_through (tt, api_ctx)
  = (Koa.Threw refused, (tt, proxy_entered api_conf api_ctx)).
Proof.
  apply (proj1 (proxy_http_failure no_transport refusing api_conf Sample.fall_through
                  (tt, api_ctx) eq_refl) api_sent refused eq_refl eq_refl).
Defined.


(** ** Static files: hidden paths, missing files, headers, the module *)

Lemma substring_from_length (n : nat) (p : string) :
  String.length (Js.substring_from n p) <= String.length p.
Proof.
  revert p. induction n as [|n IH]; intros p; [reflexivity|].
  destruct p as [|a p]; [reflexivity|]. cbn. specialize (IH p). lia.
Qed.

Lemma split_length_le (c : ascii) (s : string) :
  length (Js.split c s) <= S (String.length s).
Proof.
  induction s as [|a s IH]; [cbn; lia|].
  cbn [Js.split String.length]. destruct (Ascii.eqb a c); [cbn; lia|].
  destruct (Js.split c s); cbn in *; lia.
Qed.

(** A text with as many segments as it can have has only empty
    ones. *)
Lemma split_full (c : ascii) (s : string) :
  String.length s < length (Js.split c s) -> Forall (fun part => part = "") (Js.split c s).
Proof.
  induction s as [|a s IH]; [repeat constructor|].
  cbn [Js.split String.length]. pose proof (split_length_le c s) as Hle.
  destruct (Ascii.eqb a c).
  - cbn [length]. intros H. constructor; [reflexivity | apply IH; lia].
  - destruct (Js.split c s) as [|h t] eqn:Hs; cbn [length] in *; lia.
Qed.

(** X17. [isHidden(root, path)] is true exactly when a segment of the
    path after the first [root.length] characters starts with a dot:
    the bound of the loop, the length of the path and not the number
    of segments, never cuts the search short. *)
Theorem isHidden_every_segment (root path : string) :
  Static.isHidden root path
  = existsb (Js.startsWith ".")
      (Js.split Path.sep (Js.substring_from (String.length root) path)).
Proof.
  unfold Static.isHidden.
  set (sub := Js.substring_from (String.length root) path).
  destruct (le_lt_dec (length (Js.split Path.sep sub)) (String.length path)) as [Hle | Hgt].
  - rewrite firstn_all2 by exact Hle. reflexivity.
  - assert (Hfull : String.length sub < length (Js.split Path.sep sub)).
    { pose proof (substring_from_length (String.length root) path). fold sub in H. lia. }
    apply split_full in Hfull.
    assert (Hno : forall l, Forall (fun part => part = "") l ->
                            existsb (Js.startsWith ".") l = false).
    { induction 1 as [|x l -> _ IH]; [reflexivity | exact IH]. }
    rewrite (Hno _ Hfull). apply Hno. apply Forall_take. exact Hfull.
Qed.

Lemma negotiate_plain (fs : Static.FileSystem) p opts ctx :
  Static.access fs (p +:+ ".br") = false ->
  Static.access fs (p +:+ ".gz") = false ->
  exists seen, Static.negotiate fs p opts ctx = (p, "", ctx, seen).
Proof.
  intros Hbr Hgz. unfold Static.negotiate. rewrite Hbr, Hgz.
  rewrite !andb_false_r. eexists. reflexivity.
Qed.

(** X18. [serve] without [defer], on a GET or HEAD for a path that is
    not hidden, with no compressed variant and no extensions to try,
    when [stat] fails with an error that carries no status: on ENOENT,
    ENAMETOOLONG or ENOTDIR the middleware hands over to the rest of
    the stack, the context as it was; on any other error it throws the
    error on with the status 500 and the rest of the stack is not
    called. (An error that has a status keeps it in [createError], so
    the errors of the file system, which have none, are the case.) *)
Theorem serve_missing_file {X : Type}
    (decodeURIComponent : string -> option string) (resolve : string -> string)
    (resolvePath : string -> string -> Js.Thrown + string)
    (extname : string -> string) (extname_without : string -> string -> string)
    (mimeType : string -> option string) (fs : Static.FileSystem)
    (browse : string -> option string -> Koa.Ctx -> Koa.Outcome * Koa.Ctx)
    (options : Static.ServeOptions) (next : Koa.Cont Koa.Ctx X) (x : X) (ctx : Koa.Ctx)
    (R p : string) (e : Js.Error) :
  let opts := Static.send_options options in
  Static.is_get_or_head ctx = true ->
  Static.locate decodeURIComponent resolve resolvePath (Koa.path ctx) opts = inr (R, p) ->
  Static.hidden opts = true \/ Static.isHidden R p = false ->
  Static.access fs (p +:+ ".br") = false ->
  Static.access fs (p +:+ ".gz") = false ->
  Static.extensions opts = None ->
  Static.stat fs p = inl (Js.ErrorObj e) ->
  Js.status e = None ->
  Koa.run (Static.serve decodeURIComponent resolve resolvePath extname extname_without
             mimeType fs browse options) next (x, ctx)
  = if not_found e then next (x, ctx)
    else (Koa.Threw (Js.ErrorObj (Js.withStatus 500 e)), (x, ctx)).
Proof.
  intros opts Hget Hloc Hhidden Hbr Hgz Hext Hstat _.
  unfold Static.serve. cbn [Koa.run fst snd]. rewrite Hget.
  fold opts. unfold Static.send. rewrite Hloc.
  assert (Hpass : negb (Static.hidden opts) && Static.isHidden R p = false).
  { destruct Hhidden as [-> | ->]; [reflexivity | apply andb_false_r]. }
  rewrite Hpass.
  destruct (negotiate_plain fs p opts ctx Hbr Hgz) as [seen ->].
  unfold Static.try_extensions. rewrite Hext.
  unfold Static.stat_path. rewrite Hstat. unfold Static.stat_error, not_found.
  destruct (Js.code e) as [c|]; cbn [Koa.run fst snd].
  - destruct (negb (String.eqb c "") && existsb (String.eqb c) _) eqn:Hc.
    + unfold Static.silenced. cbn. cbn [Koa.run Koa.AwaitNext fst snd].
      destruct (next (x, ctx)) as [[|t] s']; reflexivity.
    + unfold Static.silenced. cbn. reflexivity.
  - unfold Static.silenced. cbn. reflexivity.
Qed.

Lemma serve_missing_file_witness :
  Koa.run (Static.serve sample_decode sample_resolve sample_resolvePath sample_extname
             sample_extname_without sample_mimeType sample_fs sample_browse missing_options)
    Sample.fall_through (tt, get_request "/missing.txt" ∅ [])
  = (Koa.Returned, (tt, get_request "/missing.txt" ∅ [])).
Proof.
  exact (serve_missing_file (X := unit) sample_decode sample_resolve sample_resolvePath
           sample_extname sample_extname_without sample_mimeType sample_fs sample_browse
           missing_options Sample.fall_through tt (get_request "/missing.txt" ∅ [])
           "/var/www" "/var/www/missing.txt"
           (Js.mkError "Error" "ENOENT: no such file or directory" None (Some "ENOENT"))
           eq_refl eq_refl (or_intror eq_refl) eq_refl eq_refl eq_refl eq_refl eq_refl).
Defined.

Lemma app_assoc_str (a b c : string) : (a +:+ b) +:+ c = a +:+ b +:+ c.
Proof.
  induction a as [|x a IH]; [reflexivity|].
  change ((String x a +:+ b) +:+ c) with (String x ((a +:+ b) +:+ c)).
  change (String x a +:+ b +:+ c) with (String x (a +:+ b +:+ c)). f_equal. exact IH.
Qed.

Lemma toInt32_small (x : Z) :
  (-2147483648 <= x < 2147483648)%Z -> Static.toInt32 x = x.
Proof.
  intros H. unfold Static.toInt32.
  rewrite Z.mod_small by lia. lia.
Qed.

Lemma get_set_same k v c : Koa.get k (Koa.set k v c) = v.
Proof. unfold Koa.get. rewrite resHeaders_set, lookup_insert_eq. reflexivity. Qed.

Lemma get_set_other k k' v c : k' <> k -> Koa.get k (Koa.set k' v c) = Koa.get k c.
Proof.
  intros H. unfold Koa.get. rewrite resHeaders_set, lookup_insert_ne by exact H. reflexivity.
Qed.

Lemma describe_frame extname extname_without mimeType p ext stats opts ctx :
  Koa.req (Static.describe extname extname_without mimeType p ext stats opts ctx)
  = Koa.req ctx
  /\ Koa.status (Static.describe extname extname_without mimeType p ext stats opts ctx)
     = Koa.status ctx.
Proof.
  unfold Static.describe.
  repeat match goal with
         | |- context [if ?b then _ else _] => destruct b
         | |- context [match mimeType ?x with _ => _ end] => destruct (mimeType x)
         | |- context [match Static.setHeaders ?o with _ => _ end] =>
             destruct (Static.setHeaders o)
         end; split; reflexivity.
Qed.

Lemma respond_whole p stats ctx :
  Koa.headers (Koa.req ctx) !! "range" = None ->
  Static.respond p stats ctx
  = Koa.set_body (Koa.BodyFile p None)
      (Koa.set "Content-Length" (pretty (Static.size stats)) ctx).
Proof. intros H. unfold Static.respond. rewrite H. reflexivity. Qed.

Lemma get_removeHeader_other k k' c :
  k' <> k -> Koa.get k (Koa.removeHeader k' c) = Koa.get k c.
Proof.
  intros H. unfold Koa.get. rewrite resHeaders_removeHeader, lookup_delete_ne by exact H.
  reflexivity.
Qed.

Lemma kept_header k fresh c :
  Koa.resHeaders (if String.eqb (Koa.get k c) "" then Koa.set k fresh c else c) !! k
  = Some (if String.eqb (Koa.get k c) "" then fresh else Koa.get k c).
Proof.
  destruct (String.eqb (Koa.get k c) "") eqn:H.
  - rewrite resHeaders_set, lookup_insert_eq. reflexivity.
  - unfold Koa.get in *. destruct (Koa.resHeaders c !! k); [reflexivity | discriminate].
Qed.

(** X19. The headers of a file sent whole (no [Range] in the request,
    no [setHeaders] hook, no body set before, [maxage] from 0 to below
    2^31 seconds), on a response whose [Last-Modified] and
    [Cache-Control], if it has them, are spelled in this way (the
    response finds a header whatever the case of its name):
    [Content-Length] is the size of the file and
    [Accept-Ranges] is [bytes]; [Last-Modified] and [Cache-Control] are
    kept when the response has them already, and are otherwise the
    modification time and [max-age] in whole seconds, rounded down,
    followed by [,immutable] when the option is set; the body is the
    file from its start to its end. (Koa takes [Content-Length] off
    again when a body replaces another, hence no body before.) *)
Theorem file_response_headers
    (extname : string -> string) (extname_without : string -> string -> string)
    (mimeType : string -> option string)
    (p ext : string) (stats : Static.Stats) (opts : Static.SendOptions) (ctx : Koa.Ctx) :
  Static.setHeaders opts = None ->
  Koa.headers (Koa.req ctx) !! "range" = None ->
  Koa.body ctx = Koa.BodyNone ->
  spelled "Last-Modified" ctx ->
  spelled "Cache-Control" ctx ->
  (0 <= Static.maxage opts < 2147483648000)%Z ->
  let after :=
    Static.respond p stats
      (Static.describe extname extname_without mimeType p ext stats opts ctx) in
  let kept (k fresh : string) :=
    if String.eqb (Koa.get k ctx) "" then fresh else Koa.get k ctx in
  Koa.resHeaders after !! "Content-Length" = Some (pretty (Static.size stats))
  /\ Koa.resHeaders after !! "Accept-Ranges" = Some "bytes"
  /\ Koa.resHeaders after !! "Last-Modified"
     = Some (kept "Last-Modified" (Static.mtime stats))
  /\ Koa.resHeaders after !! "Cache-Control"
     = Some (kept "Cache-Control"
               ("max-age=" +:+ pretty (Static.maxage opts / 1000)%Z
                +:+ (if Static.immutable opts then ",immutable" else "")))
  /\ Koa.body after = Koa.BodyFile p None.
Proof.
  intros Hhook Hrange _ _ _ Hmax after kept.
  assert (Hage : Static.toInt32 (Z.quot (Static.maxage opts) 1000)
                 = (Static.maxage opts / 1000)%Z).
  { rewrite Z.quot_div_nonneg by lia. apply toInt32_small.
    pose proof (Z.div_pos (Static.maxage opts) 1000).
    assert (Static.maxage opts / 1000 < 2147483648)%Z
      by (apply Z.div_lt_upper_bound; lia).
    lia. }
  assert (Hdirectives :
            Js.join ","
              (("max-age=" +:+ pretty (Static.toInt32 (Z.quot (Static.maxage opts) 1000)))
                 :: (if Static.immutable opts then ["immutable"] else []))
            = "max-age=" +:+ pretty (Static.maxage opts / 1000)%Z
              +:+ (if Static.immutable opts then ",immutable" else "")).
  { rewrite Hage. destruct (Static.immutable opts); cbn [Js.join].
    - rewrite !app_assoc_str. reflexivity.
    - rewrite app_empty_r. reflexivity. }
  destruct (describe_frame extname extname_without mimeType p ext stats opts ctx)
    as [Hreq Hstatus].
  subst after. rewrite respond_whole by (rewrite Hreq; exact Hrange).
  split; [rewrite resHeaders_set_body, resHeaders_set; apply lookup_insert_eq|].
  split; [|split; [|split; [|reflexivity]]];
    rewrite resHeaders_set_body, resHeaders_set, lookup_insert_ne by discriminate;
    unfold Static.describe; rewrite Hhook, Hdirectives;
    generalize ("max-age=" +:+ pretty (Static.maxage opts / 1000)%Z
                +:+ (if Static.immutable opts then ",immutable" else "")) as directives;
    intros directives; subst kept; cbv beta.
  - repeat match goal with
           | |- context [if String.eqb (Koa.get "Content-Type" ?c) "" then _ else _] =>
               destruct (String.eqb (Koa.get "Content-Type" c) "")
           | |- context [match mimeType ?x with _ => _ end] => destruct (mimeType x)
           | |- context [if String.eqb (Koa.get "Cache-Control" ?c) "" then _ else _] =>
               destruct (String.eqb (Koa.get "Cache-Control" c) "")
           | |- context [if String.eqb (Koa.get "Last-Modified" ?c) "" then _ else _] =>
               destruct (String.eqb (Koa.get "Last-Modified" c) "")
           end; response_headers; reflexivity.
  - set (c1 := Koa.set "Accept-Ranges" "bytes" _).
    assert (H1 : Koa.get "Last-Modified" c1 = Koa.get "Last-Modified" ctx).
    { subst c1. rewrite !get_set_other by discriminate. reflexivity. }
    rewrite <- H1.
    repeat match goal with
           | |- context [if String.eqb (Koa.get "Content-Type" ?c) "" then _ else _] =>
               destruct (String.eqb (Koa.get "Content-Type" c) "")
           | |- context [match mimeType ?x with _ => _ end] => destruct (mimeType x)
           | |- context [if String.eqb (Koa.get "Cache-Control" ?c) "" then _ else _] =>
               destruct (String.eqb (Koa.get "Cache-Control" c) "")
           end;
      repeat first [ rewrite resHeaders_set
                   | rewrite resHeaders_removeHeader
                   | rewrite lookup_insert_ne by discriminate
                   | rewrite lookup_delete_ne by discriminate ];
      apply kept_header.
  - set (c1 := Koa.set "Accept-Ranges" "bytes" _).
    set (c2 := if String.eqb (Koa.get "Last-Modified" c1) "" then _ else c1).
    assert (H2 : Koa.get "Cache-Control" c2 = Koa.get "Cache-Control" ctx).
    { subst c2 c1. destruct (String.eqb _ ""); rewrite !get_set_other by discriminate;
        reflexivity. }
    rewrite <- H2.
    repeat match goal with
           | |- context [if String.eqb (Koa.get "Content-Type" ?c) "" then _ else _] =>
               destruct (String.eqb (Koa.get "Content-Type" c) "")
           | |- context [match mimeType ?x with _ => _ end] => destruct (mimeType x)
           end;
      repeat first [ rewrite resHeaders_set
                   | rewrite resHeaders_removeHeader
                   | rewrite lookup_insert_ne by discriminate
                   | rewrite lookup_delete_ne by discriminate ];
      apply kept_header.
Qed.

Lemma file_response_headers_witness :
  Koa.resHeaders
    (Static.respond "/var/www/hello.txt" sample_stats
       (Static.describe sample_extname sample_extname_without sample_mimeType
          "/var/www/hello.txt" "" sample_stats sample_options
          (get_request "/hello.txt" ∅ []))) !! "Cache-Control"
  = Some "max-age=0".
Proof.
  exact (proj1 (proj2 (proj2 (proj2
           (file_response_headers sample_extname sample_extname_without sample_mimeType
              "/var/www/hello.txt" "" sample_stats sample_options
              (get_request "/hello.txt" ∅ []) eq_refl eq_refl eq_refl
              ltac:(intros k _ _; apply lookup_empty)
              ltac:(intros k _ _; apply lookup_empty)
              ltac:(cbn; lia)))))).
Defined.

(** X20. The static module cannot be built without a root: with none,
    or an empty one, it throws 'root directory is required to serve
    files'. Built without [defer], on a request that is neither GET
    nor HEAD it sets the handler name to Static, logs 'Served' with the
    path under the root when logging is on and the route is not
    silenced, and calls the rest of the stack once with the path as the
    request had it; a base that is not empty is taken off the front of
    the path for the module itself only. *)
Theorem staticModule_passes_other_methods {X : Type}
    (decodeURIComponent : string -> option string) (resolve : string -> string)
    (resolvePath : string -> string -> Js.Thrown + string)
    (extname : string -> string) (extname_without : string -> string -> string)
    (mimeType : string -> option string) (fs : Static.FileSystem)
    (browse : string -> option string -> Koa.Ctx -> Koa.Outcome * Koa.Ctx)
    (serveOptions : Static.ServeOptions) :
  let built := Static.staticModule (X := X) decodeURIComponent resolve resolvePath extname
                 extname_without mimeType fs browse serveOptions in
  (Static.root (Static.send_options serveOptions) = None
   \/ Static.root (Static.send_options serveOptions) = Some "" ->
   built = inl (Js.newError "root directory is required to serve files"))
  /\ (forall root,
      Static.root (Static.send_options serveOptions) = Some root -> root <> "" ->
      exists middleware,
        built = inr middleware /\
        forall (next : Koa.Cont Koa.Ctx X) (s : X * Koa.Ctx),
          Static.defer serveOptions = false ->
          Static.is_get_or_head s.2 = false ->
          let entered := static_entered resolve root serveOptions s.2 in
          middleware next s = next (s.1, Koa.set_path (Koa.path s.2) entered)
          /\ Koa.handler entered = Some "Static"
          /\ Koa.logs entered
             = Koa.logs s.2
               ++ (if Koa.log s.2 && negb (Static.serve_nolog serveOptions) then
                     [(Koa.succ (Koa.loggers (Koa.req s.2)) "Served",
                       Koa.info (Koa.loggers (Koa.req s.2))
                         (Path.join (resolve root) (Koa.path entered)))]
                   else [])
          /\ (forall b rest,
                Static.base serveOptions = Some b -> b <> "" ->
                Koa.path s.2 = b +:+ rest -> Koa.path entered = "/" +:+ rest)).
Proof.
  intros built. subst built. unfold Static.staticModule. split.
  { intros [-> | ->]; reflexivity. }
  intros root Hroot Hne. rewrite Hroot. apply String.eqb_neq in Hne. rewrite Hne.
  eexists. split; [reflexivity|].
  intros next s Hdefer Hget.
  set (entered := static_entered resolve root serveOptions s.2).
  assert (Hreq : Koa.req entered = Koa.req s.2).
  { subst entered. unfold static_entered.
    destruct (Static.base serveOptions) as [b|]; [destruct (String.eqb b "")|];
      destruct (Static.serve_nolog serveOptions);
      cbn [Koa.log Koa.set_log Koa.set_path Koa.set_handler];
      destruct (Koa.log s.2); reflexivity. }
  split; [|split; [|split]].
  - change (Static.defer (Static.with_root (resolve root) serveOptions))
      with (Static.defer serveOptions).
    rewrite Hdefer.
    change (Koa.run
              (Static.serve decodeURIComponent resolve resolvePath extname extname_without
                 mimeType fs browse (Static.with_root (resolve root) serveOptions))
              (fun s' => next (s'.1, Koa.set_path (Koa.path s.2) s'.2))
              (s.1, entered)
            = next (s.1, Koa.set_path (Koa.path s.2) entered)).
    unfold Static.serve. cbn [Koa.run fst snd].
    unfold Static.is_get_or_head in *. rewrite Hreq, Hget.
    cbn [Koa.run Koa.AwaitNext fst snd].
    destruct (next _) as [[|t] s']; reflexivity.
  - subst entered. unfold static_entered.
    destruct (Static.base serveOptions) as [b|]; [destruct (String.eqb b "")|];
      destruct (Static.serve_nolog serveOptions);
      cbn [Koa.log Koa.set_log Koa.set_path Koa.set_handler];
      destruct (Koa.log s.2); reflexivity.
  - subst entered. unfold static_entered.
    destruct (Static.base serveOptions) as [b|]; [destruct (String.eqb b "")|];
      destruct (Static.serve_nolog serveOptions);
      cbn [Koa.log Koa.set_log Koa.set_path Koa.set_handler];
      destruct (Koa.log s.2); cbn; rewrite ?app_nil_r; reflexivity.
  - intros b rest Hbase Hb Hpath. subst entered. unfold static_entered.
    rewrite Hbase. apply String.eqb_neq in Hb. rewrite Hb.
    cbn [Koa.path Koa.set_handler]. rewrite Hpath, replace_prefix.
    destruct (Static.serve_nolog serveOptions);
      cbn [Koa.log Koa.set_log Koa.set_path Koa.set_handler];
      destruct (Koa.log s.2); reflexivity.
Qed.


(** ** The routes of a site *)


Section RoutesProps.
Import Koa.
Variable Args : Type.
Variable loggers : Loggers.
Variable getModule : string -> string -> Router.Setting Args -> Js.Thrown + option (Mw Ctx).

Lemma addRewrites_spec site path rules r pr :
  exists r' pr',
    Router.addRewrites loggers site path rules (r, pr) = (r', pr') /\
    PathRouter.router pr' = PathRouter.router pr ++ map (rewrite_layer path) rules /\
    PathRouter.stacks pr' = PathRouter.stacks pr /\
    PathRouter.site pr' = PathRouter.site pr /\
    Router.counter r' = (Router.counter r + Z.of_nat (length rules))%Z /\
    exists added, Router.msg r' = Router.msg r ++ added /\ length added = length rules.
Proof.
  unfold Router.addRewrites. revert r pr.
  induction rules as [|rule rules IH]; intros r pr.
  - exists r, pr. cbn. rewrite app_nil_r. repeat split; try lia.
    exists []. rewrite app_nil_r. auto.
  - cbn [fold_left fst snd].
    destruct (IH (Router.count
                    (Router.log ("    " +:+ Router.site_text site +:+ ": (REWRITE) "
                                  +:+ info loggers rule.1 +:+ " -> " +:+ succ loggers rule.2) r))
                 (PathRouter.addRewrite path rule.1 rule.2 pr))
      as (r' & pr' & Hrun & Hr & Hs & Hsite & Hc & added & Hm & Hl).
    exists r', pr'. split; [exact Hrun|].
    cbn in Hr, Hs, Hsite, Hc, Hm.
    split; [rewrite Hr, <- app_assoc; reflexivity|].
    split; [exact Hs|]. split; [exact Hsite|].
    split; [rewrite Hc; cbn [length]; lia|].
    eexists (_ :: added). rewrite Hm, <- app_assoc. split; [reflexivity|].
    cbn [length]. lia.
Qed.


(** What [addRoute] does to a path router, whatever the modules do. *)
Lemma push_stack_lookup_ne path p m stacks :
  p <> path ->
  PathRouter.lookup_stack p (PathRouter.push_stack path m stacks)
  = PathRouter.lookup_stack p stacks.
Proof.
  intros Hne. induction stacks as [|[q st] stacks IH]; [reflexivity|].
  cbn. destruct (String.eqb q path) eqn:Hq; cbn.
  - apply String.eqb_eq in Hq. subst q.
    destruct (String.eqb path p) eqn:Hp; [apply String.eqb_eq in Hp; congruence | reflexivity].
  - destruct (String.eqb q p); [reflexivity | exact IH].
Qed.

Lemma lookup_stack_app p stacks more st :
  PathRouter.lookup_stack p stacks = Some st ->
  PathRouter.lookup_stack p (stacks ++ more) = Some st.
Proof.
  induction stacks as [|[q st'] stacks IH]; [discriminate|].
  cbn. destruct (String.eqb q p); [auto | exact IH].
Qed.

Lemma extends_refl pr : extends pr pr.
Proof.
  split; [reflexivity|]. split; [exists []; symmetry; apply app_nil_r|].
  intros p st H. exists []. rewrite app_nil_r. exact H.
Qed.

Lemma extends_trans pr1 pr2 pr3 : extends pr1 pr2 -> extends pr2 pr3 -> extends pr1 pr3.
Proof.
  intros (Hs1 & [l1 Hl1] & Hk1) (Hs2 & [l2 Hl2] & Hk2).
  split; [congruence|]. split.
  - exists (l1 ++ l2). rewrite Hl2, Hl1, <- app_assoc. reflexivity.
  - intros p st H. destruct (Hk1 p st H) as [m1 H1]. destruct (Hk2 p _ H1) as [m2 H2].
    exists (m1 ++ m2). rewrite H2, <- app_assoc. reflexivity.
Qed.

Lemma getStack_extends path pr : extends pr (PathRouter.getStack path pr).
Proof.
  unfold PathRouter.getStack.
  destruct (PathRouter.lookup_stack path (PathRouter.stacks pr)) eqn:Hst;
    [apply extends_refl|].
  split; [reflexivity|]. split; [eexists; reflexivity|].
  intros p st H. exists []. rewrite app_nil_r. cbn. apply lookup_stack_app. exact H.
Qed.

Lemma addModule_extends path module pr :
  extends pr (PathRouter.addModule path module pr).2.
Proof.
  unfold PathRouter.addModule.
  destruct module as [e | [m|]]; cbn [snd]; try apply getStack_extends.
  eapply extends_trans; [apply getStack_extends|].
  split; [reflexivity|]. split; [exists []; symmetry; apply app_nil_r|].
  intros p st H. cbn [PathRouter.stacks].
  destruct (String.eqb p path) eqn:Hp.
  - apply String.eqb_eq in Hp. subst p. exists [m]. apply lookup_push_stack. exact H.
  - apply String.eqb_neq in Hp. exists []. rewrite app_nil_r, push_stack_lookup_ne; assumption.
Qed.

Lemma addRoute_extends path modules pr :
  extends pr (PathRouter.addRoute path modules pr).2.
Proof.
  revert pr. induction modules as [|module modules IH]; intros pr; [apply extends_refl|].
  cbn [PathRouter.addRoute].
  pose proof (addModule_extends path module pr) as H.
  destruct (PathRouter.addModule path module pr) as [[|e] pr1]; cbn [snd] in *.
  - eapply extends_trans; [exact H | apply IH].
  - exact H.
Qed.

Lemma counted_refl r : counted r r.
Proof. exists []. rewrite app_nil_r. split; [reflexivity | cbn; lia]. Qed.

Lemma counted_trans r1 r2 r3 : counted r1 r2 -> counted r2 r3 -> counted r1 r3.
Proof.
  intros (a1 & Hm1 & Hc1) (a2 & Hm2 & Hc2). exists (a1 ++ a2).
  rewrite Hm2, Hm1, <- app_assoc. split; [reflexivity|].
  rewrite Hc2, Hc1, List.length_app. lia.
Qed.

Lemma counted_step m r : counted r (Router.count (Router.log m r)).
Proof. exists [m]. split; [reflexivity | cbn; lia]. Qed.

Lemma addRewrites_grows site path rules r pr :
  counted r (Router.addRewrites loggers site path rules (r, pr)).1 /\
  extends pr (Router.addRewrites loggers site path rules (r, pr)).2.
Proof.
  destruct (addRewrites_spec site path rules r pr)
    as (r' & pr' & -> & Hr & Hs & Hsite & Hc & added & Hm & Hl).
  cbn [fst snd]. split.
  - exists added. split; [exact Hm | rewrite Hc, Hl; reflexivity].
  - split; [exact Hsite|]. split; [eexists; exact Hr|].
    intros p st H. exists []. rewrite app_nil_r, Hs. exact H.
Qed.

Lemma addHandlers_grows site path entries r pr :
  counted r (Router.addHandlers Args loggers getModule site path entries (r, pr)).2.1 /\
  extends pr (Router.addHandlers Args loggers getModule site path entries (r, pr)).2.2.
Proof.
  unfold Router.addHandlers. cbn [fst snd].
  pose proof (addRoute_extends path
                (map (fun e => getModule path (Router.key_of Args e)
                                 (Router.setting_of Args e)) entries) pr) as H.
  destruct (PathRouter.addRoute path _ pr) as [o pr']. cbn [fst snd] in *.
  split; [apply counted_step | exact H].
Qed.

Lemma use_extends path mw pr : extends pr (PathRouter.use path mw pr).
Proof.
  split; [reflexivity|]. split; [eexists; reflexivity|].
  intros p st H. exists []. rewrite app_nil_r. exact H.
Qed.

Lemma parseRoute_grows site key rconf r pr :
  counted r (Router.parseRoute Args loggers getModule site key rconf (r, pr)).2.1 /\
  extends pr (Router.parseRoute Args loggers getModule site key rconf (r, pr)).2.2.
Proof.
  unfold Router.parseRoute. destruct rconf as [| |name|entries].
  - cbn. split; [apply counted_refl | apply extends_refl].
  - cbn. split; [apply counted_step | apply extends_refl].
  - pose proof (addHandlers_grows site (Router.pattern_of key)
                  [Router.Handler Args name None] r pr) as H.
    destruct (Router.addHandlers _ _ _ _ _ _ _) as [o [r' pr']]. exact H.
  - set (path := Router.pattern_of key).
    assert (Hrw : exists entries' r1 pr1,
               match Router.rewrite_of Args entries with
               | Some [] => (entries, (r, pr))
               | Some rules =>
                   (Router.delete_rewrite Args entries,
                    Router.addRewrites loggers site path rules (r, pr))
               | None => (entries, (r, pr))
               end = (entries', (r1, pr1)) /\ counted r r1 /\ extends pr pr1).
    { destruct (Router.rewrite_of Args entries) as [[|rule rules]|].
      - exists entries, r, pr. split; [reflexivity|].
        split; [apply counted_refl | apply extends_refl].
      - destruct (addRewrites_grows site path (rule :: rules) r pr) as [Hc He].
        destruct (Router.addRewrites loggers site path (rule :: rules) (r, pr))
          as [r1 pr1].
        exists (Router.delete_rewrite Args entries), r1, pr1. auto.
      - exists entries, r, pr. split; [reflexivity|].
        split; [apply counted_refl | apply extends_refl]. }
    destruct Hrw as (entries' & r1 & pr1 & -> & Hc & He).
    destruct (match Router.redirect_of Args entries' with
              | Some dest => if String.eqb dest "" then None else Some dest
              | None => None
              end) as [dest|].
    + cbn [fst snd]. split.
      * eapply counted_trans; [exact Hc | apply counted_step].
      * eapply extends_trans; [exact He | apply use_extends].
    + pose proof (addHandlers_grows site path entries' r1 pr1) as [Hc' He'].
      destruct (Router.addHandlers _ _ _ _ _ _ _) as [o [r' pr']]. cbn [fst snd] in *.
      split; [eapply counted_trans | eapply extends_trans]; eassumption.
Qed.

Lemma parseRoutes_grows site routes r pr :
  counted r (Router.parseRoutes Args loggers getModule site routes (r, pr)).2.1 /\
  extends pr (Router.parseRoutes Args loggers getModule site routes (r, pr)).2.2.
Proof.
  revert r pr. induction routes as [|[key rconf] routes IH]; intros r pr.
  - cbn. split; [apply counted_refl | apply extends_refl].
  - cbn [Router.parseRoutes].
    pose proof (parseRoute_grows site key rconf r pr) as [Hc He].
    destruct (Router.parseRoute Args loggers getModule site key rconf (r, pr))
      as [[o go] [r1 pr1]]. cbn [fst snd] in *.
    destruct o as [|e]; [destruct go|]; cbn [fst snd]; [|auto|auto].
    destruct (IH r1 pr1) as [Hc' He'].
    split; [eapply counted_trans | eapply extends_trans]; eassumption.
Qed.

End RoutesProps.

(** The test of the keys. *)
Lemma prefix_two (c1 c2 a : ascii) (t : string) :
  String.prefix (String c1 (String c2 "")) (String a t)
  = Ascii.eqb a c1 && match t with
                      | String b _ => Ascii.eqb b c2
                      | "" => false
                      end.
Proof.
  change (String.prefix (String c1 (String c2 "")) (String a t))
    with (if ascii_dec c1 a then String.prefix (String c2 "") t else false).
  destruct (ascii_dec c1 a) as [<- | Hne].
  - rewrite Ascii.eqb_refl. destruct t as [|b t]; [reflexivity | apply prefix_char].
  - replace (Ascii.eqb a c1) with false; [reflexivity|].
    symmetry. apply Ascii.eqb_neq. congruence.
Qed.

Lemma caret_slash_here (bol : bool) (a : ascii) (t : string) :
  Rx.matches (Rx.Cat (Rx.lit "^") (Rx.lit "/")) bol (String a t) (fun _ _ => true)
  = String.prefix "^/" (String a t).
Proof.
  rewrite prefix_two. cbn -[Ascii.eqb]. rewrite (Ascii.eqb_sym "^" a). f_equal.
  destruct t as [|b t]; [reflexivity|].
  rewrite (Ascii.eqb_sym "/" b). apply andb_true_r.
Qed.

Lemma route_key_test_from (key : string) :
  Rx.test_from Router.route_key_re false key = Js.includes "^/" key.
Proof.
  induction key as [|a key IH]; [reflexivity|].
  cbn [Rx.test_from]. rewrite IH. cbn [Js.includes]. f_equal.
  unfold Router.route_key_re.
  change (Rx.matches (Rx.Alt ?x ?y) false ?s ?k)
    with (Rx.matches x false s k || Rx.matches y false s k).
  rewrite caret_slash_here. reflexivity.
Qed.

Lemma route_key_test (key : string) :
  Rx.test Router.route_key_re key = Js.startsWith "/" key || Js.includes "^/" key.
Proof.
  unfold Rx.test. destruct key as [|a key]; [reflexivity|].
  cbn [Rx.test_from]. rewrite route_key_test_from. cbn [Js.includes].
  unfold Router.route_key_re.
  change (Rx.matches (Rx.Alt ?x ?y) true ?s ?k)
    with (Rx.matches x true s k || Rx.matches y true s k).
  rewrite caret_slash_here. unfold Js.startsWith. rewrite (prefix_char "/" a key).
  cbn -[Ascii.eqb String.prefix]. rewrite (Ascii.eqb_sym "/" a), andb_true_r.
  rewrite orb_assoc. reflexivity.
Qed.

Section RouteShapes.
Import Koa.
Variable Args : Type.

Lemma redirect_of_delete (entries : list (Router.Entry Args)) :
  Router.redirect_of Args (Router.delete_rewrite Args entries)
  = Router.redirect_of Args entries.
Proof.
  induction entries as [|e entries IH]; [reflexivity|].
  destruct e; cbn; try reflexivity; exact IH.
Qed.

Lemma code_of_delete (entries : list (Router.Entry Args)) :
  Router.code_of Args (Router.delete_rewrite Args entries)
  = Router.code_of Args entries.
Proof.
  induction entries as [|e entries IH]; [reflexivity|].
  destruct e; cbn; try reflexivity; exact IH.
Qed.

Lemma redirect_of_kept (entries : list (Router.Entry Args)) :
  Router.redirect_of Args (kept_entries entries) = Router.redirect_of Args entries.
Proof.
  unfold kept_entries. destruct (rules_of entries); [reflexivity | apply redirect_of_delete].
Qed.

Lemma code_of_kept (entries : list (Router.Entry Args)) :
  Router.code_of Args (kept_entries entries) = Router.code_of Args entries.
Proof.
  unfold kept_entries. destruct (rules_of entries); [reflexivity | apply code_of_delete].
Qed.

Variable loggers : Loggers.
Variable getModule : string -> string -> Router.Setting Args -> Js.Thrown + option (Mw Ctx).

(** The rewrites of a route, whatever its other entries are. *)
Lemma rewrites_first site path (entries : list (Router.Entry Args)) r pr :
  exists r1 pr1,
    match Router.rewrite_of Args entries with
    | Some [] => (entries, (r, pr))
    | Some rules =>
        (Router.delete_rewrite Args entries,
         Router.addRewrites loggers site path rules (r, pr))
    | None => (entries, (r, pr))
    end = (kept_entries entries, (r1, pr1)) /\
    PathRouter.router pr1
    = PathRouter.router pr ++ map (rewrite_layer path) (rules_of entries) /\
    PathRouter.stacks pr1 = PathRouter.stacks pr /\
    Router.counter r1 = (Router.counter r + Z.of_nat (length (rules_of entries)))%Z.
Proof.
  unfold kept_entries, rules_of.
  destruct (Router.rewrite_of Args entries) as [[|rule rules]|]; cbn [default].
  - exists r, pr. cbn. rewrite app_nil_r. repeat split. lia.
  - destruct (addRewrites_spec loggers site path (rule :: rules) r pr)
      as (r1 & pr1 & -> & Hr & Hs & _ & Hc & _).
    exists r1, pr1. repeat split; assumption.
  - exists r, pr. cbn. rewrite app_nil_r. repeat split. lia.
Qed.

End RouteShapes.

(** The layer and the stack of a route whose modules all load. *)
Lemma addRoute_layers (path : string) (ms : list (option (Koa.Mw Koa.Ctx)))
    (pr : PathRouter.t) :
  exists pr',
    PathRouter.addRoute path (map inr ms) pr = (Koa.Returned, pr') /\
    PathRouter.router pr'
    = PathRouter.router pr
      ++ match ms, PathRouter.lookup_stack path (PathRouter.stacks pr) with
         | _ :: _, None => [PathRouter.mkLayer PathRouter.All path (PathRouter.Composed path)]
         | _, _ => []
         end /\
    (ms <> [] ->
     PathRouter.lookup_stack path (PathRouter.stacks pr')
     = Some (default [] (PathRouter.lookup_stack path (PathRouter.stacks pr))
             ++ omap id ms)).
Proof.
  destruct ms as [|m ms].
  - exists pr. cbn. rewrite app_nil_r. repeat split. intros H. contradiction.
  - destruct (addRoute_loaded path (m :: ms) (PathRouter.getStack path pr) _
                (getStack_lookup path pr)) as (pr' & Hrun & Hr & _ & Hl).
    exists pr'. split; [|split].
    + cbn [map PathRouter.addRoute] in *. unfold PathRouter.addModule in *.
      rewrite getStack_idem in Hrun. exact Hrun.
    + rewrite Hr. unfold PathRouter.getStack.
      destruct (PathRouter.lookup_stack path (PathRouter.stacks pr));
        [rewrite app_nil_r|]; reflexivity.
    + intros _. exact Hl.
Qed.

(** X21. [parseSiteConfig] on a route given as an object whose
    redirect is missing or empty and whose modules all load: after what
    the path router had, it gets one layer for each rewrite rule, in
    the order of the rules, and then, when entries are left for
    [addRoute] and the path had no stack yet, the composed layer of the
    path; the middlewares the modules gave are appended to the stack of
    the path in the order of the entries; the counter grows by the
    number of rules and one, and the loop goes on. *)
Theorem route_rewrites_before_handlers {Args : Type} (loggers : Koa.Loggers)
    (getModule : string -> string -> Router.Setting Args
                 -> Js.Thrown + option (Koa.Mw Koa.Ctx))
    (site : Koa.SiteLike) (key : string) (entries : list (Router.Entry Args))
    (ms : list (option (Koa.Mw Koa.Ctx))) (r : Router.t) (pr : PathRouter.t) :
  let path := Router.pattern_of key in
  Router.redirect_of Args entries = None \/ Router.redirect_of Args entries = Some "" ->
  map (fun e => getModule path (Router.key_of Args e) (Router.setting_of Args e))
      (kept_entries entries)
  = map inr ms ->
  exists r' pr',
    Router.parseRoute Args loggers getModule site key (Router.RouteObject Args entries)
      (r, pr)
    = (Koa.Returned, true, (r', pr')) /\
    PathRouter.router pr'
    = PathRouter.router pr
      ++ map (rewrite_layer path) (rules_of entries)
      ++ match ms, PathRouter.lookup_stack path (PathRouter.stacks pr) with
         | _ :: _, None => [PathRouter.mkLayer PathRouter.All path (PathRouter.Composed path)]
         | _, _ => []
         end /\
    (ms <> [] ->
     PathRouter.lookup_stack path (PathRouter.stacks pr')
     = Some (default [] (PathRouter.lookup_stack path (PathRouter.stacks pr))
             ++ omap id ms)) /\
    Router.counter r'
    = (Router.counter r + Z.of_nat (length (rules_of entries)) + 1)%Z.
Proof.
  intros path Hredirect Hloaded. unfold Router.parseRoute. fold path.
  destruct (rewrites_first Args loggers site path entries r pr)
    as (r1 & pr1 & -> & Hr1 & Hs1 & Hc1).
  rewrite redirect_of_kept.
  assert (Hnone : match Router.redirect_of Args entries with
                  | Some dest => if String.eqb dest "" then None else Some dest
                  | None => None
                  end = None).
  { destruct Hredirect as [-> | ->]; reflexivity. }
  rewrite Hnone. unfold Router.addHandlers. cbn [fst snd]. rewrite Hloaded.
  destruct (addRoute_layers path ms pr1) as (pr' & -> & Hr & Hl).
  eexists _, pr'. split; [reflexivity|]. rewrite Hs1 in Hr, Hl.
  split; [rewrite Hr, Hr1, <- app_assoc; reflexivity|].
  split; [exact Hl|]. cbn. rewrite Hc1. reflexivity.
Qed.

(** X22. A route with a redirect that is not empty: after its rewrite
    rules the path router gets the one layer of the redirect, with the
    code of the route, and no stack changes: whatever the handlers of
    the route are and whatever loading them would do, none of them is
    installed. The counter grows by the number of rules and one. *)
Theorem redirect_route_ignores_handlers {Args : Type} (loggers : Koa.Loggers)
    (getModule : string -> string -> Router.Setting Args
                 -> Js.Thrown + option (Koa.Mw Koa.Ctx))
    (site : Koa.SiteLike) (key : string) (entries : list (Router.Entry Args))
    (dest : string) (r : Router.t) (pr : PathRouter.t) :
  let path := Router.pattern_of key in
  Router.redirect_of Args entries = Some dest -> dest <> "" ->
  exists r' pr',
    Router.parseRoute Args loggers getModule site key (Router.RouteObject Args entries)
      (r, pr)
    = (Koa.Returned, true, (r', pr')) /\
    PathRouter.router pr'
    = PathRouter.router pr
      ++ map (rewrite_layer path) (rules_of entries)
      ++ [PathRouter.mkLayer PathRouter.All path
            (PathRouter.Plain (PathRouter.redirect dest (Router.code_of Args entries)))] /\
    PathRouter.stacks pr' = PathRouter.stacks pr /\
    Router.counter r'
    = (Router.counter r + Z.of_nat (length (rules_of entries)) + 1)%Z.
Proof.
  intros path Hredirect Hne. unfold Router.parseRoute. fold path.
  destruct (rewrites_first Args loggers site path entries r pr)
    as (r1 & pr1 & -> & Hr1 & Hs1 & Hc1).
  rewrite redirect_of_kept, code_of_kept, Hredirect.
  apply String.eqb_neq in Hne. rewrite Hne.
  eexists _, _. split; [reflexivity|]. cbn [fst snd].
  split; [cbn; rewrite Hr1, <- app_assoc; reflexivity|].
  split; [exact Hs1|]. cbn. rewrite Hc1. reflexivity.
Qed.

Lemma parseRoutes_stops {Args : Type} (loggers : Koa.Loggers)
    (getModule : string -> string -> Router.Setting Args
                 -> Js.Thrown + option (Koa.Mw Koa.Ctx))
    (site : Koa.SiteLike) (key : string) (rconf : Router.Route Args)
    (before after : list (string * Router.Route Args)) (st : Router.t * PathRouter.t) :
  (forall st', (Router.parseRoute Args loggers getModule site key rconf st').1.2 = false) ->
  Router.parseRoutes Args loggers getModule site (before ++ (key, rconf) :: after) st
  = Router.parseRoutes Args loggers getModule site (before ++ [(key, rconf)]) st.
Proof.
  intros Hstop. revert st. induction before as [|[k c] before IH]; intros st.
  - cbn [app Router.parseRoutes]. specialize (Hstop st).
    destruct (Router.parseRoute Args loggers getModule site key rconf st)
      as [[o go] st']. cbn in Hstop. subst go. destruct o; reflexivity.
  - cbn [app Router.parseRoutes].
    destruct (Router.parseRoute Args loggers getModule site k c st) as [[[|e] [|]] st'];
      try reflexivity. apply IH.
Qed.

Lemma filter_route_key {Args : Type} (key : string) (rconf : Router.Route Args)
    (before after : list (string * Router.Route Args)) :
  List.filter (fun kv => Rx.test Router.route_key_re kv.1) (before ++ (key, rconf) :: after)
  = List.filter (fun kv => Rx.test Router.route_key_re kv.1) before
    ++ (if Rx.test Router.route_key_re key then [(key, rconf)] else [])
    ++ List.filter (fun kv => Rx.test Router.route_key_re kv.1) after.
Proof.
  rewrite List.filter_app. cbn [List.filter fst].
  destruct (Rx.test Router.route_key_re key); reflexivity.
Qed.

(** X23. A route whose configuration is [false] or [0] ends the loop
    of [parseSiteConfig]: it is counted and logged as UNHANDLED, and
    the routes after it in the site configuration are not installed. A
    route whose configuration is [null] makes [parseSiteConfig] throw a
    TypeError, and the routes after it are not installed either. *)
Theorem falsy_route_ends_the_site {Args : Type} (loggers : Koa.Loggers)
    (getModule : string -> string -> Router.Setting Args
                 -> Js.Thrown + option (Koa.Mw Koa.Ctx))
    (site : Koa.SiteLike) (key : string)
    (before after : list (string * Router.Route Args)) (st : Router.t * PathRouter.t) :
  Js.startsWith "/" key || Js.includes "^/" key = true ->
  Router.installRoutes Args loggers getModule site
    (before ++ (key, Router.RouteFalse Args) :: after) st
  = Router.installRoutes Args loggers getModule site
      (before ++ [(key, Router.RouteFalse Args)]) st
  /\ Router.installRoutes Args loggers getModule site
       (before ++ (key, Router.RouteNull Args) :: after) st
     = Router.installRoutes Args loggers getModule site
         (before ++ [(key, Router.RouteNull Args)]) st
  /\ Router.installRoutes Args loggers getModule site [(key, Router.RouteFalse Args)] st
     = (Koa.Returned,
        (Router.count
           (Router.log ("    " +:+ Router.site_text site +:+ ": "
                         +:+ Koa.info loggers (Router.pattern_of key) +:+ " -> "
                         +:+ Koa.warn loggers "UNHANDLED") st.1),
         st.2))
  /\ exists message,
       Router.installRoutes Args loggers getModule site [(key, Router.RouteNull Args)] st
       = (Koa.Threw (Js.newTypeError message), st).
Proof.
  intros Hkey. rewrite <- route_key_test in Hkey.
  unfold Router.installRoutes.
  rewrite !filter_route_key, Hkey. cbn [List.filter app].
  split; [|split; [|split]].
  - apply parseRoutes_stops. reflexivity.
  - apply parseRoutes_stops. reflexivity.
  - cbn [fst]. rewrite Hkey. reflexivity.
  - eexists. cbn [fst]. rewrite Hkey. destruct st. reflexivity.
Qed.

(** X24. The keys of a site configuration that [parseSiteConfig]
    takes for routes are those that start with a slash or have a caret
    and a slash anywhere; an entry under another key changes nothing.
    A key that starts with a caret is registered under the rest of the
    key with a catch-all group after it, every other key under
    itself. *)
Theorem route_keys {Args : Type} (loggers : Koa.Loggers)
    (getModule : string -> string -> Router.Setting Args
                 -> Js.Thrown + option (Koa.Mw Koa.Ctx))
    (site : Koa.SiteLike) (key : string) (rconf : Router.Route Args)
    (before after : list (string * Router.Route Args)) (st : Router.t * PathRouter.t) :
  Rx.test Router.route_key_re key = Js.startsWith "/" key || Js.includes "^/" key
  /\ (Js.startsWith "/" key || Js.includes "^/" key = false ->
      Router.installRoutes Args loggers getModule site (before ++ (key, rconf) :: after) st
      = Router.installRoutes Args loggers getModule site (before ++ after) st)
  /\ Router.pattern_of ("^" +:+ key) = key +:+ "(.*)"
  /\ (Js.startsWith "^" key = false -> Router.pattern_of key = key).
Proof.
  split; [apply route_key_test|]. split; [|split].
  - intros Hkey. rewrite <- route_key_test in Hkey. unfold Router.installRoutes.
    rewrite filter_route_key, Hkey, List.filter_app. reflexivity.
  - unfold Router.pattern_of, Js.startsWith.
    change ("^" +:+ key) with (String "^" key). rewrite prefix_char. reflexivity.
  - intros H. unfold Router.pattern_of. rewrite H. reflexivity.
Qed.

(** X25. Whatever the site configuration is and whatever the modules
    do, [parseSiteConfig] only adds: the messages it had stay first and
    the counter grows by the number of messages added; the layers of
    the path router stay first, and each of its stacks keeps its
    middlewares first. *)
Theorem installRoutes_only_adds {Args : Type} (loggers : Koa.Loggers)
    (getModule : string -> string -> Router.Setting Args
                 -> Js.Thrown + option (Koa.Mw Koa.Ctx))
    (site : Koa.SiteLike) (sconf : list (string * Router.Route Args))
    (r : Router.t) (pr : PathRouter.t) :
  let after := (Router.installRoutes Args loggers getModule site sconf (r, pr)).2 in
  counted r after.1 /\ extends pr after.2.
Proof.
  intros after. subst after. unfold Router.installRoutes. apply parseRoutes_grows.
Qed.

Lemma route_rewrites_before_handlers_witness :
  exists r' pr',
    Router.parseRoute unit Sample.plain sample_getModule (Koa.SiteString "*") "^/app"
      (Router.RouteObject unit
         [Router.Rewrite unit [("/app/old", "/app/new")]; Router.Handler unit "echo" None])
      sample_router
    = (Koa.Returned, true, (r', pr')) /\
    map PathRouter.pattern (PathRouter.router pr') = ["/app(.*)"; "/app(.*)"] /\
    Router.counter r' = 2%Z.
Proof.
  destruct (route_rewrites_before_handlers Sample.plain sample_getModule
              (Koa.SiteString "*") "^/app"
              [Router.Rewrite unit [("/app/old", "/app/new")];
               Router.Handler unit "echo" None]
              [Some Koa.Ret] sample_router.1 sample_router.2
              (or_introl eq_refl) eq_refl)
    as (r' & pr' & Hrun & Hrouter & _ & Hcounter).
  exists r', pr'. split; [exact Hrun|].
  split; [rewrite Hrouter; reflexivity | exact Hcounter].
Defined.

Lemma redirect_route_ignores_handlers_witness :
  exists r' pr',
    Router.parseRoute unit Sample.plain sample_getModule (Koa.SiteString "*") "/old"
      (Router.RouteObject unit
         [Router.Handler unit "missing" None; Router.Redirect unit "/new";
          Router.Code unit 302])
      sample_router
    = (Koa.Returned, true, (r', pr')) /\
    PathRouter.stacks pr' = [] /\
    Router.counter r' = 1%Z.
Proof.
  destruct (redirect_route_ignores_handlers Sample.plain sample_getModule
              (Koa.SiteString "*") "/old"
              [Router.Handler unit "missing" None; Router.Redirect unit "/new";
               Router.Code unit 302]
              "/new" sample_router.1 sample_router.2 eq_refl ltac:(discriminate))
    as (r' & pr' & Hrun & _ & Hstacks & Hcounter).
  exists r', pr'. split; [exact Hrun|]. split; [exact Hstacks | exact Hcounter].
Defined.

Lemma falsy_route_ends_the_site_witness :
  Router.installRoutes unit Sample.plain sample_getModule (Koa.SiteString "*")
    [("/off", Router.RouteFalse unit); ("/echo", Router.RouteText unit "echo")]
    sample_router
  = Router.installRoutes unit Sample.plain sample_getModule (Koa.SiteString "*")
      [("/off", Router.RouteFalse unit)] sample_router.
Proof.
  exact (proj1 (falsy_route_ends_the_site Sample.plain sample_getModule
                  (Koa.SiteString "*") "/off" []
                  [("/echo", Router.RouteText unit "echo")] sample_router eq_refl)).
Defined.
